(** * bavcityGPT: the transformer of [model.py], embedded in Rocq

    The development follows [src/model.py]:
    - scalars are kept abstract (a class of float operations), tensors are
      nested lists, and every shape test that PyTorch performs at run time is
      written out as a fallible step in an error monad;
    - modules are records, polymorphic in the representation of their
      parameters: storage locations in the object graph built by
      [GPT.__init__], plain values once the parameters are read for
      [forward];
    - parameters live in a store, so that two modules can share one tensor
      (weight tying) and in-place initialisation is visible through every
      alias.

    The data preparation of [src/prepare_data.py] is the module
    [PrepareData] and the training configuration of [src/config.py] the
    module [Config], at the end of the file. *)

From stdpp Require Import prelude strings pretty gmap sorting.
From Stdlib Require Import ZArith.
From Stdlib Require Floats.

Local Open Scope Z_scope.

(** ** Python exceptions and the error monad *)

Inductive error :=
  | AssertionError (msg : string)
  | IndexError (msg : string)
  | RuntimeError (msg : string)
  | ValueError (msg : string)
  | ZeroDivisionError (msg : string).

Inductive result (A : Type) : Type :=
  | Ok (a : A)
  | Err (e : error).
Arguments Ok {A} a.
Arguments Err {A} e.

Global Instance result_ret : MRet result := λ A a, Ok a.
Global Instance result_bind : MBind result :=
  λ A B f m, match m with Ok a => f a | Err e => Err e end.
Global Instance result_fmap : FMap result :=
  λ A B f m, match m with Ok a => Ok (f a) | Err e => Err e end.

(** [assert cond, msg] and the guards of library calls. *)
Definition check (b : bool) (e : error) : result unit :=
  if b then Ok () else Err e.

Definition is_Ok {A} (r : result A) : Prop := ∃ a, r = Ok a.

(** Element-wise combination of two lists of equal length; a length
    mismatch is the shape error PyTorch raises. *)
Fixpoint zipM {A B C} (f : A → B → result C) (l : list A) (k : list B)
  : result (list C) :=
  match l, k with
  | [], [] => Ok []
  | a :: l, b :: k => c ← f a b; cs ← zipM f l k; Ok (c :: cs)
  | _, _ => Err (RuntimeError "The size of tensor a must match the size of tensor b")
  end.

(** ** Scalars

    [torch.float32] arithmetic is not reproduced bit by bit; the operations
    the model uses are the fields of a class, and the code is translated
    over any instance. *)

Class Scalar (F : Type) := {
  Fof_Z : Z → F;
  Fneg_inf : F;
  Fadd : F → F → F;
  Fsub : F → F → F;
  Fmul : F → F → F;
  Fdiv : F → F → F;
  Fmax : F → F → F;
  Fpow : F → F → F;
  Fexp : F → F;
  Flog : F → F;
  Fsqrt : F → F;
  Feq : F → F → bool;
  Flt : F → F → bool;
}.

(** The algebraic facts about masked attention weights that the causality
    argument uses: [-inf] stays [-inf] under the max shift of softmax,
    [exp(-inf)] is [0], [0 / s] is [0], [0 * x] is [0], and [0 == 0].
    They hold in exact arithmetic extended by [-inf], where no operation
    gives NaN; IEEE floating point does not satisfy them, since there
    [0 * inf], [-inf - (-inf)] and [0 / 0] are NaN. *)
Class ScalarLaws (F : Type) `{Scalar F} : Prop := {
  Fsub_neg_inf : ∀ m, Fsub Fneg_inf m = Fneg_inf;
  Fexp_neg_inf : Fexp Fneg_inf = Fof_Z 0;
  Fdiv_zero_l : ∀ s, Fdiv (Fof_Z 0) s = Fof_Z 0;
  Fmul_zero_l : ∀ x, Fmul (Fof_Z 0) x = Fof_Z 0;
  Feq_zero : Feq (Fof_Z 0) (Fof_Z 0) = true;
}.

(** ** Integer tensors: token batches and targets *)

(** A 2-D [torch.long] tensor: its shape and its rows. *)
Record LongTensor := {
  dim0 : nat;
  dim1 : nat;
  ldata : list (list Z);
}.

Definition wf_long (t : LongTensor) : Prop :=
  length (ldata t) = dim0 t ∧ Forall (λ r, length r = dim1 t) (ldata t).

(** ** Module records *)

Record GPTconfig (F : Type) := {
  context_len : Z;
  vocab_size : Z;
  n_embd : Z;
  n_head : Z;
  n_layer : Z;
  dropout : F;
  ffw_widen : Z;
  a_bias : bool;
  ffw_bias : bool;
  lm_head_bias : bool;
}.
Arguments context_len {F} _.
Arguments vocab_size {F} _.
Arguments n_embd {F} _.
Arguments n_head {F} _.
Arguments n_layer {F} _.
Arguments dropout {F} _.
Arguments ffw_widen {F} _.
Arguments a_bias {F} _.
Arguments ffw_bias {F} _.
Arguments lm_head_bias {F} _.

(** [W] is the representation of a 2-D parameter, [B] of a 1-D one. *)
Record Linear (W B : Type) := {
  in_features : nat;
  out_features : nat;
  lin_weight : W;
  lin_bias : option B;
}.
Arguments in_features {W B} _.
Arguments out_features {W B} _.
Arguments lin_weight {W B} _.
Arguments lin_bias {W B} _.

Record Embedding (W : Type) := {
  num_embeddings : nat;
  embedding_dim : nat;
  emb_weight : W;
}.
Arguments num_embeddings {W} _.
Arguments embedding_dim {W} _.
Arguments emb_weight {W} _.

Record LayerNorm (B : Type) := {
  normalized_shape : nat;
  ln_weight : B;
  ln_bias : B;
}.
Arguments normalized_shape {B} _.
Arguments ln_weight {B} _.
Arguments ln_bias {B} _.

Record Dropout (F : Type) := { drop_p : F }.
Arguments drop_p {F} _.

(** [tril] is a registered buffer, not a parameter: it is held by value. *)
Record MultiHeadAttention (F W B : Type) := {
  mha_n_head : nat;
  head_size : nat;
  qkv : Linear W B;
  mha_proj : Linear W B;
  mha_dropout : Dropout F;
  tril : list (list F);
}.
Arguments mha_n_head {F W B} _.
Arguments head_size {F W B} _.
Arguments qkv {F W B} _.
Arguments mha_proj {F W B} _.
Arguments mha_dropout {F W B} _.
Arguments tril {F W B} _.

Record Ffw (F W B : Type) := {
  c_fc : Linear W B;
  ffw_proj : Linear W B;
  ffw_dropout : Dropout F;
}.
Arguments c_fc {F W B} _.
Arguments ffw_proj {F W B} _.
Arguments ffw_dropout {F W B} _.

Record TransformerBlock (F W B : Type) := {
  multi_head_sa : MultiHeadAttention F W B;
  ffw : Ffw F W B;
  ln1 : LayerNorm B;
  ln2 : LayerNorm B;
}.
Arguments multi_head_sa {F W B} _.
Arguments ffw {F W B} _.
Arguments ln1 {F W B} _.
Arguments ln2 {F W B} _.

Record GPT (F W B : Type) := {
  config : GPTconfig F;
  wte : Embedding W;
  wpe : Embedding W;
  drop_ : Dropout F;
  h : list (TransformerBlock F W B);
  ln_f : LayerNorm B;
  lm_head : Linear W B;
}.
Arguments config {F W B} _.
Arguments wte {F W B} _.
Arguments wpe {F W B} _.
Arguments drop_ {F W B} _.
Arguments h {F W B} _.
Arguments ln_f {F W B} _.
Arguments lm_head {F W B} _.

(** The places where [forward] calls a dropout module, in call order: the
    embedding sum, and in block [l] the attention weights, the attention
    output and the feed-forward output. *)
Inductive drop_site :=
  | SiteEmb
  | SiteAtt (l : nat)
  | SiteAttOut (l : nat)
  | SiteFfw (l : nat).

(** ** The forward pass *)

Section Forward.
Context {F : Type} `{Scalar F}.

(** [self.training], and the Bernoulli draws of the dropout generator:
    the draw for element [ix] of the tensor passed at call site [s]. *)
Variable training : bool.
Variable keep : drop_site → list nat → bool.

Local Abbreviation vec := (list F).
Local Abbreviation mat := (list (list F)).
Local Abbreviation tensor3 := (list (list (list F))).

Definition Fzero : F := Fof_Z 0.
Definition Fone : F := Fof_Z 1.

Definition vsum (v : vec) : F := foldr Fadd Fzero v.
Definition dot (a b : vec) : F := vsum (zip_with Fmul a b).

(** [F.linear(x, W, b)] on one feature vector: [x @ W.T + b]. *)
Definition linear_vec (l : Linear mat vec) (x : vec) : result vec :=
  check (length x =? in_features l)%nat
    (RuntimeError "mat1 and mat2 shapes cannot be multiplied");;
  let y := (λ w, dot x w) <$> lin_weight l in
  match lin_bias l with
  | Some b => Ok (zip_with Fadd y b)
  | None => Ok y
  end.

Definition linear (l : Linear mat vec) (x : tensor3) : result tensor3 :=
  mapM (mapM (linear_vec l)) x.

(** [nn.LayerNorm] over the last dimension, [eps = 1e-5], biased
    variance, learned scale [weight] and shift [bias]. *)
Definition ln_eps : F := Fdiv (Fof_Z 1) (Fof_Z 100000).

Definition layer_norm_vec (ln : LayerNorm vec) (x : vec) : result vec :=
  check (length x =? normalized_shape ln)%nat
    (RuntimeError "Given normalized_shape, expected input with matching last dimension");;
  let n := Fof_Z (Z.of_nat (length x)) in
  let mean := Fdiv (vsum x) n in
  let xc := (λ v, Fsub v mean) <$> x in
  let var := Fdiv (vsum ((λ v, Fmul v v) <$> xc)) n in
  let rstd := Fdiv Fone (Fsqrt (Fadd var ln_eps)) in
  Ok (zip_with Fadd
        (zip_with Fmul ((λ v, Fmul v rstd) <$> xc) (ln_weight ln))
        (ln_bias ln)).

Definition layer_norm (ln : LayerNorm vec) (x : tensor3) : result tensor3 :=
  mapM (mapM (layer_norm_vec ln)) x.

(** [nn.Embedding] lookup of one index. *)
Definition embedding (e : Embedding mat) (i : Z) : result vec :=
  check ((0 <=? i) && (i <? Z.of_nat (num_embeddings e)))
    (IndexError "index out of range in self");;
  match emb_weight e !! Z.to_nat i with
  | Some r => Ok r
  | None => Err (IndexError "index out of range in self")
  end.

(** [nn.Dropout]: the identity in evaluation mode; in training mode a
    kept element is scaled by [1 / (1 - p)] and a dropped one is zero. *)
Definition dropout_elem (d : Dropout F) (s : drop_site) (ix : list nat) (x : F) : F :=
  if training then
    if Feq (drop_p d) Fone then Fzero
    else if keep s ix then Fmul x (Fdiv Fone (Fsub Fone (drop_p d)))
    else Fzero
  else x.

Definition dropout_vec (d : Dropout F) (s : drop_site) (ix : list nat) (x : vec) : vec :=
  imap (λ c v, dropout_elem d s (ix ++ [c]) v) x.
Definition dropout_mat (d : Dropout F) (s : drop_site) (ix : list nat) (x : mat) : mat :=
  imap (λ t r, dropout_vec d s (ix ++ [t]) r) x.
Definition dropout3 (d : Dropout F) (s : drop_site) (x : tensor3) : tensor3 :=
  imap (λ b m, dropout_mat d s [b] m) x.

(** [F.softmax(row, dim=-1)], shifted by the row maximum. *)
Definition softmax (row : vec) : vec :=
  let m := foldr Fmax Fneg_inf row in
  let e := (λ x, Fexp (Fsub x m)) <$> row in
  let s := vsum e in
  (λ y, Fdiv y s) <$> e.

(** *** MultiHeadAttention.forward *)

Definition chunk (off len : nat) (r : vec) : vec := take len (drop off r).

(** After [reshape(B, T, 3, n_head, head_size).permute(2, 0, 3, 1, 4)],
    entry [which] (0 = q, 1 = k, 2 = v), head [hd]: a [T x head_size]
    matrix cut out of the rows of the [qkv] projection. *)
Definition split_head (nh hs which hd : nat) (y : mat) : mat :=
  chunk ((which * nh + hd) * hs) hs <$> y.

(** [(q @ k^T) * scale] *)
Definition scores (scale : F) (q k : mat) : mat :=
  (λ qt, (λ ks, Fmul (dot qt ks) scale) <$> k) <$> q.

(** [self.tril[:T, :T] == 0] *)
Definition causal_mask (tr : mat) (T : nat) : list (list bool) :=
  (λ r, (λ v, Feq v Fzero) <$> take T r) <$> take T tr.

(** [att.masked_fill(mask, -inf)]; the mask must have the shape of [att] *)
Definition masked_fill (mask : list (list bool)) (att : mat) : result mat :=
  zipM (zipM (λ (b : bool) v, Ok (if b then Fneg_inf else v))) mask att.

Definition column (d : nat) (v : mat) : vec := (λ r, default Fzero (r !! d)) <$> v.

(** [a @ v] for [a : T x T] and [v : T x hs] *)
Definition matmul (hs : nat) (a v : mat) : mat :=
  (λ arow, (λ d, dot arow (column d v)) <$> seq 0 hs) <$> a.

(** One head of one batch element, up to [dropout(att) @ v]. *)
Definition attend (a : MultiHeadAttention F mat vec) (l b hd : nat)
    (scale : F) (T : nat) (y : mat) : result mat :=
  let nh := mha_n_head a in
  let hs := head_size a in
  let q := split_head nh hs 0 hd y in
  let k := split_head nh hs 1 hd y in
  let v := split_head nh hs 2 hd y in
  att ← masked_fill (causal_mask (tril a) T) (scores scale q k);
  let att := softmax <$> att in
  Ok (matmul hs (dropout_mat (mha_dropout a) (SiteAtt l) [b; hd] att) v).

(** [self.qkv(x).reshape(B, T, 3, n_head, head_size)] on one batch
    element: the rows of the projection, each of width
    [3 * n_head * head_size]. *)
Definition mha_qkv (a : MultiHeadAttention F mat vec) (x : mat) : result mat :=
  let nh := mha_n_head a in
  let hs := head_size a in
  y ← mapM (linear_vec (qkv a)) x;
  mapM (λ r : vec, check (length r =? 3 * nh * hs)%nat
               (RuntimeError "shape is invalid for input size")) y;;
  Ok y.

(** What follows the scaling factor, on batch element [b]: [x] is the
    input and [y] its [qkv] projection. *)
Definition mha_batch (a : MultiHeadAttention F mat vec) (l b : nat) (scale : F)
    (x y : mat) : result mat :=
  let nh := mha_n_head a in
  let hs := head_size a in
  let T := length x in
  heads ← mapM (λ hd, attend a l b hd scale T y) (seq 0 nh);
  (* .transpose(1, 2).reshape(B, T, C): row t is the concatenation of
     row t of every head, and must have the width C of x *)
  out ← zipM (λ (xr : vec) (r : vec),
                check (length r =? length xr)%nat
                  (RuntimeError "shape is invalid for input size");;
                Ok r)
             x ((λ t, concat ((λ hm : mat, default [] (hm !! t)) <$> heads)) <$> seq 0 T);
  o ← mapM (linear_vec (mha_proj a)) out;
  Ok (dropout_mat (mha_dropout a) (SiteAttOut l) [b] o).

(** The projection and its reshape come first, for the whole batch; then
    [self.head_size ** -0.5] is evaluated, once per call and whatever the
    batch size is; the rest works batch element by batch element. *)
Definition mha_forward (a : MultiHeadAttention F mat vec) (l : nat) (x : tensor3)
    : result tensor3 :=
  let hs := head_size a in
  ys ← mapM (mha_qkv a) x;
  check (negb (hs =? 0)%nat)
    (ZeroDivisionError "0.0 cannot be raised to a negative power");;
  let scale := Fpow (Fof_Z (Z.of_nat hs)) (Fsub Fzero (Fdiv (Fof_Z 1) (Fof_Z 2))) in
  mapM (λ bxy : nat * (mat * mat), mha_batch a l bxy.1 scale bxy.2.1 bxy.2.2)
       (imap pair (zip x ys)).

(** *** Ffw.forward *)

(** [nn.ReLU] *)
Definition relu (x : F) : F := Fmax Fzero x.

Definition ffw_batch (f : Ffw F mat vec) (l b : nat) (x : mat) : result mat :=
  x1 ← mapM (linear_vec (c_fc f)) x;
  let x2 := fmap (M := list) relu <$> x1 in
  x3 ← mapM (linear_vec (ffw_proj f)) x2;
  Ok (dropout_mat (ffw_dropout f) (SiteFfw l) [b] x3).

Definition ffw_forward (f : Ffw F mat vec) (l : nat) (x : tensor3) : result tensor3 :=
  mapM (λ bm, ffw_batch f l bm.1 bm.2) (imap pair x).

(** *** TransformerBlock.forward *)

(** [x + y] for two tensors of the same shape. *)
Definition tadd (x y : tensor3) : result tensor3 :=
  zipM (zipM (zipM (λ a b, Ok (Fadd a b)))) x y.

Definition block_forward (blk : TransformerBlock F mat vec) (l : nat) (x : tensor3)
    : result tensor3 :=
  n1 ← layer_norm (ln1 blk) x;
  a ← mha_forward (multi_head_sa blk) l n1;
  x ← tadd x a;
  n2 ← layer_norm (ln2 blk) x;
  f ← ffw_forward (ffw blk) l n2;
  tadd x f.

(** [for block in self.transformer.h: x = block(x)]; [l] is the index of
    the first block of [bs] in the stack. *)
Fixpoint run_blocks (l : nat) (bs : list (TransformerBlock F mat vec)) (x : tensor3)
    : result tensor3 :=
  match bs with
  | [] => Ok x
  | blk :: bs => x' ← block_forward blk l x; run_blocks (S l) bs x'
  end.

(** *** F.cross_entropy with mean reduction *)

Definition ignore_index : Z := -1.

(** [-log_softmax(row)[t]] *)
Definition nll (row : vec) (t : nat) : F :=
  let m := foldr Fmax Fneg_inf row in
  let lse := Flog (vsum ((λ x, Fexp (Fsub x m)) <$> row)) in
  Fsub Fzero (Fsub (Fsub (default Fzero (row !! t)) m) lse).

(** The loss terms of the rows whose target is not [ignore]; a target
    outside [0, C) that is not [ignore] is an error. *)
Fixpoint nll_terms (ignore : Z) (rows : mat) (targets : list Z) : result (list F) :=
  match rows, targets with
  | row :: rows, t :: targets =>
      if (t =? ignore)%Z then nll_terms ignore rows targets
      else
        check ((0 <=? t) && (t <? Z.of_nat (length row)))
          (IndexError "Target is out of bounds");;
        ts ← nll_terms ignore rows targets;
        Ok (nll row (Z.to_nat t) :: ts)
  | _, _ => Ok []
  end.

Definition cross_entropy (rows : mat) (targets : list Z) (ignore : Z) : result F :=
  check (length rows =? length targets)%nat
    (ValueError "Expected input batch_size to match target batch_size");;
  ts ← nll_terms ignore rows targets;
  Ok (Fdiv (vsum ts) (Fof_Z (Z.of_nat (length ts)))).

(** *** GPT.forward *)

Definition forward_msg (T : nat) (ctx : Z) : string :=
  "T: " +:+ pretty T +:+ " exceeds context_len " +:+ pretty ctx.

(** The hidden states after the final layer norm. *)
Definition forward_hidden (m : GPT F mat vec) (idx : LongTensor) : result tensor3 :=
  let T := dim1 idx in
  check (Z.of_nat T <=? context_len (config m))
    (AssertionError (forward_msg T (context_len (config m))));;
  tok ← mapM (mapM (embedding (wte m))) (ldata idx);
  pos ← mapM (embedding (wpe m)) (Z.of_nat <$> seq 0 T);
  x ← mapM (λ xb, zipM (zipM (λ a b, Ok (Fadd a b))) xb pos) tok;
  let x := dropout3 (drop_ m) SiteEmb x in
  x ← run_blocks 0 (h m) x;
  layer_norm (ln_f m) x.

Definition forward (m : GPT F mat vec) (idx : LongTensor) (targets : option LongTensor)
    : result (tensor3 * option F) :=
  x ← forward_hidden m idx;
  match targets with
  | Some tg =>
      logits ← linear (lm_head m) x;
      loss ← cross_entropy (concat logits) (concat (ldata tg)) ignore_index;
      Ok (logits, Some loss)
  | None =>
      (* x[:, [-1], :] *)
      check (negb (dim1 idx =? 0)%nat)
        (IndexError "index -1 is out of bounds for dimension 1 with size 0");;
      let xl := (λ xb : mat, drop (dim1 idx - 1) xb) <$> x in
      logits ← linear (lm_head m) xl;
      Ok (logits, None)
  end.

End Forward.

(** ** Generic facts about the error monad on lists *)

Section ResultLists.
Context {A B : Type}.
Implicit Types (f : A → result B) (l : list A) (k : list B).

Lemma bind_Ok_inv {X Y} (m : result X) (g : X → result Y) y :
  m ≫= g = Ok y → ∃ x, m = Ok x ∧ g x = Ok y.
Proof. destruct m as [x|e]; simpl; [eauto | discriminate]. Qed.

Lemma check_Ok_inv b e u : check b e = Ok u → b = true.
Proof. destruct b; [done | discriminate]. Qed.

Lemma check_true e : check true e = Ok ().
Proof. done. Qed.

Lemma bind_Ok {X Y} (m : result X) (g : X → result Y) x :
  m = Ok x → m ≫= g = g x.
Proof. by intros ->. Qed.

Lemma bind_check {Y} (b : bool) e (g : unit → result Y) :
  b = true → check b e ≫= g = g ().
Proof. by intros ->. Qed.

Lemma mapM_nil_result f : mapM f [] = Ok [].
Proof. done. Qed.

Lemma mapM_cons_result f a l :
  mapM f (a :: l) = (y ← f a; ys ← mapM f l; Ok (y :: ys)).
Proof. done. Qed.

Lemma mapM_Ok_Forall2 f l k :
  mapM f l = Ok k ↔ Forall2 (λ x y, f x = Ok y) l k.
Proof.
  split.
  - revert k. induction l as [|a l IH]; intros k Hk.
    + injection Hk as <-. constructor.
    + rewrite mapM_cons_result in Hk.
      apply bind_Ok_inv in Hk as (y & Hy & Hk).
      apply bind_Ok_inv in Hk as (ys & Hys & Hk).
      injection Hk as <-. constructor; auto.
  - induction 1 as [|a y l k Hy _ IH]; [done|].
    rewrite mapM_cons_result, Hy. simpl. rewrite IH. done.
Qed.

Lemma mapM_Ok_length f l k : mapM f l = Ok k → length k = length l.
Proof. intros Hk%mapM_Ok_Forall2. symmetry. by eapply Forall2_length. Qed.

Lemma mapM_Ok_lookup f l k i a :
  mapM f l = Ok k → l !! i = Some a → ∃ y, k !! i = Some y ∧ f a = Ok y.
Proof.
  intros Hk%mapM_Ok_Forall2 Ha.
  destruct (Forall2_lookup_l _ _ _ _ _ Hk Ha) as (y & ? & ?). eauto.
Qed.

Lemma mapM_Ok_lookup_r f l k i y :
  mapM f l = Ok k → k !! i = Some y → ∃ a, l !! i = Some a ∧ f a = Ok y.
Proof.
  intros Hk%mapM_Ok_Forall2 Hy.
  destruct (Forall2_lookup_r _ _ _ _ _ Hk Hy) as (a & ? & ?). eauto.
Qed.

(** A row-wise map succeeds as soon as it succeeds on every row. *)
Lemma mapM_is_Ok (P : A → Prop) (Q : B → Prop) f l :
  (∀ a, P a → ∃ y, f a = Ok y ∧ Q y) →
  Forall P l → ∃ k, mapM f l = Ok k ∧ length k = length l ∧ Forall Q k.
Proof.
  intros Hf. induction 1 as [|a l Ha _ (k & Hk & Hlen & HQ)].
  - exists []. auto.
  - destruct (Hf a Ha) as (y & Hy & Qy).
    exists (y :: k). rewrite mapM_cons_result, Hy. simpl. rewrite Hk. simpl.
    split; [done|]. split; [by rewrite Hlen | by constructor].
Qed.

Lemma mapM_ext_in f g l :
  (∀ i a, l !! i = Some a → f a = g a) → mapM f l = mapM g l.
Proof.
  induction l as [|a l IH]; intros Hfg; [done|].
  rewrite !mapM_cons_result, (Hfg 0%nat a eq_refl), IH; [done|].
  intros i b Hb. apply (Hfg (S i)). done.
Qed.

Lemma mapM_take f l k n : mapM f l = Ok k → mapM f (take n l) = Ok (take n k).
Proof.
  rewrite !mapM_Ok_Forall2. apply Forall2_take.
Qed.
End ResultLists.

Section ZipM.
Context {A B C : Type}.
Implicit Types (f : A → B → result C).

Lemma zipM_Ok_length f l k r :
  zipM f l k = Ok r → length l = length r ∧ length k = length r.
Proof.
  revert k r. induction l as [|a l IH]; intros [|b k] r Hr; simpl in Hr; try discriminate.
  - injection Hr as <-. done.
  - apply bind_Ok_inv in Hr as (c & Hc & Hr).
    apply bind_Ok_inv in Hr as (cs & Hcs & Hr).
    injection Hr as <-. destruct (IH _ _ Hcs). simpl. auto.
Qed.

Lemma zipM_Ok_lookup f l k r i c :
  zipM f l k = Ok r → r !! i = Some c →
  ∃ a b, l !! i = Some a ∧ k !! i = Some b ∧ f a b = Ok c.
Proof.
  revert k r i. induction l as [|a l IH]; intros [|b k] r i Hr Hi; simpl in Hr; try discriminate.
  - injection Hr as <-. done.
  - apply bind_Ok_inv in Hr as (c' & Hc & Hr).
    apply bind_Ok_inv in Hr as (cs & Hcs & Hr).
    injection Hr as <-. destruct i as [|i]; simpl in *.
    + injection Hi as <-. eauto.
    + eauto.
Qed.

Lemma zipM_is_Ok (P : A → B → Prop) (Q : C → Prop) f l k :
  (∀ a b, P a b → ∃ c, f a b = Ok c ∧ Q c) →
  Forall2 P l k → ∃ r, zipM f l k = Ok r ∧ length r = length l ∧ Forall Q r.
Proof.
  intros Hf. induction 1 as [|a b l k Hab _ (r & Hr & Hlen & HQ)].
  - exists []. auto.
  - destruct (Hf a b Hab) as (c & Hc & Qc).
    exists (c :: r). simpl. rewrite Hc. simpl. rewrite Hr. simpl.
    split; [done|]. split; [by rewrite Hlen | by constructor].
Qed.
End ZipM.

(** ** Shapes and well-formed parameter values *)

Definition shape2 {A} (T C : nat) (x : list (list A)) : Prop :=
  length x = T ∧ Forall (λ r, length r = C) x.

Definition shape3 {A} (B T C : nat) (x : list (list (list A))) : Prop :=
  length x = B ∧ Forall (shape2 T C) x.

Section WellFormed.
Context {F : Type} `{Scalar F}.

(** [torch.tril(torch.ones(n, n))] *)
Definition tril_ones (n : nat) : list (list F) :=
  (λ t, (λ s, if (s <=? t)%nat then Fone else Fzero) <$> seq 0 n) <$> seq 0 n.

Definition wf_linear (l : Linear (list (list F)) (list F)) : Prop :=
  shape2 (out_features l) (in_features l) (lin_weight l) ∧
  ∀ b, lin_bias l = Some b → length b = out_features l.

Definition wf_emb (e : Embedding (list (list F))) : Prop :=
  shape2 (num_embeddings e) (embedding_dim e) (emb_weight e).

Definition wf_ln (n : LayerNorm (list F)) : Prop :=
  length (ln_weight n) = normalized_shape n ∧ length (ln_bias n) = normalized_shape n.

(** The composite shape conditions, over any representation of the
    parameters: [okL], [okE] and [okN] say when a linear layer, an
    embedding and a layer norm have parameters of their declared shapes. *)
Definition wf_mha_gen {W B} (okL : Linear W B → Prop) (C ctx : nat)
    (a : MultiHeadAttention F W B) : Prop :=
  okL (qkv a) ∧ in_features (qkv a) = C ∧ out_features (qkv a) = (3 * C)%nat ∧
  okL (mha_proj a) ∧ in_features (mha_proj a) = C ∧ out_features (mha_proj a) = C ∧
  (mha_n_head a * head_size a)%nat = C ∧
  tril a = tril_ones ctx.

Definition wf_ffw_gen {W B} (okL : Linear W B → Prop) (C : nat) (f : Ffw F W B) : Prop :=
  okL (c_fc f) ∧ in_features (c_fc f) = C ∧
  okL (ffw_proj f) ∧ in_features (ffw_proj f) = out_features (c_fc f) ∧
  out_features (ffw_proj f) = C.

Definition wf_block_gen {W B} (okL : Linear W B → Prop) (okN : LayerNorm B → Prop)
    (C ctx : nat) (blk : TransformerBlock F W B) : Prop :=
  wf_mha_gen okL C ctx (multi_head_sa blk) ∧ wf_ffw_gen okL C (ffw blk) ∧
  okN (ln1 blk) ∧ normalized_shape (ln1 blk) = C ∧
  okN (ln2 blk) ∧ normalized_shape (ln2 blk) = C.

Definition wf_gpt_gen {W B} (okL : Linear W B → Prop) (okE : Embedding W → Prop)
    (okN : LayerNorm B → Prop) (V C ctx : nat) (m : GPT F W B) : Prop :=
  vocab_size (config m) = Z.of_nat V ∧
  n_embd (config m) = Z.of_nat C ∧
  context_len (config m) = Z.of_nat ctx ∧
  okE (wte m) ∧ num_embeddings (wte m) = V ∧ embedding_dim (wte m) = C ∧
  okE (wpe m) ∧ num_embeddings (wpe m) = ctx ∧ embedding_dim (wpe m) = C ∧
  Forall (wf_block_gen okL okN C ctx) (h m) ∧
  okN (ln_f m) ∧ normalized_shape (ln_f m) = C ∧
  okL (lm_head m) ∧ in_features (lm_head m) = C ∧ out_features (lm_head m) = V.

Definition wf_mha (C ctx : nat) (a : MultiHeadAttention F (list (list F)) (list F)) : Prop :=
  wf_mha_gen wf_linear C ctx a.

Definition wf_ffw (C : nat) (f : Ffw F (list (list F)) (list F)) : Prop :=
  wf_ffw_gen wf_linear C f.

Definition wf_block (C ctx : nat) (blk : TransformerBlock F (list (list F)) (list F)) : Prop :=
  wf_block_gen wf_linear wf_ln C ctx blk.

(** The parameter shapes of a model built for vocabulary size [V],
    embedding width [C] and context length [ctx]. *)
Definition wf_gpt (V C ctx : nat) (m : GPT F (list (list F)) (list F)) : Prop :=
  wf_gpt_gen wf_linear wf_emb wf_ln V C ctx m.

(** Token indices in [0, V). *)
Definition tokens_in_range (V : nat) (idx : LongTensor) : Prop :=
  Forall (Forall (λ i, 0 <= i < Z.of_nat V)) (ldata idx).

(** Targets: a class index in [0, V) or the ignore index. *)
Definition targets_valid (V : nat) (tg : LongTensor) : Prop :=
  Forall (Forall (λ t, t = ignore_index ∨ 0 <= t < Z.of_nat V)) (ldata tg).

End WellFormed.

Section ShapeBasics.
Context {A : Type}.

Lemma shape2_lookup T C (x : list (list A)) t r :
  shape2 T C x → x !! t = Some r → length r = C.
Proof. intros [_ Hx] Ht. by eapply (Forall_lookup_1 _ _ _ _ Hx Ht). Qed.

Lemma shape2_intro T C (x : list (list A)) :
  length x = T → (∀ t r, x !! t = Some r → length r = C) → shape2 T C x.
Proof. intros ? Hx. split; [done|]. by apply Forall_lookup_2. Qed.

Lemma shape3_intro Bn T C (x : list (list (list A))) :
  length x = Bn → (∀ b m, x !! b = Some m → shape2 T C m) → shape3 Bn T C x.
Proof. intros ? Hx. split; [done|]. by apply Forall_lookup_2. Qed.

Lemma shape3_lookup Bn T C (x : list (list (list A))) b m :
  shape3 Bn T C x → x !! b = Some m → shape2 T C m.
Proof. intros [_ Hx] Hb. by eapply (Forall_lookup_1 _ _ _ _ Hx Hb). Qed.

End ShapeBasics.

Section ShapeLemmas.
Context {A B : Type}.

(** A fallible row-wise map that takes rows of width [C] to rows of width
    [C'] takes a [T x C] matrix to a [T x C'] matrix. *)
Lemma rows_ok (f : list A → result (list B)) T C C' (x : list (list A)) :
  (∀ r, length r = C → ∃ y, f r = Ok y ∧ length y = C') →
  shape2 T C x → ∃ y, mapM f x = Ok y ∧ shape2 T C' y.
Proof.
  intros Hf [HT Hx].
  destruct (mapM_is_Ok (λ r, length r = C) (λ y, length y = C') f x Hf Hx)
    as (y & Hy & Hlen & HQ).
  exists y. split; [done|]. split; [congruence | done].
Qed.

Lemma batch_ok (f : list (list A) → result (list (list B))) Bn T C T' C'
    (x : list (list (list A))) :
  (∀ m, shape2 T C m → ∃ y, f m = Ok y ∧ shape2 T' C' y) →
  shape3 Bn T C x → ∃ y, mapM f x = Ok y ∧ shape3 Bn T' C' y.
Proof.
  intros Hf [HB Hx].
  destruct (mapM_is_Ok (shape2 T C) (shape2 T' C') f x Hf Hx) as (y & Hy & Hlen & HQ).
  exists y. split; [done|]. split; [congruence | done].
Qed.

(** The same for a map that also receives the batch index. *)
Lemma batch_indexed_ok (f : nat → list (list A) → result (list (list B))) Bn T C T' C'
    (x : list (list (list A))) :
  (∀ b m, shape2 T C m → ∃ y, f b m = Ok y ∧ shape2 T' C' y) →
  shape3 Bn T C x →
  ∃ y, mapM (λ bm, f bm.1 bm.2) (imap pair x) = Ok y ∧ shape3 Bn T' C' y.
Proof.
  intros Hf [HB Hx].
  destruct (mapM_is_Ok (λ bm : nat * list (list A), shape2 T C bm.2) (shape2 T' C')
              (λ bm, f bm.1 bm.2) (imap pair x)) as (y & Hy & Hlen & HQ).
  - intros [b m] Hm. by apply Hf.
  - apply Forall_lookup_2. intros i [b m] Hi.
    rewrite list_lookup_imap in Hi.
    destruct (x !! i) as [m'|] eqn:Hm; simplify_eq/=.
    by eapply (Forall_lookup_1 _ _ _ _ Hx Hm).
  - exists y. split; [done|]. split; [|done].
    rewrite Hlen, length_imap. done.
Qed.

Lemma shape2_imap (g : nat → list A → list B) T C C' (x : list (list A)) :
  (∀ t r, length r = C → length (g t r) = C') →
  shape2 T C x → shape2 T C' (imap g x).
Proof.
  intros Hg [HT Hx]. apply shape2_intro; [by rewrite length_imap|].
  intros t r Ht. rewrite list_lookup_imap in Ht.
  destruct (x !! t) as [r'|] eqn:Hr; simplify_eq/=.
  apply Hg. by eapply (Forall_lookup_1 _ _ _ _ Hx Hr).
Qed.

End ShapeLemmas.

(** ** Every layer succeeds on inputs of the right shape *)

Section ForwardShapes.
Context {F : Type} `{Scalar F}.
Local Abbreviation vec := (list F).
Local Abbreviation mat := (list (list F)).
Local Abbreviation tensor3 := (list (list (list F))).
Variable training : bool.
Variable keep : drop_site → list nat → bool.

Lemma linear_vec_ok (l : Linear mat vec) (x : vec) :
  wf_linear l → length x = in_features l →
  ∃ y, linear_vec l x = Ok y ∧ length y = out_features l.
Proof.
  intros [[Hrows _] Hb] Hx. unfold linear_vec.
  rewrite (proj2 (Nat.eqb_eq _ _) Hx). simpl.
  destruct (lin_bias l) as [b|] eqn:Eb.
  - eexists. split; [done|].
    rewrite length_zip_with, length_fmap, Hrows, (Hb b eq_refl). lia.
  - eexists. split; [done|]. by rewrite length_fmap.
Qed.

Lemma layer_norm_vec_ok (n : LayerNorm vec) (x : vec) :
  wf_ln n → length x = normalized_shape n →
  ∃ y, layer_norm_vec n x = Ok y ∧ length y = normalized_shape n.
Proof.
  intros [Hw Hb] Hx. unfold layer_norm_vec.
  rewrite (proj2 (Nat.eqb_eq _ _) Hx). simpl.
  eexists. split; [done|].
  rewrite !length_zip_with, !length_fmap. lia.
Qed.

Lemma embedding_ok (e : Embedding mat) (i : Z) :
  wf_emb e → 0 <= i < Z.of_nat (num_embeddings e) →
  ∃ r, embedding e i = Ok r ∧ length r = embedding_dim e.
Proof.
  intros [Hn Hrows] Hi. unfold embedding.
  replace ((0 <=? i) && (i <? Z.of_nat (num_embeddings e))) with true
    by (symmetry; apply andb_true_iff; split; [apply Z.leb_le | apply Z.ltb_lt]; lia).
  simpl.
  destruct (emb_weight e !! Z.to_nat i) as [r|] eqn:Hr.
  - exists r. split; [done|]. by eapply (Forall_lookup_1 _ _ _ _ Hrows Hr).
  - apply lookup_ge_None in Hr. lia.
Qed.

Lemma length_dropout_vec d s ix (x : vec) :
  length (dropout_vec training keep d s ix x) = length x.
Proof. apply length_imap. Qed.

Lemma shape2_dropout_mat d s ix T C (x : mat) :
  shape2 T C x → shape2 T C (dropout_mat training keep d s ix x).
Proof.
  apply shape2_imap. intros t r Hr. by rewrite length_dropout_vec.
Qed.

Lemma shape3_dropout3 d s Bn T C (x : tensor3) :
  shape3 Bn T C x → shape3 Bn T C (dropout3 training keep d s x).
Proof.
  intros [HB Hx]. apply shape3_intro; [by unfold dropout3; rewrite length_imap|].
  intros b m Hb. unfold dropout3 in Hb. rewrite list_lookup_imap in Hb.
  destruct (x !! b) as [m'|] eqn:Hm; simplify_eq/=.
  apply shape2_dropout_mat. by eapply (Forall_lookup_1 _ _ _ _ Hx Hm).
Qed.


Lemma shape2_tril_ones n : shape2 n n (tril_ones (F:=F) n).
Proof.
  apply shape2_intro; unfold tril_ones.
  - by rewrite length_fmap, length_seq.
  - intros t r Ht. rewrite list_lookup_fmap in Ht.
    destruct (seq 0 n !! t); simplify_eq/=. by rewrite length_fmap, length_seq.
Qed.

Lemma shape2_causal_mask ctx T :
  (T ≤ ctx)%nat → shape2 T T (causal_mask (tril_ones ctx) T).
Proof.
  intros HT. destruct (shape2_tril_ones ctx) as [Hlen Hrows].
  apply shape2_intro; unfold causal_mask.
  - rewrite length_fmap, length_take. lia.
  - intros t r Ht. rewrite list_lookup_fmap in Ht.
    destruct (take T (tril_ones ctx) !! t) as [r'|] eqn:Hr; simplify_eq/=.
    rewrite length_fmap, length_take.
    apply lookup_take_Some in Hr as [Hr _].
    rewrite (Forall_lookup_1 _ _ _ _ Hrows Hr). lia.
Qed.

Lemma shape2_scores scale (q k : mat) : shape2 (length q) (length k) (scores scale q k).
Proof.
  apply shape2_intro; unfold scores.
  - by rewrite length_fmap.
  - intros t r Ht. rewrite list_lookup_fmap in Ht.
    destruct (q !! t); simplify_eq/=. by rewrite length_fmap.
Qed.

Lemma masked_fill_ok T (mask : list (list bool)) (att : mat) :
  shape2 T T mask → shape2 T T att →
  ∃ r, masked_fill mask att = Ok r ∧ shape2 T T r.
Proof.
  intros [Hm Hmr] [Ha Har]. unfold masked_fill.
  destruct (zipM_is_Ok (λ (mr : list bool) (ar : vec), length mr = T ∧ length ar = T)
              (λ r : vec, length r = T)
              (zipM (λ (b : bool) v, Ok (if b then Fneg_inf else v))) mask att)
    as (r & Hr & Hlen & HQ).
  - intros mr ar [Hmr' Har'].
    destruct (zipM_is_Ok (λ _ _, True) (λ _ : F, True)
                (λ (b : bool) (v : F), Ok (if b then Fneg_inf else v)) mr ar)
      as (r & Hr & Hlen & _).
    + intros; eauto.
    + apply Forall2_true; [done | congruence].
    + exists r. split; [done | congruence].
  - apply Forall2_same_length_lookup_2; [congruence|].
    intros i mr ar Hi Hj. split.
    + by eapply (Forall_lookup_1 _ _ _ _ Hmr Hi).
    + by eapply (Forall_lookup_1 _ _ _ _ Har Hj).
  - exists r. split; [done|]. split; [congruence | done].
Qed.

Lemma shape2_matmul hs (a v : mat) : shape2 (length a) hs (matmul hs a v).
Proof.
  apply shape2_intro; unfold matmul.
  - by rewrite length_fmap.
  - intros t r Ht. rewrite list_lookup_fmap in Ht.
    destruct (a !! t); simplify_eq/=. by rewrite length_fmap, length_seq.
Qed.

Lemma length_split_head nh hs which hd (y : mat) :
  length (split_head nh hs which hd y) = length y.
Proof. unfold split_head. by rewrite length_fmap. Qed.

Lemma attend_ok (a : MultiHeadAttention F mat vec) l b hd scale ctx (y : mat) :
  tril a = tril_ones ctx → (length y ≤ ctx)%nat →
  ∃ o, attend training keep a l b hd scale (length y) y = Ok o ∧
       shape2 (length y) (head_size a) o.
Proof.
  intros Htril HT. unfold attend. rewrite Htril.
  destruct (masked_fill_ok (length y) (causal_mask (tril_ones ctx) (length y))
              (scores scale (split_head (mha_n_head a) (head_size a) 0 hd y)
                            (split_head (mha_n_head a) (head_size a) 1 hd y)))
    as (att & Hatt & Hlen & Hrows).
  - by apply shape2_causal_mask.
  - pose proof (shape2_scores scale
        (split_head (mha_n_head a) (head_size a) 0 hd y)
        (split_head (mha_n_head a) (head_size a) 1 hd y)) as Hs.
    by rewrite !length_split_head in Hs.
  - rewrite Hatt. simpl. eexists. split; [done|].
    pose proof (shape2_matmul (head_size a)
      (dropout_mat training keep (mha_dropout a) (SiteAtt l) [b; hd] (softmax <$> att))
      (split_head (mha_n_head a) (head_size a) 2 hd y)) as Hm.
    unfold dropout_mat in Hm at 1. rewrite length_imap, length_fmap, Hlen in Hm. done.
Qed.

Lemma length_concat_const {X} (n : nat) (ls : list (list X)) :
  Forall (λ r, length r = n) ls → length (concat ls) = (length ls * n)%nat.
Proof.
  induction 1 as [|r ls Hr _ IH]; [done|].
  simpl. rewrite length_app, IH, Hr. done.
Qed.

Lemma mha_qkv_ok (a : MultiHeadAttention F mat vec) C ctx T (x : mat) :
  wf_mha C ctx a → shape2 T C x →
  ∃ y, mha_qkv a x = Ok y ∧ shape2 T (3 * C) y.
Proof.
  intros (Hqkv & Hqi & Hqo & Hproj & Hpi & Hpo & Hnh & Htril) Hx.
  unfold mha_qkv.
  destruct (rows_ok (linear_vec (qkv a)) T C (3 * C) x) as (y & Hy & Hylen & Hyrows);
    [intros r Hr; rewrite <- Hqo; apply linear_vec_ok; [done | congruence] | done |].
  rewrite (bind_Ok _ _ _ Hy).
  destruct (mapM_is_Ok (λ r : vec, length r = (3 * C)%nat) (λ _ : unit, True)
              (λ r : vec, check (length r =? 3 * mha_n_head a * head_size a)%nat
                 (RuntimeError "shape is invalid for input size")) y)
    as (us & Hus & _); [|done|].
  { intros r Hr. exists (). split; [|done].
    replace (length r =? 3 * mha_n_head a * head_size a)%nat with true; [done|].
    symmetry. apply Nat.eqb_eq. rewrite Hr, <- Hnh. lia. }
  rewrite (bind_Ok _ _ _ Hus). by exists y.
Qed.

Lemma mha_batch_ok (a : MultiHeadAttention F mat vec) l b scale C ctx T (x y : mat) :
  wf_mha C ctx a → (T ≤ ctx)%nat → shape2 T C x → shape2 T (3 * C) y →
  ∃ o, mha_batch training keep a l b scale x y = Ok o ∧ shape2 T C o.
Proof.
  intros (Hqkv & Hqi & Hqo & Hproj & Hpi & Hpo & Hnh & Htril) HT Hx [Hylen Hyrows].
  unfold mha_batch.
  destruct Hx as [Hxlen Hxrows]. rewrite Hxlen, <- Hylen.
  destruct (mapM_is_Ok (λ _ : nat, True) (shape2 (length y) (head_size a))
              (λ hd, attend training keep a l b hd scale (length y) y)
              (seq 0 (mha_n_head a))) as (heads & Hheads & Hhlen & Hhs');
    [intros hd _; eapply attend_ok; [done | lia] | by apply Forall_true |].
  rewrite (bind_Ok _ _ _ Hheads). rewrite length_seq in Hhlen.
  set (merged := (λ t, concat _) <$> seq 0 (length y)).
  assert (Hmerged : shape2 T C merged).
  { apply shape2_intro; subst merged; [by rewrite length_fmap, length_seq|].
    intros t r Ht. rewrite list_lookup_fmap in Ht.
    destruct (seq 0 (length y) !! t) as [t'|] eqn:Hseq; simplify_eq/=.
    apply lookup_seq in Hseq as [-> Hlt]. simpl.
    rewrite (length_concat_const (head_size a)).
    - rewrite length_fmap, Hhlen. done.
    - apply Forall_fmap, Forall_lookup_2. intros i hm Hi. simpl.
      destruct (Forall_lookup_1 _ _ _ _ Hhs' Hi) as [Hm1 Hm2].
      destruct (hm !! t) as [row|] eqn:Hrow; simpl.
      + by eapply (Forall_lookup_1 _ _ _ _ Hm2 Hrow).
      + apply lookup_ge_None in Hrow. lia. }
  destruct Hmerged as [Hmlen Hmrows].
  destruct (zipM_is_Ok (λ (xr r : vec), length xr = C ∧ length r = C)
              (λ r : vec, length r = C)
              (λ (xr r : vec), check (length r =? length xr)%nat
                 (RuntimeError "shape is invalid for input size");; Ok r)
              x merged) as (out & Hout & Holen & Horows).
  { intros xr r [Hxr Hr]. exists r.
    rewrite (proj2 (Nat.eqb_eq _ _) (eq_trans Hr (eq_sym Hxr))). done. }
  { apply Forall2_same_length_lookup_2; [congruence|].
    intros i xr r Hi Hj. split.
    - by eapply (Forall_lookup_1 _ _ _ _ Hxrows Hi).
    - by eapply (Forall_lookup_1 _ _ _ _ Hmrows Hj). }
  rewrite (bind_Ok _ _ _ Hout).
  destruct (rows_ok (linear_vec (mha_proj a)) T C C out) as (o & Ho & Hoshape);
    [intros r Hr; destruct (linear_vec_ok (mha_proj a) r) as (o & ? & ?);
       [done | congruence | exists o; split; [done | congruence]]
    | split; [congruence | done] |].
  rewrite (bind_Ok _ _ _ Ho). eexists. split; [done|].
  rewrite Hylen. by apply shape2_dropout_mat.
Qed.

Lemma mha_forward_ok (a : MultiHeadAttention F mat vec) l Bn T C ctx (x : tensor3) :
  wf_mha C ctx a → head_size a ≠ 0%nat → (T ≤ ctx)%nat → shape3 Bn T C x →
  ∃ y, mha_forward training keep a l x = Ok y ∧ shape3 Bn T C y.
Proof.
  intros Ha Hhs HT Hx. unfold mha_forward.
  destruct (batch_ok (mha_qkv a) Bn T C T (3 * C) x) as (ys & Hys & Hyslen & Hysrows);
    [intros m Hm; by eapply mha_qkv_ok | done |].
  rewrite (bind_Ok _ _ _ Hys).
  rewrite bind_check by (apply negb_true_iff, Nat.eqb_neq; done).
  set (scale := Fpow _ _). destruct Hx as [HB Hxrows].
  destruct (mapM_is_Ok
              (λ bxy : nat * (mat * mat), shape2 T C bxy.2.1 ∧ shape2 T (3 * C) bxy.2.2)
              (shape2 T C)
              (λ bxy, mha_batch training keep a l bxy.1 scale bxy.2.1 bxy.2.2)
              (imap pair (zip x ys))) as (y & Hy & Hlen & HQ).
  - intros [b [xb yb]] [Hxb Hyb]. by eapply mha_batch_ok.
  - apply Forall_lookup_2. intros i [b [xb yb]] Hi.
    rewrite list_lookup_imap in Hi.
    destruct (zip x ys !! i) as [[xb' yb']|] eqn:Hz; simplify_eq/=.
    apply lookup_zip_with_Some in Hz as (? & ? & [= <- <-] & Hxb & Hyb).
    split; [by eapply (Forall_lookup_1 _ _ _ _ Hxrows Hxb)
           | by eapply (Forall_lookup_1 _ _ _ _ Hysrows Hyb)].
  - exists y. split; [done|]. split; [|done].
    rewrite Hlen, length_imap, length_zip. lia.
Qed.

Lemma ffw_batch_ok (f : Ffw F mat vec) l b C T (x : mat) :
  wf_ffw C f → shape2 T C x →
  ∃ o, ffw_batch training keep f l b x = Ok o ∧ shape2 T C o.
Proof.
  intros (Hfc & Hfi & Hproj & Hpi & Hpo) Hx. unfold ffw_batch.
  destruct (rows_ok (linear_vec (c_fc f)) T C (out_features (c_fc f)) x)
    as (x1 & Hx1 & Hx1len & Hx1rows);
    [intros r Hr; apply linear_vec_ok; [done | congruence] | done |].
  rewrite (bind_Ok _ _ _ Hx1).
  destruct (rows_ok (linear_vec (ffw_proj f)) T (out_features (c_fc f)) C
              (fmap (M := list) relu <$> x1)) as (x3 & Hx3 & Hx3shape).
  - intros r Hr. rewrite <- Hpo. apply linear_vec_ok; [done | congruence].
  - apply shape2_intro; [by rewrite length_fmap|].
    intros t r Ht. rewrite list_lookup_fmap in Ht.
    destruct (x1 !! t) as [r'|] eqn:Hr; simplify_eq/=.
    rewrite length_fmap. by eapply (Forall_lookup_1 _ _ _ _ Hx1rows Hr).
  - rewrite (bind_Ok _ _ _ Hx3). eexists. split; [done|]. by apply shape2_dropout_mat.
Qed.

Lemma madd_ok T C (x y : mat) :
  shape2 T C x → shape2 T C y →
  ∃ z, zipM (zipM (λ a b, Ok (Fadd a b))) x y = Ok z ∧ shape2 T C z.
Proof.
  intros [Hx Hxr] [Hy Hyr].
  destruct (zipM_is_Ok (λ (xr yr : vec), length xr = C ∧ length yr = C)
              (λ r : vec, length r = C)
              (zipM (λ a b, Ok (Fadd a b))) x y) as (z & Hz & Hlen & HQ).
  - intros xr yr [Hxr' Hyr'].
    destruct (zipM_is_Ok (λ _ _, True) (λ _ : F, True)
                (λ a b : F, Ok (Fadd a b)) xr yr) as (r & Hr & Hrlen & _).
    + intros; eauto.
    + apply Forall2_true; [done | congruence].
    + exists r. split; [done | congruence].
  - apply Forall2_same_length_lookup_2; [congruence|].
    intros i xr yr Hi Hj. split.
    + by eapply (Forall_lookup_1 _ _ _ _ Hxr Hi).
    + by eapply (Forall_lookup_1 _ _ _ _ Hyr Hj).
  - exists z. split; [done|]. split; [congruence | done].
Qed.

Lemma tadd_ok Bn T C (x y : tensor3) :
  shape3 Bn T C x → shape3 Bn T C y →
  ∃ z, tadd x y = Ok z ∧ shape3 Bn T C z.
Proof.
  intros [Hx Hxr] [Hy Hyr]. unfold tadd.
  destruct (zipM_is_Ok (λ (xm ym : mat), shape2 T C xm ∧ shape2 T C ym) (shape2 T C)
              (zipM (zipM (λ a b, Ok (Fadd a b)))) x y) as (z & Hz & Hlen & HQ).
  - intros xm ym [Hxm Hym]. by apply madd_ok.
  - apply Forall2_same_length_lookup_2; [congruence|].
    intros i xm ym Hi Hj. split.
    + by eapply (Forall_lookup_1 _ _ _ _ Hxr Hi).
    + by eapply (Forall_lookup_1 _ _ _ _ Hyr Hj).
  - exists z. split; [done|]. split; [congruence | done].
Qed.

Lemma layer_norm_ok (n : LayerNorm vec) Bn T C (x : tensor3) :
  wf_ln n → normalized_shape n = C → shape3 Bn T C x →
  ∃ y, layer_norm n x = Ok y ∧ shape3 Bn T C y.
Proof.
  intros Hn HC Hx. unfold layer_norm.
  apply (batch_ok _ Bn T C T C x); [|done].
  intros m Hm. apply (rows_ok _ T C C m); [|done].
  intros r Hr. rewrite <- HC. apply layer_norm_vec_ok; [done | congruence].
Qed.

Lemma linear_ok (l : Linear mat vec) Bn T (x : tensor3) :
  wf_linear l → shape3 Bn T (in_features l) x →
  ∃ y, linear l x = Ok y ∧ shape3 Bn T (out_features l) y.
Proof.
  intros Hl Hx. unfold linear.
  apply (batch_ok _ Bn T (in_features l) T (out_features l) x); [|done].
  intros m Hm. apply (rows_ok _ T (in_features l) (out_features l) m); [|done].
  intros r Hr. by apply linear_vec_ok.
Qed.

Lemma wf_mha_head_size C ctx (a : MultiHeadAttention F mat vec) :
  wf_mha C ctx a → (0 < C)%nat → head_size a ≠ 0%nat.
Proof. intros (_ & _ & _ & _ & _ & _ & Hnh & _) HC. lia. Qed.

Lemma block_forward_ok (blk : TransformerBlock F mat vec) l Bn T C ctx (x : tensor3) :
  wf_block C ctx blk → (0 < C)%nat → (T ≤ ctx)%nat → shape3 Bn T C x →
  ∃ y, block_forward training keep blk l x = Ok y ∧ shape3 Bn T C y.
Proof.
  intros (Hmha & Hffw & Hln1 & HC1 & Hln2 & HC2) HC HT Hx. unfold block_forward.
  destruct (layer_norm_ok (ln1 blk) Bn T C x) as (n1 & Hn1 & Hn1s); [done..|].
  rewrite (bind_Ok _ _ _ Hn1).
  destruct (mha_forward_ok (multi_head_sa blk) l Bn T C ctx n1) as (a & Ha & Has);
    [done | by eapply wf_mha_head_size | done..|].
  rewrite (bind_Ok _ _ _ Ha).
  destruct (tadd_ok Bn T C x a) as (x' & Hx' & Hx's); [done..|].
  rewrite (bind_Ok _ _ _ Hx').
  destruct (layer_norm_ok (ln2 blk) Bn T C x') as (n2 & Hn2 & Hn2s); [done..|].
  rewrite (bind_Ok _ _ _ Hn2).
  destruct (batch_indexed_ok (ffw_batch training keep (ffw blk) l) Bn T C T C n2)
    as (f & Hf & Hfs); [|done|].
  { intros b m Hm. by eapply ffw_batch_ok. }
  unfold ffw_forward. rewrite (bind_Ok _ _ _ Hf).
  by apply tadd_ok.
Qed.

Lemma run_blocks_ok (bs : list (TransformerBlock F mat vec)) l Bn T C ctx (x : tensor3) :
  Forall (wf_block C ctx) bs → (0 < C)%nat → (T ≤ ctx)%nat → shape3 Bn T C x →
  ∃ y, run_blocks training keep l bs x = Ok y ∧ shape3 Bn T C y.
Proof.
  intros Hbs HC HT. revert l x.
  induction Hbs as [|blk bs Hblk _ IH]; intros l x Hx; simpl.
  - eauto.
  - destruct (block_forward_ok blk l Bn T C ctx x) as (x' & Hx' & Hx's); [done..|].
    rewrite (bind_Ok _ _ _ Hx'). by apply IH.
Qed.

Lemma forward_hidden_ok (m : GPT F mat vec) V C ctx (idx : LongTensor) :
  wf_gpt V C ctx m → (0 < C)%nat → wf_long idx → (dim1 idx ≤ ctx)%nat →
  tokens_in_range V idx →
  ∃ x, forward_hidden training keep m idx = Ok x ∧ shape3 (dim0 idx) (dim1 idx) C x.
Proof.
  intros (HV & HCc & Hctx & Hwte & HwteV & HwteC & Hwpe & Hwpen & HwpeC & Hh &
          Hlnf & HlnfC & Hlm & HlmC & HlmV) HC [Hrows Hcols] HT Htok.
  unfold forward_hidden.
  rewrite bind_check by (apply Z.leb_le; lia).
  (* token embeddings *)
  destruct (mapM_is_Ok (λ r : list Z, length r = dim1 idx ∧ Forall (λ i, 0 <= i < Z.of_nat V) r)
              (shape2 (A:=F) (dim1 idx) C)
              (mapM (embedding (wte m))) (ldata idx)) as (tok & Htok' & Htlen & Htsh).
  { intros r [Hr Hri].
    destruct (mapM_is_Ok (λ i, 0 <= i < Z.of_nat V) (λ e : vec, length e = C)
                (embedding (wte m)) r) as (er & Her & Herlen & HerQ); [|done|].
    - intros i Hi. rewrite <- HwteC. apply embedding_ok; [done | by rewrite HwteV].
    - exists er. split; [done|]. split; [congruence | done]. }
  { apply Forall_lookup_2. intros i r Hi. split.
    - by eapply (Forall_lookup_1 _ _ _ _ Hcols Hi).
    - by eapply (Forall_lookup_1 _ _ _ _ Htok Hi). }
  rewrite (bind_Ok _ _ _ Htok').
  (* position embeddings *)
  destruct (mapM_is_Ok (λ i, 0 <= i < Z.of_nat ctx) (λ e : vec, length e = C)
              (embedding (wpe m)) (Z.of_nat <$> seq 0 (dim1 idx)))
    as (pos & Hpos & Hplen & Hpsh).
  { intros i Hi. rewrite <- HwpeC. apply embedding_ok; [done | by rewrite Hwpen]. }
  { apply Forall_fmap, Forall_lookup_2. intros i t Hi.
    apply lookup_seq in Hi as [-> Hlt]. simpl. lia. }
  rewrite (bind_Ok _ _ _ Hpos).
  rewrite length_fmap, length_seq in Hplen.
  destruct (mapM_is_Ok (shape2 (A:=F) (dim1 idx) C) (shape2 (A:=F) (dim1 idx) C)
              (λ xb, zipM (zipM (λ a b, Ok (Fadd a b))) xb pos) tok)
    as (x0 & Hx0 & Hx0len & Hx0sh); [|done|].
  { intros xb Hxb. by apply madd_ok. }
  rewrite (bind_Ok _ _ _ Hx0).
  destruct (run_blocks_ok (h m) 0 (dim0 idx) (dim1 idx) C ctx
              (dropout3 training keep (drop_ m) SiteEmb x0)) as (x1 & Hx1 & Hx1s);
    [done.. | |].
  { apply shape3_dropout3. split; [congruence | done]. }
  rewrite (bind_Ok _ _ _ Hx1).
  by apply layer_norm_ok.
Qed.

(** *** The loss *)

Lemma nll_terms_ok V (rows : mat) (targets : list Z) :
  Forall (λ r, length r = V) rows →
  Forall (λ t, t = ignore_index ∨ 0 <= t < Z.of_nat V) targets →
  ∃ ts, nll_terms ignore_index rows targets = Ok ts.
Proof.
  intros Hrows. revert targets.
  induction Hrows as [|row rows Hrow _ IH]; intros targets Ht; [by exists []|].
  destruct Ht as [|t targets Ht Hts]; [by exists []|].
  simpl. destruct (IH targets Hts) as (ts & Hts').
  destruct (Z.eqb_spec t ignore_index) as [->|Hne]; [eauto|].
  destruct Ht as [?|Ht]; [done|].
  rewrite bind_check, (bind_Ok _ _ _ Hts'); [eauto|].
  apply andb_true_iff. rewrite Hrow. split; [apply Z.leb_le | apply Z.ltb_lt]; lia.
Qed.

Lemma cross_entropy_ok V (rows : mat) (targets : list Z) :
  length rows = length targets →
  Forall (λ r, length r = V) rows →
  Forall (λ t, t = ignore_index ∨ 0 <= t < Z.of_nat V) targets →
  ∃ loss, cross_entropy rows targets ignore_index = Ok loss.
Proof.
  intros Hlen Hrows Ht. unfold cross_entropy.
  rewrite bind_check by (by apply Nat.eqb_eq).
  destruct (nll_terms_ok V rows targets Hrows Ht) as (ts & Hts).
  rewrite (bind_Ok _ _ _ Hts). eauto.
Qed.

(** With every target ignored there is no loss term at all. *)
Lemma nll_terms_all_ignored (rows : mat) (targets : list Z) :
  Forall (λ t, t = ignore_index) targets →
  nll_terms ignore_index rows targets = Ok [].
Proof.
  intros Ht. revert rows. induction Ht as [|t targets -> _ IH]; intros [|row rows]; try done.
  simpl. apply IH.
Qed.

Lemma Forall_concat {X} (P : X → Prop) (ls : list (list X)) :
  Forall (Forall P) ls → Forall P (concat ls).
Proof.
  induction 1 as [|l ls Hl _ IH]; simpl; [done|]. by apply Forall_app.
Qed.

Lemma shape3_concat {X} Bn T C (x : list (list (list X))) :
  shape3 Bn T C x →
  length (concat x) = (Bn * T)%nat ∧ Forall (λ r, length r = C) (concat x).
Proof.
  intros [HB Hx]. split.
  - rewrite (length_concat_const T), HB; [done|].
    eapply Forall_impl; [exact Hx|]. by intros m [? _].
  - apply Forall_concat. eapply Forall_impl; [exact Hx|]. by intros m [_ ?].
Qed.

Lemma wf_long_concat (t : LongTensor) :
  wf_long t → length (concat (ldata t)) = (dim0 t * dim1 t)%nat.
Proof. intros [Hr Hc]. by rewrite (length_concat_const (dim1 t)), Hr. Qed.

(** *** The two modes of [GPT.forward] on a well-shaped model *)

Lemma forward_train_ok (m : GPT F mat vec) V C ctx (idx tg : LongTensor) :
  wf_gpt V C ctx m → (0 < C)%nat → wf_long idx → (dim1 idx ≤ ctx)%nat →
  tokens_in_range V idx →
  wf_long tg → dim0 tg = dim0 idx → dim1 tg = dim1 idx → targets_valid V tg →
  ∃ logits loss,
    forward training keep m idx (Some tg) = Ok (logits, Some loss) ∧
    shape3 (dim0 idx) (dim1 idx) V logits.
Proof.
  intros Hm HC Hidx HT Htok Htg HB HTt Hval.
  destruct (forward_hidden_ok m V C ctx idx) as (x & Hx & Hxs); [done..|].
  destruct Hm as (_ & _ & _ & _ & _ & _ & _ & _ & _ & _ & _ & _ & Hlm & HlmC & HlmV).
  unfold forward. rewrite (bind_Ok _ _ _ Hx).
  destruct (linear_ok (lm_head m) (dim0 idx) (dim1 idx) x) as (logits & Hl & Hls);
    [done | by rewrite HlmC |].
  rewrite HlmV in Hls. rewrite (bind_Ok _ _ _ Hl).
  destruct (shape3_concat _ _ _ _ Hls) as [Hclen Hcrows].
  destruct (cross_entropy_ok V (concat logits) (concat (ldata tg))) as (loss & Hloss).
  - rewrite Hclen, (wf_long_concat tg Htg). congruence.
  - done.
  - by apply Forall_concat.
  - rewrite (bind_Ok _ _ _ Hloss). eauto.
Qed.

Lemma forward_eval_ok (m : GPT F mat vec) V C ctx (idx : LongTensor) :
  wf_gpt V C ctx m → (0 < C)%nat → wf_long idx → (dim1 idx ≤ ctx)%nat →
  tokens_in_range V idx → (0 < dim1 idx)%nat →
  ∃ logits,
    forward training keep m idx None = Ok (logits, None) ∧
    shape3 (dim0 idx) 1 V logits.
Proof.
  intros Hm HC Hidx HT Htok HT0.
  destruct (forward_hidden_ok m V C ctx idx) as (x & Hx & Hxs); [done..|].
  destruct Hm as (_ & _ & _ & _ & _ & _ & _ & _ & _ & _ & _ & _ & Hlm & HlmC & HlmV).
  unfold forward. rewrite (bind_Ok _ _ _ Hx).
  rewrite bind_check by (apply negb_true_iff, Nat.eqb_neq; lia).
  destruct (linear_ok (lm_head m) (dim0 idx) 1
              ((λ xb : mat, drop (dim1 idx - 1) xb) <$> x)) as (logits & Hl & Hls);
    [done | |].
  - destruct Hxs as [HB Hxs]. apply shape3_intro; [by rewrite length_fmap|].
    intros b xb Hb. rewrite list_lookup_fmap in Hb.
    destruct (x !! b) as [xb'|] eqn:Hxb; [|done]. simpl in Hb. injection Hb as <-.
    destruct (Forall_lookup_1 _ _ _ _ Hxs Hxb) as [Hlen Hrows].
    apply shape2_intro; [rewrite length_drop; lia|].
    intros t r Ht. rewrite lookup_drop in Ht.
    rewrite HlmC. by eapply (Forall_lookup_1 _ _ _ _ Hrows Ht).
  - rewrite HlmV in Hls. rewrite (bind_Ok _ _ _ Hl). eauto.
Qed.

End ForwardShapes.

(** ** Parameter storage and construction

    A [torch.nn.Parameter] is a location in a store of tensors; modules
    hold locations, so two modules can hold the same one.  Allocation
    appends to the store. *)

Definition loc := nat.

Inductive tensor (F : Type) :=
  | T1 (v : list F)
  | T2 (m : list (list F)).
Arguments T1 {F} v.
Arguments T2 {F} m.

(** [p.numel()] *)
Definition numel {F} (t : tensor F) : nat :=
  match t with
  | T1 v => length v
  | T2 m => length (concat m)
  end.

(** The distributions PyTorch's own [reset_parameters] draws from. *)
Inductive default_init :=
  | LinearWeight (fan_in : nat)
  | LinearBias (fan_in : nat)
  | EmbeddingWeight.

(** The random generator: its state [G], one draw of
    [torch.nn.init.normal_(mean, std)], and one draw of a layer's default
    initialisation. *)
Class Sampler (G F : Type) := {
  normal1 : F → F → G → F * G;
  default1 : default_init → G → F * G;
}.

(** The argument of [GPT.__init__]: a [GPTconfig], or any other object. *)
Inductive pyobj (F : Type) :=
  | PyConfig (c : GPTconfig F)
  | PyOther.
Arguments PyConfig {F} c.
Arguments PyOther {F}.

(** The module tree seen by [nn.Module.apply] and [named_parameters]:
    leaves with parameters, leaves without ([nn.Dropout], [nn.ReLU]), and
    containers with their named children in registration order. *)
Inductive module :=
  | MLinear (l : Linear loc loc)
  | MEmbedding (e : Embedding loc)
  | MLayerNorm (n : LayerNorm loc)
  | MLeaf
  | MNode (children : list (string * module)).

Section Construction.
Context {F G : Type} `{Scalar F} `{Sampler G F}.
Local Abbreviation vec := (list F).
Local Abbreviation mat := (list (list F)).

Record heap := {
  store : list (tensor F);
  gen : G;
}.

(** Constructors run in a state-and-error monad over the heap. *)
Definition ctor (A : Type) : Type := heap → result (A * heap).

Global Instance ctor_ret : MRet ctor := λ A a hp, Ok (a, hp).
Global Instance ctor_bind : MBind ctor :=
  λ A B f m hp, match m hp with Ok (a, hp') => f a hp' | Err e => Err e end.

Definition raise {A} (e : error) : ctor A := λ _, Err e.

Definition guard (b : bool) (e : error) : ctor unit :=
  if b then mret () else raise e.

(** [n] successive draws. *)
Fixpoint fill (draw : G → F * G) (n : nat) (g : G) : list F * G :=
  match n with
  | O => ([], g)
  | S n => let '(x, g) := draw g in
           let '(xs, g) := fill draw n g in (x :: xs, g)
  end.

(** Row-major draws for a matrix with rows of the given lengths. *)
Fixpoint fill_rows (draw : G → F * G) (lens : list nat) (g : G) : list (list F) * G :=
  match lens with
  | [] => ([], g)
  | n :: lens => let '(r, g) := fill draw n g in
                 let '(rs, g) := fill_rows draw lens g in (r :: rs, g)
  end.

(** An in-place fill of a tensor: same shape, fresh draws. *)
Definition refill (draw : G → F * G) (t : tensor F) (g : G) : tensor F * G :=
  match t with
  | T1 v => let '(v', g) := fill draw (length v) g in (T1 v', g)
  | T2 m => let '(m', g) := fill_rows draw (length <$> m) g in (T2 m', g)
  end.

Definition const_draw (x : F) : G → F * G := λ g, (x, g).

(** A new parameter filled by [draw]. *)
Definition new_param (draw : G → F * G) (shape : tensor F) : ctor loc :=
  λ hp, let '(t, g) := refill draw shape (gen hp) in
        Ok (length (store hp), {| store := store hp ++ [t]; gen := g |}).

(** The shapes [torch.empty] is asked for; the contents are overwritten. *)
Definition empty_vec (n : nat) : tensor F := T1 (replicate n Fzero).
Definition empty_mat (r c : nat) : tensor F := T2 (replicate r (replicate c Fzero)).

Definition negative_dim : error :=
  RuntimeError "Trying to create tensor with negative dimension".

(** [nn.Linear(in_features, out_features, bias)] *)
Definition Linear_init (inf outf : Z) (bias : bool) : ctor (Linear loc loc) :=
  guard ((0 <=? outf) && (0 <=? inf)) negative_dim;;
  let i := Z.to_nat inf in
  let o := Z.to_nat outf in
  w ← new_param (default1 (LinearWeight i)) (empty_mat o i);
  b ← (if bias then b ← new_param (default1 (LinearBias i)) (empty_vec o); mret (Some b)
       else mret None);
  mret {| in_features := i; out_features := o; lin_weight := w; lin_bias := b |}.

(** [nn.Embedding(num_embeddings, embedding_dim)] *)
Definition Embedding_init (num dim : Z) : ctor (Embedding loc) :=
  guard ((0 <=? num) && (0 <=? dim)) negative_dim;;
  let n := Z.to_nat num in
  let d := Z.to_nat dim in
  w ← new_param (default1 EmbeddingWeight) (empty_mat n d);
  mret {| num_embeddings := n; embedding_dim := d; emb_weight := w |}.

(** [nn.LayerNorm(normalized_shape)]: weight ones, bias zeros. *)
Definition LayerNorm_init (n : Z) : ctor (LayerNorm loc) :=
  guard (0 <=? n) negative_dim;;
  let k := Z.to_nat n in
  w ← new_param (const_draw Fone) (empty_vec k);
  b ← new_param (const_draw Fzero) (empty_vec k);
  mret {| normalized_shape := k; ln_weight := w; ln_bias := b |}.

(** [nn.Dropout(p)] *)
Definition Dropout_init (p : F) : ctor (Dropout F) :=
  guard (negb (Flt p Fzero || Flt Fone p))
    (ValueError "dropout probability has to be between 0 and 1");;
  mret {| drop_p := p |}.

(** [MultiHeadAttention.__init__].  [n_head] and [head_size] are kept as
    naturals: by the time they are stored, [nn.Linear] has accepted
    [n_embd], and [GPT.__init__] has asserted [n_head > 0]. *)
Definition MultiHeadAttention_init (c : GPTconfig F) : ctor (MultiHeadAttention F loc loc) :=
  guard (negb (n_head c =? 0)) (ZeroDivisionError "integer modulo by zero");;
  guard (n_embd c `mod` n_head c =? 0)
    (AssertionError "Ratio n_embd / n_head must have no remainder.");;
  q ← Linear_init (n_embd c) (3 * n_embd c) (a_bias c);
  p ← Linear_init (n_embd c) (n_embd c) (a_bias c);
  d ← Dropout_init (dropout c);
  guard (0 <=? context_len c) negative_dim;;
  mret {| mha_n_head := Z.to_nat (n_head c);
          head_size := Z.to_nat (n_embd c `div` n_head c);
          qkv := q; mha_proj := p; mha_dropout := d;
          tril := tril_ones (Z.to_nat (context_len c)) |}.

(** [Ffw.__init__] *)
Definition Ffw_init (c : GPTconfig F) : ctor (Ffw F loc loc) :=
  fc ← Linear_init (n_embd c) (n_embd c * ffw_widen c) (ffw_bias c);
  p ← Linear_init (n_embd c * ffw_widen c) (n_embd c) (ffw_bias c);
  d ← Dropout_init (dropout c);
  mret {| c_fc := fc; ffw_proj := p; ffw_dropout := d |}.

(** [TransformerBlock.__init__] *)
Definition TransformerBlock_init (c : GPTconfig F) : ctor (TransformerBlock F loc loc) :=
  a ← MultiHeadAttention_init c;
  f ← Ffw_init c;
  n1 ← LayerNorm_init (n_embd c);
  n2 ← LayerNorm_init (n_embd c);
  mret {| multi_head_sa := a; ffw := f; ln1 := n1; ln2 := n2 |}.

(** [[TransformerBlock(config) for _ in range(n)]] *)
Fixpoint blocks_init (c : GPTconfig F) (n : nat) : ctor (list (TransformerBlock F loc loc)) :=
  match n with
  | O => mret []
  | S n => b ← TransformerBlock_init c; bs ← blocks_init c n; mret (b :: bs)
  end.

(** *** The module tree *)

Definition mha_tree (a : MultiHeadAttention F loc loc) : module :=
  MNode [("qkv", MLinear (qkv a)); ("proj", MLinear (mha_proj a)); ("dropout", MLeaf)].

Definition ffw_tree (f : Ffw F loc loc) : module :=
  MNode [("c_fc", MLinear (c_fc f)); ("relu", MLeaf);
         ("proj", MLinear (ffw_proj f)); ("dropout", MLeaf)].

Definition block_tree (b : TransformerBlock F loc loc) : module :=
  MNode [("multi_head_sa", mha_tree (multi_head_sa b)); ("ffw", ffw_tree (ffw b));
         ("ln1", MLayerNorm (ln1 b)); ("ln2", MLayerNorm (ln2 b))].

Definition gpt_tree (m : GPT F loc loc) : module :=
  MNode [("transformer",
          MNode [("wte", MEmbedding (wte m)); ("wpe", MEmbedding (wpe m));
                 ("drop", MLeaf);
                 ("h", MNode (imap (λ i b, (pretty i, block_tree b)) (h m)));
                 ("ln_f", MLayerNorm (ln_f m))]);
         ("lm_head", MLinear (lm_head m))].

(** A module's own [_parameters], in registration order. *)
Definition own_parameters (m : module) : list (string * loc) :=
  match m with
  | MLinear l =>
      ("weight", lin_weight l) ::
      match lin_bias l with Some b => [("bias", b)] | None => [] end
  | MEmbedding e => [("weight", emb_weight e)]
  | MLayerNorm n => [("weight", ln_weight n); ("bias", ln_bias n)]
  | MLeaf | MNode _ => []
  end.

Definition join_name (prefix name : string) : string :=
  if decide (prefix = "") then name else prefix +:+ "." +:+ name.

(** Every (qualified name, parameter) pair, modules in pre-order. *)
Fixpoint named_parameters_all (prefix : string) (m : module) : list (string * loc) :=
  ((λ np : string * loc, (join_name prefix np.1, np.2)) <$> own_parameters m) ++
  match m with
  | MNode cs =>
      concat ((λ c : string * module, named_parameters_all (join_name prefix c.1) c.2) <$> cs)
  | _ => []
  end.

(** [remove_duplicate=True]: a parameter already seen is skipped. *)
Fixpoint remove_duplicate (seen : list loc) (ps : list (string * loc)) : list (string * loc) :=
  match ps with
  | [] => []
  | (n, p) :: ps =>
      if decide (p ∈ seen) then remove_duplicate seen ps
      else (n, p) :: remove_duplicate (p :: seen) ps
  end.

Definition named_parameters (m : GPT F loc loc) : list (string * loc) :=
  remove_duplicate [] (named_parameters_all "" (gpt_tree m)).

Definition parameters (m : GPT F loc loc) : list loc := (named_parameters m).*2.

(** The order in which [nn.Module.apply] calls its function: children
    first, then the module itself. *)
Fixpoint apply_order (m : module) : list module :=
  match m with
  | MNode cs => concat ((λ c : string * module, apply_order c.2) <$> cs) ++ [m]
  | _ => [m]
  end.

(** *** In-place initialisers *)

(** [torch.nn.init.normal_(param, mean, std)]: the tensor at [p] is
    overwritten by draws; its shape and its location are unchanged. *)
Definition fill_ (draw : G → F * G) (p : loc) : ctor unit :=
  λ hp, match store hp !! p with
        | Some t => let '(t', g) := refill draw t (gen hp) in
                    Ok ((), {| store := <[p := t']> (store hp); gen := g |})
        | None => Ok ((), hp)
        end.

Definition normal_ (p : loc) (mean std : F) : ctor unit := fill_ (normal1 mean std) p.

(** [torch.nn.init.zeros_(param)] *)
Definition zeros_ (p : loc) : ctor unit := fill_ (const_draw Fzero) p.

Fixpoint for_each {A} (f : A → ctor unit) (l : list A) : ctor unit :=
  match l with
  | [] => mret ()
  | a :: l => f a;; for_each f l
  end.

(** [name.endswith(suffix)] *)
Fixpoint endswith (name suffix : string) : bool :=
  if String.eqb name suffix then true
  else match name with
       | EmptyString => false
       | String _ rest => endswith rest suffix
       end.

(** The literal [0.02] and [0.02 / math.sqrt(2 * n_layer)]. *)
Definition init_std : F := Fdiv (Fof_Z 2) (Fof_Z 100).
Definition proj_std (c : GPTconfig F) : F :=
  Fdiv init_std (Fsqrt (Fof_Z (2 * n_layer c))).

(** The body of the loop over [self.named_parameters()]. *)
Definition rescale_proj (c : GPTconfig F) (np : string * loc) : ctor unit :=
  if endswith np.1 "proj.weight" then
    guard (0 <=? 2 * n_layer c) (ValueError "math domain error");;
    guard (negb (2 * n_layer c =? 0)) (ZeroDivisionError "float division by zero");;
    normal_ np.2 Fzero (proj_std c)
  else mret ().

(** [GPT._init_weights(self, module)] *)
Definition _init_weights (m : GPT F loc loc) (md : module) : ctor unit :=
  match md with
  | MLinear l =>
      normal_ (lin_weight l) Fzero init_std;;
      match lin_bias l with
      | Some b => zeros_ b
      | None => mret ()
      end
  | MEmbedding e => normal_ (emb_weight e) Fzero init_std
  | _ => mret ()
  end;;
  for_each (rescale_proj (config m)) (named_parameters m).

(** [self.apply(self._init_weights)] *)
Definition apply_init_weights (m : GPT F loc loc) : ctor unit :=
  for_each (_init_weights m) (apply_order (gpt_tree m)).

(** [GPT.__init__(config, init_weights)] *)
Definition GPT_init (cfg : pyobj F) (init_weights : bool) : ctor (GPT F loc loc) :=
  match cfg with
  | PyOther => raise (AssertionError "Invalid config type.")
  | PyConfig c =>
      guard (0 <? n_head c) (AssertionError "n_head must be positive.");;
      guard (0 <? n_layer c) (AssertionError "n_layer must be positive.");;
      guard (0 <? vocab_size c) (AssertionError "vocab_size must be positive.");;
      e ← Embedding_init (vocab_size c) (n_embd c);
      pe ← Embedding_init (context_len c) (n_embd c);
      d ← Dropout_init (dropout c);
      bs ← blocks_init c (Z.to_nat (n_layer c));
      lnf ← LayerNorm_init (n_embd c);
      lm ← Linear_init (n_embd c) (vocab_size c) (lm_head_bias c);
      (* self.transformer.wte.weight = self.lm_head.weight *)
      let e' := {| num_embeddings := num_embeddings e;
                   embedding_dim := embedding_dim e;
                   emb_weight := lin_weight lm |} in
      let m := {| config := c; wte := e'; wpe := pe; drop_ := d; h := bs;
                  ln_f := lnf; lm_head := lm |} in
      (if init_weights then apply_init_weights m else mret ());;
      mret m
  end.

(** *** Parameter counting *)

Definition numel_at (σ : list (tensor F)) (p : loc) : nat :=
  from_option numel 0%nat (σ !! p).

(** [GPT.get_num_params(non_embedding)] *)
Definition get_num_params (m : GPT F loc loc) (σ : list (tensor F)) (non_embedding : bool) : Z :=
  let n_params := Z.of_nat (sum_list (numel_at σ <$> parameters m)) in
  if non_embedding then n_params - Z.of_nat (numel_at σ (emb_weight (wpe m)))
  else n_params.

(** *** Reading the parameters for [forward] *)

Definition read_vec (σ : list (tensor F)) (p : loc) : vec :=
  match σ !! p with Some (T1 v) => v | _ => [] end.

Definition read_mat (σ : list (tensor F)) (p : loc) : mat :=
  match σ !! p with Some (T2 m) => m | _ => [] end.

Definition load_linear (σ : list (tensor F)) (l : Linear loc loc) : Linear mat vec :=
  {| in_features := in_features l; out_features := out_features l;
     lin_weight := read_mat σ (lin_weight l);
     lin_bias := read_vec σ <$> lin_bias l |}.

Definition load_embedding (σ : list (tensor F)) (e : Embedding loc) : Embedding mat :=
  {| num_embeddings := num_embeddings e; embedding_dim := embedding_dim e;
     emb_weight := read_mat σ (emb_weight e) |}.

Definition load_layer_norm (σ : list (tensor F)) (n : LayerNorm loc) : LayerNorm vec :=
  {| normalized_shape := normalized_shape n;
     ln_weight := read_vec σ (ln_weight n); ln_bias := read_vec σ (ln_bias n) |}.

Definition load_mha (σ : list (tensor F)) (a : MultiHeadAttention F loc loc)
    : MultiHeadAttention F mat vec :=
  {| mha_n_head := mha_n_head a; head_size := head_size a;
     qkv := load_linear σ (qkv a); mha_proj := load_linear σ (mha_proj a);
     mha_dropout := mha_dropout a; tril := tril a |}.

Definition load_ffw (σ : list (tensor F)) (f : Ffw F loc loc) : Ffw F mat vec :=
  {| c_fc := load_linear σ (c_fc f); ffw_proj := load_linear σ (ffw_proj f);
     ffw_dropout := ffw_dropout f |}.

Definition load_block (σ : list (tensor F)) (b : TransformerBlock F loc loc)
    : TransformerBlock F mat vec :=
  {| multi_head_sa := load_mha σ (multi_head_sa b); ffw := load_ffw σ (ffw b);
     ln1 := load_layer_norm σ (ln1 b); ln2 := load_layer_norm σ (ln2 b) |}.

Definition load_gpt (σ : list (tensor F)) (m : GPT F loc loc) : GPT F mat vec :=
  {| config := config m;
     wte := load_embedding σ (wte m); wpe := load_embedding σ (wpe m);
     drop_ := drop_ m; h := load_block σ <$> h m;
     ln_f := load_layer_norm σ (ln_f m); lm_head := load_linear σ (lm_head m) |}.

(** [model(idx, targets)] on the object graph: the parameters are read
    from the store, which [forward] leaves as it is. *)
Definition GPT_forward (training : bool) (keep : drop_site → list nat → bool)
    (m : GPT F loc loc) (σ : list (tensor F))
    (idx : LongTensor) (targets : option LongTensor) : result (list (list (list F)) * option F) :=
  forward training keep (load_gpt σ m) idx targets.

End Construction.

(** ** An executable instance

    Fixed-point numbers with three decimals ([Some x] stands for
    [x / 1000]) extended with [-inf] ([None]), with crude integer versions of
    the transcendental functions, and a small congruential generator: enough
    to run construction and [forward] on concrete inputs. *)

Module ZInf.

Definition t : Type := option Z.

Definition zadd (a b : t) : t :=
  match a, b with Some x, Some y => Some (x + y) | _, _ => None end.
Definition zsub (a b : t) : t :=
  match a, b with Some x, Some y => Some (x - y) | Some x, None => Some x | None, _ => None end.
Definition zmul (a b : t) : t :=
  match a, b with
  | Some 0, _ => Some 0
  | Some x, Some y => Some ((x * y) `div` 1000)
  | _, _ => None
  end.
Definition zdiv (a b : t) : t :=
  match a, b with
  | Some 0, _ => Some 0
  | Some x, Some y => Some ((x * 1000) `div` y)
  | Some _, None => Some 0
  | None, _ => None
  end.
Definition zmax (a b : t) : t :=
  match a, b with
  | Some x, Some y => Some (Z.max x y)
  | Some x, None => Some x
  | None, b => b
  end.
(** Only the exponent of the source is supported: a negative exponent
    stands for [-0.5]. *)
Definition zpow (a b : t) : t :=
  match a, b with
  | Some x, Some y => if y <? 0 then Some (1000000 `div` Z.sqrt (1000 * x)) else Some 1000
  | _, _ => None
  end.
(** [1 + x + x^2 / 2], cut at zero. *)
Definition zexp (a : t) : t :=
  match a with Some x => Some (Z.max 0 (1000 + x + (x * x) `div` 2000)) | None => Some 0 end.
Definition zlog (a : t) : t :=
  match a with Some x => Some (x - 1000) | None => None end.
Definition zsqrt (a : t) : t :=
  match a with Some x => Some (Z.sqrt (1000 * x)) | None => None end.
Definition zeq (a b : t) : bool := bool_decide (a = b).
Definition zlt (a b : t) : bool :=
  match a, b with
  | Some x, Some y => x <? y
  | None, Some _ => true
  | _, None => false
  end.

Global Instance scalar : Scalar t := {|
  Fof_Z := λ z, Some (1000 * z); Fneg_inf := None;
  Fadd := zadd; Fsub := zsub; Fmul := zmul; Fdiv := zdiv; Fmax := zmax; Fpow := zpow;
  Fexp := zexp; Flog := zlog; Fsqrt := zsqrt; Feq := zeq; Flt := zlt;
|}.

Global Instance laws : ScalarLaws t.
Proof. split; try done; by intros [x|]. Qed.

(** Generator state: a residue modulo 2^31; a draw lies in [-1, 1]. *)
Definition draw (g : Z) : t * Z :=
  (Some (g `mod` 2001 - 1000), (g * 1103515245 + 12345) `mod` 2147483648).

Global Instance sampler : Sampler Z t := {|
  normal1 := λ _ _, draw;
  default1 := λ _, draw;
|}.

(** The configuration of the end-to-end scenario, without dropout. *)
Definition small_config : GPTconfig t := {|
  context_len := 8; vocab_size := 5; n_embd := 16; n_head := 2; n_layer := 2;
  dropout := Some 0; ffw_widen := 4;
  a_bias := true; ffw_bias := true; lm_head_bias := false;
|}.

(** A one-layer, one-head configuration of width two. *)
Definition tiny_config : GPTconfig t := {|
  context_len := 3; vocab_size := 3; n_embd := 2; n_head := 1; n_layer := 1;
  dropout := Some 0; ffw_widen := 1;
  a_bias := false; ffw_bias := false; lm_head_bias := false;
|}.

Definition empty_heap : heap (F:=t) (G:=Z) := {| store := []; gen := 1 |}.

Definition no_keep : drop_site → list nat → bool := λ _ _, true.

(** The model [GPT(tiny_config)] built on the empty heap: its object graph
    (the token embedding holds location 12, the output projection's), and
    the heap construction leaves. *)
Definition tiny_block : TransformerBlock t loc loc := {|
  multi_head_sa := {|
    mha_n_head := 1; head_size := 2;
    qkv := {| in_features := 2; out_features := 6; lin_weight := 2%nat; lin_bias := None |};
    mha_proj := {| in_features := 2; out_features := 2; lin_weight := 3%nat; lin_bias := None |};
    mha_dropout := {| drop_p := Some 0 |};
    tril := tril_ones 3 |};
  ffw := {|
    c_fc := {| in_features := 2; out_features := 2; lin_weight := 4%nat; lin_bias := None |};
    ffw_proj := {| in_features := 2; out_features := 2; lin_weight := 5%nat; lin_bias := None |};
    ffw_dropout := {| drop_p := Some 0 |} |};
  ln1 := {| normalized_shape := 2; ln_weight := 6%nat; ln_bias := 7%nat |};
  ln2 := {| normalized_shape := 2; ln_weight := 8%nat; ln_bias := 9%nat |};
|}.

Definition tiny_model : GPT t loc loc := {|
  config := tiny_config;
  wte := {| num_embeddings := 3; embedding_dim := 2; emb_weight := 12%nat |};
  wpe := {| num_embeddings := 3; embedding_dim := 2; emb_weight := 1%nat |};
  drop_ := {| drop_p := Some 0 |};
  h := [tiny_block];
  ln_f := {| normalized_shape := 2; ln_weight := 10%nat; ln_bias := 11%nat |};
  lm_head := {| in_features := 2; out_features := 3; lin_weight := 12%nat; lin_bias := None |};
|}.

Definition tiny_heap : heap (F:=t) (G:=Z) :=
  Eval vm_compute in
    match GPT_init (PyConfig tiny_config) true empty_heap with
    | Ok (_, hp) => hp
    | Err _ => empty_heap
    end.

(** Three batches of one sequence: the second differs from the first at
    positions 1 and 2, the third only at position 2. *)
Definition batch_012 : LongTensor := {| dim0 := 1; dim1 := 3; ldata := [[0; 1; 2]] |}.
Definition batch_021 : LongTensor := {| dim0 := 1; dim1 := 3; ldata := [[0; 2; 1]] |}.
Definition batch_011 : LongTensor := {| dim0 := 1; dim1 := 3; ldata := [[0; 1; 1]] |}.
(** Targets with one ignored position, and with every position ignored. *)
Definition targets_mixed : LongTensor := {| dim0 := 1; dim1 := 3; ldata := [[1; -1; 2]] |}.
Definition targets_ignored : LongTensor := {| dim0 := 1; dim1 := 3; ldata := [[-1; -1; -1]] |}.
(** A batch of one empty sequence. *)
Definition batch_empty : LongTensor := {| dim0 := 1; dim1 := 0; ldata := [[]] |}.

(** A configuration that meets the listed invariant with a negative width,
    and one with width zero. *)
Definition negative_width_config : GPTconfig t := {|
  context_len := 8; vocab_size := 5; n_embd := -16; n_head := 2; n_layer := 2;
  dropout := Some 0; ffw_widen := 4;
  a_bias := true; ffw_bias := true; lm_head_bias := false;
|}.

Definition zero_width_config : GPTconfig t := {|
  context_len := 3; vocab_size := 3; n_embd := 0; n_head := 1; n_layer := 1;
  dropout := Some 0; ffw_widen := 1;
  a_bias := false; ffw_bias := false; lm_head_bias := false;
|}.

(** Dropout draws that drop some elements. *)
Definition some_keep : drop_site → list nat → bool :=
  λ _ ix, bool_decide (sum_list ix `mod` 3 ≠ 0)%nat.

(** The hidden states and the training-mode logits of the tiny model on the
    three batches. *)
Definition hidden_012 : list (list (list t)) :=
  Eval vm_compute in
    match forward_hidden true some_keep (load_gpt (store tiny_heap) tiny_model) batch_012 with
    | Ok x => x
    | Err _ => []
    end.

Definition logits_of (idx : LongTensor) : list (list (list t)) :=
  match GPT_forward true some_keep tiny_model (store tiny_heap) idx (Some targets_mixed) with
  | Ok (logits, _) => logits
  | Err _ => []
  end.

Definition logits_012 : list (list (list t)) := Eval vm_compute in logits_of batch_012.
Definition logits_021 : list (list (list t)) := Eval vm_compute in logits_of batch_021.
Definition logits_011 : list (list (list t)) := Eval vm_compute in logits_of batch_011.

Definition loss_of (idx : LongTensor) : option t :=
  match GPT_forward true some_keep tiny_model (store tiny_heap) idx (Some targets_mixed) with
  | Ok (_, loss) => loss
  | Err _ => None
  end.

End ZInf.

(** ** A second instance: IEEE 754 binary64

    Rocq's primitive floats, with their addition, subtraction,
    multiplication, division, square root and comparisons.  [exp], [log]
    and [pow] are no primitives: they are given at the arguments where
    IEEE 754 and C fix the result ([exp(0) = 1], [exp(-inf) = 0],
    [log(1) = 0], [pow(1, y) = 1], ...) and by truncated series
    elsewhere.  In this arithmetic [0 * inf], [-inf - (-inf)] and [0 / 0]
    are NaN, so it is no instance of [ScalarLaws]. *)

Module IEEE.
Import PrimFloat.

(** [float(z)], for [|z| < 2^63]. *)
Definition of_Z (z : Z) : float :=
  if z <? 0 then PrimFloat.opp (PrimFloat.of_uint63 (Uint63.of_Z (- z)))
  else PrimFloat.of_uint63 (Uint63.of_Z z).

(** The maximum propagates NaN, as [torch.max] and [torch.relu] do. *)
Definition fmax (a b : float) : float :=
  if PrimFloat.is_nan a || PrimFloat.is_nan b then PrimFloat.nan
  else if PrimFloat.ltb a b then b else a.

(** [1 + x/k * (1 + x/(k+1) * (...))], [n] factors deep. *)
Fixpoint exp_series (n : nat) (k : Z) (x : float) : float :=
  match n with
  | O => 1%float
  | S n => PrimFloat.add 1%float
             (PrimFloat.mul (PrimFloat.div x (of_Z k)) (exp_series n (k + 1) x))
  end.

Definition fexp (x : float) : float :=
  if PrimFloat.is_nan x then PrimFloat.nan
  else if PrimFloat.eqb x PrimFloat.neg_infinity then 0%float
  else if PrimFloat.eqb x PrimFloat.infinity then PrimFloat.infinity
  else if PrimFloat.eqb x 0%float then 1%float
  else exp_series 40 1 x.

(** [z + z^3/3 + z^5/5 + ...], [n] terms, [p] the current power. *)
Fixpoint atanh_series (n : nat) (k : Z) (p z2 : float) : float :=
  match n with
  | O => 0%float
  | S n => PrimFloat.add (PrimFloat.div p (of_Z k))
             (atanh_series n (k + 2) (PrimFloat.mul p z2) z2)
  end.

Definition flog (x : float) : float :=
  if PrimFloat.is_nan x then PrimFloat.nan
  else if PrimFloat.ltb x 0%float then PrimFloat.nan
  else if PrimFloat.eqb x 0%float then PrimFloat.neg_infinity
  else if PrimFloat.eqb x PrimFloat.infinity then PrimFloat.infinity
  else if PrimFloat.eqb x 1%float then 0%float
  else
    let z := PrimFloat.div (PrimFloat.sub x 1%float) (PrimFloat.add x 1%float) in
    PrimFloat.mul 2%float (atanh_series 40 1 z (PrimFloat.mul z z)).

Definition fpow (x y : float) : float :=
  if PrimFloat.eqb x 1%float then 1%float
  else if PrimFloat.eqb y 0%float then 1%float
  else fexp (PrimFloat.mul y (flog x)).

Global Instance scalar : Scalar float := {|
  Fof_Z := of_Z; Fneg_inf := PrimFloat.neg_infinity;
  Fadd := PrimFloat.add; Fsub := PrimFloat.sub; Fmul := PrimFloat.mul;
  Fdiv := PrimFloat.div; Fmax := fmax; Fpow := fpow;
  Fexp := fexp; Flog := flog; Fsqrt := PrimFloat.sqrt;
  Feq := PrimFloat.eqb; Flt := PrimFloat.ltb;
|}.

(** The three laws of [ScalarLaws] that fail. *)
Example not_scalar_laws :
  Fmul (Fof_Z 0) PrimFloat.infinity = PrimFloat.nan ∧
  Fsub Fneg_inf Fneg_inf = PrimFloat.nan ∧
  Fdiv (Fof_Z 0) (Fof_Z 0) = PrimFloat.nan.
Proof. vm_compute. done. Qed.

(** Generator state: a residue modulo 2^31; a draw is the mean plus the
    standard deviation times a number in [-1, 1]. *)
Definition draw (mean std : float) (g : Z) : float * Z :=
  (PrimFloat.add mean
     (PrimFloat.mul std (PrimFloat.div (of_Z (g `mod` 2001 - 1000)) (of_Z 1000))),
   (g * 1103515245 + 12345) `mod` 2147483648).

Global Instance sampler : Sampler Z float := {|
  normal1 := draw;
  default1 := λ _, draw 0%float 1%float;
|}.

(** Two heads of size one, one layer, no dropout. *)
Definition two_head_config : GPTconfig float := {|
  context_len := 2; vocab_size := 2; n_embd := 2; n_head := 2; n_layer := 1;
  dropout := 0%float; ffw_widen := 1;
  a_bias := false; ffw_bias := false; lm_head_bias := false;
|}.

Definition empty_heap : heap (F:=float) (G:=Z) := {| store := []; gen := 1 |}.

(** The model [GPT(two_head_config)] built on the empty heap, and the
    heap construction leaves. *)
Definition model : GPT float loc loc := {|
  config := two_head_config;
  wte := {| num_embeddings := 2; embedding_dim := 2; emb_weight := 12%nat |};
  wpe := {| num_embeddings := 2; embedding_dim := 2; emb_weight := 1%nat |};
  drop_ := {| drop_p := 0%float |};
  h := [{|
    multi_head_sa := {|
      mha_n_head := 2; head_size := 1;
      qkv := {| in_features := 2; out_features := 6; lin_weight := 2%nat; lin_bias := None |};
      mha_proj :=
        {| in_features := 2; out_features := 2; lin_weight := 3%nat; lin_bias := None |};
      mha_dropout := {| drop_p := 0%float |};
      tril := tril_ones 2 |};
    ffw := {|
      c_fc := {| in_features := 2; out_features := 2; lin_weight := 4%nat; lin_bias := None |};
      ffw_proj :=
        {| in_features := 2; out_features := 2; lin_weight := 5%nat; lin_bias := None |};
      ffw_dropout := {| drop_p := 0%float |} |};
    ln1 := {| normalized_shape := 2; ln_weight := 6%nat; ln_bias := 7%nat |};
    ln2 := {| normalized_shape := 2; ln_weight := 8%nat; ln_bias := 9%nat |};
  |}];
  ln_f := {| normalized_shape := 2; ln_weight := 10%nat; ln_bias := 11%nat |};
  lm_head := {| in_features := 2; out_features := 2; lin_weight := 12%nat; lin_bias := None |};
|}.

Definition built_heap : heap (F:=float) (G:=Z) :=
  Eval vm_compute in
    match GPT_init (PyConfig two_head_config) true empty_heap with
    | Ok (_, hp) => hp
    | Err _ => empty_heap
    end.



(** Two batches of one sequence that differ at position 1 only, and
    targets that are all ignored. *)
Definition batch_00 : LongTensor := {| dim0 := 1; dim1 := 2; ldata := [[0; 0]] |}.
Definition batch_01 : LongTensor := {| dim0 := 1; dim1 := 2; ldata := [[0; 1]] |}.
Definition no_targets : LongTensor := {| dim0 := 1; dim1 := 2; ldata := [[-1; -1]] |}.


End IEEE.

(** ** Which steps can raise an [AssertionError] *)

Definition no_assert {A} (r : result A) : Prop :=
  ∀ msg, r ≠ Err (AssertionError msg).

Definition not_assertion (e : error) : Prop :=
  match e with AssertionError _ => False | _ => True end.

Lemma no_assert_Ok {A} (a : A) : no_assert (Ok a).
Proof. by intros msg. Qed.

Lemma no_assert_Err {A} (e : error) : not_assertion e → no_assert (A:=A) (Err e).
Proof. intros He msg [= ->]. done. Qed.

Lemma no_assert_check b e : not_assertion e → no_assert (check b e).
Proof. destruct b; [intros; apply no_assert_Ok | apply no_assert_Err]. Qed.

Lemma no_assert_bind {A B} (m : result A) (g : A → result B) :
  no_assert m → (∀ a, no_assert (g a)) → no_assert (m ≫= g).
Proof.
  intros Hm Hg msg. destruct m as [a|e]; simpl; [apply Hg|].
  intros [= ->]. by apply (Hm msg).
Qed.

Lemma no_assert_mapM {A B} (f : A → result B) (l : list A) :
  (∀ a, no_assert (f a)) → no_assert (mapM f l).
Proof.
  intros Hf. induction l as [|a l IH]; [apply no_assert_Ok|].
  rewrite mapM_cons_result.
  apply no_assert_bind; [done|]. intros y.
  apply no_assert_bind; [done|]. intros ys. apply no_assert_Ok.
Qed.

Lemma no_assert_zipM {A B C} (f : A → B → result C) (l : list A) (k : list B) :
  (∀ a b, no_assert (f a b)) → no_assert (zipM f l k).
Proof.
  intros Hf. revert k. induction l as [|a l IH]; intros [|b k]; simpl;
    try apply no_assert_Ok; try (by apply no_assert_Err).
  apply no_assert_bind; [done|]. intros c.
  apply no_assert_bind; [done|]. intros cs. apply no_assert_Ok.
Qed.

Ltac no_assert_step :=
  first
    [ apply no_assert_Ok
    | apply no_assert_check; exact I
    | apply no_assert_Err; exact I
    | apply no_assert_mapM; intros ?
    | apply no_assert_zipM; intros ? ?
    | apply no_assert_bind; [|intros ?] ].

Section NoAssert.
Context {F : Type} `{Scalar F}.
Variable training : bool.
Variable keep : drop_site → list nat → bool.
Local Abbreviation vec := (list F).
Local Abbreviation mat := (list (list F)).
Local Abbreviation tensor3 := (list (list (list F))).

Lemma no_assert_linear_vec (l : Linear mat vec) x : no_assert (linear_vec l x).
Proof. unfold linear_vec. no_assert_step; [no_assert_step|]. destruct (lin_bias l); no_assert_step. Qed.

Lemma no_assert_layer_norm_vec (n : LayerNorm vec) x : no_assert (layer_norm_vec n x).
Proof. unfold layer_norm_vec. repeat no_assert_step. Qed.

Lemma no_assert_embedding (e : Embedding mat) i : no_assert (embedding e i).
Proof.
  unfold embedding. no_assert_step; [no_assert_step|].
  destruct (emb_weight e !! Z.to_nat i); no_assert_step.
Qed.

Lemma no_assert_mha_forward (a : MultiHeadAttention F mat vec) l x :
  no_assert (mha_forward training keep a l x).
Proof.
  unfold mha_forward, mha_qkv, mha_batch, attend, masked_fill.
  repeat first [apply no_assert_linear_vec | no_assert_step].
Qed.

Lemma no_assert_ffw_batch (f : Ffw F mat vec) l b x :
  no_assert (ffw_batch training keep f l b x).
Proof. unfold ffw_batch. repeat first [apply no_assert_linear_vec | no_assert_step]. Qed.

Lemma no_assert_block_forward (blk : TransformerBlock F mat vec) l x :
  no_assert (block_forward training keep blk l x).
Proof.
  unfold block_forward, layer_norm, ffw_forward, tadd.
  repeat first [apply no_assert_layer_norm_vec | apply no_assert_mha_forward
               | apply no_assert_ffw_batch | no_assert_step].
Qed.

Lemma no_assert_run_blocks (bs : list (TransformerBlock F mat vec)) l x :
  no_assert (run_blocks training keep l bs x).
Proof.
  revert l x. induction bs as [|blk bs IH]; intros l x; simpl; [no_assert_step|].
  apply no_assert_bind; [apply no_assert_block_forward | intros; apply IH].
Qed.

Lemma no_assert_nll_terms ignore (rows : mat) targets : no_assert (nll_terms ignore rows targets).
Proof.
  revert targets. induction rows as [|row rows IH]; intros [|t targets]; simpl;
    try no_assert_step.
  destruct (t =? ignore); [apply IH|].
  repeat first [apply IH | no_assert_step].
Qed.

Lemma no_assert_cross_entropy (rows : mat) targets ignore :
  no_assert (cross_entropy rows targets ignore).
Proof. unfold cross_entropy. repeat first [apply no_assert_nll_terms | no_assert_step]. Qed.

End NoAssert.

(** ** The block, the length check and the loss *)

Section BlockAndLoss.
Context {F : Type} `{Scalar F}.
Variable training : bool.
Variable keep : drop_site → list nat → bool.
Local Abbreviation vec := (list F).
Local Abbreviation mat := (list (list F)).
Local Abbreviation tensor3 := (list (list (list F))).

(** The specification's wording of a pre-normalised residual sub-layer:
    [x + Sub(Norm(x))]. *)
Definition spec_residual (norm sub : tensor3 → result tensor3) (x : tensor3)
    : result tensor3 :=
  s ← (n ← norm x; sub n);
  tadd x s.

(** [x' = x + Attention(Norm1(x))], then [x' + FeedForward(Norm2(x'))]. *)
Definition spec_block (blk : TransformerBlock F mat vec) (l : nat) (x : tensor3)
    : result tensor3 :=
  x' ← spec_residual (layer_norm (ln1 blk))
         (mha_forward training keep (multi_head_sa blk) l) x;
  spec_residual (layer_norm (ln2 blk)) (ffw_forward training keep (ffw blk) l) x'.

(** The other ordering, [Norm(x + Sub(x))], and the block it would
    give, for comparison. *)
Definition post_norm_residual (norm sub : tensor3 → result tensor3) (x : tensor3)
    : result tensor3 :=
  s ← sub x;
  y ← tadd x s;
  norm y.

Definition post_norm_block (blk : TransformerBlock F mat vec) (l : nat) (x : tensor3)
    : result tensor3 :=
  x' ← post_norm_residual (layer_norm (ln1 blk))
         (mha_forward training keep (multi_head_sa blk) l) x;
  post_norm_residual (layer_norm (ln2 blk)) (ffw_forward training keep (ffw blk) l) x'.

(** The same wording entry by entry.  [at3 x b t c] is entry [(b, t, c)]
    of [x], if there is one. *)
Definition at3 (x : tensor3) (b t c : nat) : option F :=
  (x !! b ≫= (λ m : mat, m !! t)) ≫= (λ r : vec, r !! c).

(** [z = x + y]: every entry of [z] is the sum of the entries of [x] and
    [y] at its place. *)
Definition is_sum (x y z : tensor3) : Prop :=
  ∀ b t c u v, at3 x b t c = Some u → at3 y b t c = Some v →
    at3 z b t c = Some (Fadd u v).

(** Mean and reciprocal standard deviation of one feature vector, with
    the biased variance and [eps = 1e-5]. *)
Definition spec_mean (r : vec) : F :=
  Fdiv (vsum r) (Fof_Z (Z.of_nat (length r))).

Definition spec_rstd (r : vec) : F :=
  let var := Fdiv (vsum ((λ v, Fmul (Fsub v (spec_mean r)) (Fsub v (spec_mean r))) <$> r))
                  (Fof_Z (Z.of_nat (length r))) in
  Fdiv Fone (Fsqrt (Fadd var ln_eps)).

(** [y = Norm(x)]: layer normalisation over the last dimension with the
    learned scale [ln_weight] and shift [ln_bias]: entry [c] of the
    feature vector [r] at a position becomes
    [(r[c] - mean(r)) * rstd(r) * weight[c] + bias[c]]. *)
Definition is_layer_norm (ln : LayerNorm vec) (x y : tensor3) : Prop :=
  ∀ b t c r v, x !! b ≫= (λ m : mat, m !! t) = Some r → r !! c = Some v →
    ∃ γ β, ln_weight ln !! c = Some γ ∧ ln_bias ln !! c = Some β ∧
      at3 y b t c = Some (Fadd (Fmul (Fmul (Fsub v (spec_mean r)) (spec_rstd r)) γ) β).

(** The specification's wording of the loss: the mean of the negative
    log-likelihoods over the positions whose target is not [-1]. *)
Definition kept_positions (rows : mat) (targets : list Z) : list (vec * Z) :=
  filter (λ rt, rt.2 ≠ -1) (zip rows targets).

Definition spec_loss (rows : mat) (targets : list Z) : result F :=
  ts ← mapM (λ rt : vec * Z,
               check ((0 <=? rt.2) && (rt.2 <? Z.of_nat (length rt.1)))
                 (IndexError "Target is out of bounds");;
               Ok (nll rt.1 (Z.to_nat rt.2)))
            (kept_positions rows targets);
  Ok (Fdiv (vsum ts) (Fof_Z (Z.of_nat (length (kept_positions rows targets))))).

Lemma nll_terms_kept (rows : mat) (targets : list Z) :
  nll_terms ignore_index rows targets =
  mapM (λ rt : vec * Z,
          check ((0 <=? rt.2) && (rt.2 <? Z.of_nat (length rt.1)))
            (IndexError "Target is out of bounds");;
          Ok (nll rt.1 (Z.to_nat rt.2)))
       (kept_positions rows targets).
Proof.
  revert targets. induction rows as [|row rows IH]; intros [|t targets]; try done.
  simpl. unfold kept_positions. simpl. rewrite filter_cons. simpl.
  destruct (Z.eqb_spec t ignore_index) as [->|Hne].
  - rewrite decide_False by (intros Hc; by apply Hc). apply IH.
  - rewrite decide_True by done. rewrite mapM_cons_result. simpl.
    destruct (check _ _) as [[]|e]; simpl; [|done].
    by rewrite IH.
Qed.

(** [TransformerBlock.forward] is the composition of two residual
    sub-layers, results and errors alike. *)
Lemma block_forward_spec_block (blk : TransformerBlock F mat vec) (l : nat) (x : tensor3) :
  block_forward training keep blk l x = spec_block blk l x.
Proof.
  unfold block_forward, spec_block, spec_residual.
  destruct (layer_norm (ln1 blk) x) as [n1|e]; simpl; [|done].
  destruct (mha_forward training keep (multi_head_sa blk) l n1) as [a|e]; simpl; [|done].
  destruct (tadd x a) as [x'|e]; simpl; [|done].
  destruct (layer_norm (ln2 blk) x') as [n2|e]; simpl; [|done].
  by destruct (ffw_forward training keep (ffw blk) l n2) as [f|e].
Qed.

(** The tensor addition of the code adds entry by entry. *)
Lemma tadd_is_sum (x y z : tensor3) : tadd x y = Ok z → is_sum x y z.
Proof.
  unfold tadd, is_sum, at3. intros Hz b t c u v Hu Hv.
  destruct (x !! b) as [xb|] eqn:Hxb; [|done].
  destruct (y !! b) as [yb|] eqn:Hyb; [|done]. simpl in Hu, Hv.
  destruct (xb !! t) as [xr|] eqn:Hxr; [|done].
  destruct (yb !! t) as [yr|] eqn:Hyr; [|done]. simpl in Hu, Hv.
  destruct (zipM_Ok_length _ _ _ _ Hz) as [Hl _].
  destruct (lookup_lt_is_Some_2 z b) as [zb Hzb];
    [rewrite <- Hl; by eapply lookup_lt_Some|].
  destruct (zipM_Ok_lookup _ _ _ _ _ _ Hz Hzb) as (xb' & yb' & Hxb' & Hyb' & Hzb').
  rewrite Hxb in Hxb'. rewrite Hyb in Hyb'. injection Hxb' as <-. injection Hyb' as <-.
  destruct (zipM_Ok_length _ _ _ _ Hzb') as [Hl' _].
  destruct (lookup_lt_is_Some_2 zb t) as [zr Hzr];
    [rewrite <- Hl'; by eapply lookup_lt_Some|].
  destruct (zipM_Ok_lookup _ _ _ _ _ _ Hzb' Hzr) as (xr' & yr' & Hxr' & Hyr' & Hzr').
  rewrite Hxr in Hxr'. rewrite Hyr in Hyr'. injection Hxr' as <-. injection Hyr' as <-.
  destruct (zipM_Ok_length _ _ _ _ Hzr') as [Hl'' _].
  destruct (lookup_lt_is_Some_2 zr c) as [w Hw];
    [rewrite <- Hl''; by eapply lookup_lt_Some|].
  destruct (zipM_Ok_lookup _ _ _ _ _ _ Hzr' Hw) as (u' & v' & Hu' & Hv' & Hw').
  rewrite Hu in Hu'. rewrite Hv in Hv'. injection Hu' as <-. injection Hv' as <-.
  injection Hw' as <-. rewrite Hzb. simpl. rewrite Hzr. simpl. done.
Qed.

(** The layer norm of the code is the normalisation of each feature
    vector, scaled and shifted entry by entry. *)
Lemma layer_norm_vec_entry (ln : LayerNorm vec) (r y : vec) c v :
  wf_ln ln → layer_norm_vec ln r = Ok y → r !! c = Some v →
  ∃ γ β, ln_weight ln !! c = Some γ ∧ ln_bias ln !! c = Some β ∧
    y !! c = Some (Fadd (Fmul (Fmul (Fsub v (spec_mean r)) (spec_rstd r)) γ) β).
Proof.
  intros [Hw Hb] Hy Hv. unfold layer_norm_vec in Hy.
  apply bind_Ok_inv in Hy as ([] & Hlen%check_Ok_inv%Nat.eqb_eq & Hy).
  injection Hy as <-.
  pose proof (lookup_lt_Some _ _ _ Hv) as Hc.
  destruct (lookup_lt_is_Some_2 (ln_weight ln) c) as [γ Hγ]; [lia|].
  destruct (lookup_lt_is_Some_2 (ln_bias ln) c) as [β Hβ]; [lia|].
  exists γ, β. split; [done|]. split; [done|].
  rewrite !lookup_zip_with, !list_lookup_fmap, Hv, Hγ, Hβ. simpl.
  unfold spec_rstd, spec_mean. by rewrite <- list_fmap_compose.
Qed.

Lemma layer_norm_is_layer_norm (ln : LayerNorm vec) (x y : tensor3) :
  wf_ln ln → layer_norm ln x = Ok y → is_layer_norm ln x y.
Proof.
  unfold layer_norm, is_layer_norm, at3. intros Hln Hy b t c r v Hr Hv.
  destruct (x !! b) as [xb|] eqn:Hxb; [|done]. simpl in Hr.
  destruct (mapM_Ok_lookup _ _ _ _ _ Hy Hxb) as (yb & Hyb & Hb).
  destruct (mapM_Ok_lookup _ _ _ _ _ Hb Hr) as (yr & Hyr & Hrr).
  destruct (layer_norm_vec_entry ln r yr c v Hln Hrr Hv) as (γ & β & Hγ & Hβ & Hc).
  exists γ, β. rewrite Hyb. simpl. rewrite Hyr. simpl. done.
Qed.

(** On a block with parameters of the declared shapes and an input of
    shape (B, T, C), [forward] returns, and what it returns is built as
    the specification says. *)
Lemma block_forward_entries (blk : TransformerBlock F mat vec) l Bn T C ctx (x : tensor3) :
  wf_block C ctx blk → (0 < C)%nat → (T ≤ ctx)%nat → shape3 Bn T C x →
  ∃ n1 a x' n2 f out,
    block_forward training keep blk l x = Ok out ∧
    shape3 Bn T C n1 ∧ is_layer_norm (ln1 blk) x n1 ∧
    mha_forward training keep (multi_head_sa blk) l n1 = Ok a ∧
    shape3 Bn T C x' ∧ is_sum x a x' ∧
    shape3 Bn T C n2 ∧ is_layer_norm (ln2 blk) x' n2 ∧
    ffw_forward training keep (ffw blk) l n2 = Ok f ∧
    shape3 Bn T C out ∧ is_sum x' f out.
Proof.
  intros (Hmha & Hffw & Hln1 & HC1 & Hln2 & HC2) HC HT Hx. unfold block_forward.
  destruct (layer_norm_ok (ln1 blk) Bn T C x) as (n1 & Hn1 & Hn1s); [done..|].
  destruct (mha_forward_ok training keep (multi_head_sa blk) l Bn T C ctx n1)
    as (a & Ha & Has); [done | by eapply wf_mha_head_size | done..|].
  destruct (tadd_ok Bn T C x a) as (x' & Hx' & Hx's); [done..|].
  destruct (layer_norm_ok (ln2 blk) Bn T C x') as (n2 & Hn2 & Hn2s); [done..|].
  destruct (batch_indexed_ok (ffw_batch training keep (ffw blk) l) Bn T C T C n2)
    as (f & Hf & Hfs); [intros b m Hm; by eapply ffw_batch_ok | done |].
  destruct (tadd_ok Bn T C x' f) as (out & Hout & Houts); [done..|].
  exists n1, a, x', n2, f, out.
  rewrite (bind_Ok _ _ _ Hn1), (bind_Ok _ _ _ Ha), (bind_Ok _ _ _ Hx'),
    (bind_Ok _ _ _ Hn2). unfold ffw_forward at 1. rewrite (bind_Ok _ _ _ Hf).
  split_and!; try done.
  - by apply layer_norm_is_layer_norm.
  - by apply tadd_is_sum.
  - by apply layer_norm_is_layer_norm.
  - by apply tadd_is_sum.
Qed.

(** C10. The ignore index that [GPT.forward] passes to the loss is [-1];
    the loss is the mean over exactly the positions whose target is not
    [-1]: a position with target [-1] adds no term and is not counted, every
    other position adds its term (or raises when its target is no class). *)
Theorem cross_entropy_ignores_minus_one :
  ignore_index = -1 ∧
  (∀ (m : GPT F mat vec) idx tg,
     forward training keep m idx (Some tg) =
     (x ← forward_hidden training keep m idx;
      logits ← linear (lm_head m) x;
      loss ← cross_entropy (concat logits) (concat (ldata tg)) (-1);
      Ok (logits, Some loss))) ∧
  (∀ (rows : mat) (targets : list Z),
     cross_entropy rows targets (-1) =
     (check (length rows =? length targets)%nat
        (ValueError "Expected input batch_size to match target batch_size");;
      spec_loss rows targets)).
Proof.
  split; [done|]. split; [done|].
  intros rows targets. unfold cross_entropy, spec_loss.
  destruct (check _ _) as [[]|e]; simpl; [|done].
  change (-1) with ignore_index. rewrite nll_terms_kept.
  destruct (mapM _ (kept_positions rows targets)) as [ts|e] eqn:Hts; simpl; [|done].
  by rewrite (mapM_Ok_length _ _ _ Hts).
Qed.

(** C8. [GPT.forward] raises an [AssertionError] exactly when the time
    dimension of the input exceeds [context_len], with the message of the
    source; no input with [T <= context_len] is rejected by the check. *)
Theorem forward_context_len_check (m : GPT F mat vec) (idx : LongTensor)
    (targets : option LongTensor) (msg : string) :
  forward training keep m idx targets = Err (AssertionError msg) ↔
  context_len (config m) < Z.of_nat (dim1 idx) ∧
  msg = forward_msg (dim1 idx) (context_len (config m)).
Proof.
  unfold forward, forward_hidden.
  destruct (Z.leb_spec (Z.of_nat (dim1 idx)) (context_len (config m))) as [Hle|Hgt].
  - split; [|lia]. intros Herr. exfalso. revert Herr.
    change (check true ?e ≫= ?g) with (g ()). cbv beta.
    match goal with |- ?r = _ → False => assert (Hna : no_assert r); [|apply Hna] end.
    unfold linear, layer_norm.
    destruct targets;
      repeat first [ apply no_assert_embedding | apply no_assert_run_blocks
                   | apply no_assert_layer_norm_vec | apply no_assert_linear_vec
                   | apply no_assert_cross_entropy | no_assert_step ].
  - simpl. split.
    + intros [= <-]. done.
    + intros [_ ->]. done.
Qed.

(** C4. When every target equals the ignore index, the loss computation of
    [GPT.forward] does not raise: once the logits are computed, the call
    returns them with the loss [0 / 0], the mean over no position (the
    same value for every model and input). *)
Theorem forward_loss_all_ignored (m : GPT F mat vec) (idx tg : LongTensor)
    (x logits : tensor3) :
  forward_hidden training keep m idx = Ok x →
  linear (lm_head m) x = Ok logits →
  length (concat (ldata tg)) = length (concat logits) →
  Forall (Forall (λ t, t = ignore_index)) (ldata tg) →
  forward training keep m idx (Some tg) = Ok (logits, Some (Fdiv Fzero (Fof_Z 0))).
Proof.
  intros Hx Hl Hlen Hign. unfold forward.
  rewrite (bind_Ok _ _ _ Hx), (bind_Ok _ _ _ Hl).
  unfold cross_entropy.
  rewrite bind_check by (by apply Nat.eqb_eq).
  rewrite nll_terms_all_ignored by (by apply Forall_concat).
  done.
Qed.

End BlockAndLoss.

(** An input of shape (1, 3, 2) for the block of the tiny model. *)
Definition block_input : list (list (list ZInf.t)) :=
  [[[Some 1000; Some 2000]; [Some 3000; Some (-1000)]; [Some 0; Some 500]]].

(** C9. [TransformerBlock.forward] is the pre-normalisation residual
    composition [x' = x + Attention(Norm1(x))], then
    [x' + FeedForward(Norm2(x'))]:
    - for every block and input it is the composition of two such
      sub-layers, with errors raised at the same step;
    - on a block with parameters of the declared shapes and an input of
      shape (B, T, C) it returns a tensor of that shape, and entry by entry
      [x'] is the sum of [x] and of the attention of [Norm1(x)], the output
      the sum of [x'] and of the feed-forward of [Norm2(x')], where [Norm1]
      and [Norm2] normalise each feature vector and apply their learned
      scale and shift;
    - it is not the post-normalisation composition [Norm(x + Sub(x))],
      which gives another result on the block of the tiny model. *)
Theorem block_forward_pre_norm :
  (∀ (F : Type) (SF : Scalar F) (training : bool) (keep : drop_site → list nat → bool)
     (blk : TransformerBlock F (list (list F)) (list F)) (l : nat)
     (x : list (list (list F))),
     block_forward training keep blk l x = spec_block training keep blk l x) ∧
  (∀ (F : Type) (SF : Scalar F) (training : bool) (keep : drop_site → list nat → bool)
     (blk : TransformerBlock F (list (list F)) (list F)) (l Bn T C ctx : nat)
     (x : list (list (list F))),
     wf_block C ctx blk → (0 < C)%nat → (T ≤ ctx)%nat → shape3 Bn T C x →
     ∃ n1 a x' n2 f out,
       block_forward training keep blk l x = Ok out ∧
       shape3 Bn T C n1 ∧ is_layer_norm (ln1 blk) x n1 ∧
       mha_forward training keep (multi_head_sa blk) l n1 = Ok a ∧
       shape3 Bn T C x' ∧ is_sum x a x' ∧
       shape3 Bn T C n2 ∧ is_layer_norm (ln2 blk) x' n2 ∧
       ffw_forward training keep (ffw blk) l n2 = Ok f ∧
       shape3 Bn T C out ∧ is_sum x' f out) ∧
  (∃ y y',
     block_forward false ZInf.no_keep (load_block (store ZInf.tiny_heap) ZInf.tiny_block) 0
       block_input = Ok y ∧
     post_norm_block false ZInf.no_keep (load_block (store ZInf.tiny_heap) ZInf.tiny_block) 0
       block_input = Ok y' ∧
     y ≠ y').
Proof.
  split_and!.
  - intros. apply block_forward_spec_block.
  - intros. by eapply block_forward_entries.
  - eexists _, _. split_and!; [vm_compute; reflexivity..|]. discriminate.
Qed.

(** ** Causality

    Two sequences agree up to [n] when they have the same length and the
    same first [n] entries. *)

Definition agree_upto {A} (n : nat) (x x' : list A) : Prop :=
  length x = length x' ∧ take n x = take n x'.

Section AgreeBasics.
Context {A : Type}.




End AgreeBasics.

Section Agree.
Context {A B : Type}.







End Agree.

Section Causality.
Context {F : Type} `{ScalarLaws F}.
Variable training : bool.
Variable keep : drop_site → list nat → bool.
Local Abbreviation vec := (list F).
Local Abbreviation mat := (list (list F)).
Local Abbreviation tensor3 := (list (list (list F))).

























End Causality.

(** ** Facts about the store *)

(** The shape of a stored tensor: a length, or the lengths of the rows. *)
Definition tshape {F} (t : tensor F) : nat + list nat :=
  match t with
  | T1 v => inl (length v)
  | T2 m => inr (length <$> m)
  end.

(** [σ'] holds every tensor of [σ], at the same location and with the
    same shape: what allocation and in-place initialisation guarantee. *)
Definition extends {F} (σ σ' : list (tensor F)) : Prop :=
  (length σ ≤ length σ')%nat ∧
  ∀ p t, σ !! p = Some t → ∃ t', σ' !! p = Some t' ∧ tshape t' = tshape t.

Definition has_vec {F} (σ : list (tensor F)) (p : loc) (n : nat) : Prop :=
  ∃ v, σ !! p = Some (T1 v) ∧ length v = n.

Definition has_mat {F} (σ : list (tensor F)) (p : loc) (r c : nat) : Prop :=
  ∃ m, σ !! p = Some (T2 m) ∧ shape2 r c m.

Definition ok_linear {F} (σ : list (tensor F)) (l : Linear loc loc) : Prop :=
  has_mat σ (lin_weight l) (out_features l) (in_features l) ∧
  ∀ b, lin_bias l = Some b → has_vec σ b (out_features l).

Definition ok_emb {F} (σ : list (tensor F)) (e : Embedding loc) : Prop :=
  has_mat σ (emb_weight e) (num_embeddings e) (embedding_dim e).

Definition ok_ln {F} (σ : list (tensor F)) (n : LayerNorm loc) : Prop :=
  has_vec σ (ln_weight n) (normalized_shape n) ∧
  has_vec σ (ln_bias n) (normalized_shape n).

(** The parameter locations under a module, in registration order. *)
Fixpoint tree_locs (m : module) : list loc :=
  (own_parameters m).*2 ++
  match m with
  | MNode cs => concat ((λ c : string * module, tree_locs c.2) <$> cs)
  | _ => []
  end.

Section StoreFacts.
Context {F : Type}.
Implicit Types (σ : list (tensor F)).

Lemma extends_refl σ : extends σ σ.
Proof. split; [done|]. eauto. Qed.

Lemma extends_trans σ1 σ2 σ3 : extends σ1 σ2 → extends σ2 σ3 → extends σ1 σ3.
Proof.
  intros [Hl1 H1] [Hl2 H2]. split; [lia|].
  intros p t Hp. destruct (H1 p t Hp) as (t' & Hp' & Hs').
  destruct (H2 p t' Hp') as (t'' & Hp'' & Hs''). exists t''. split; [done | congruence].
Qed.

Lemma extends_app σ news : extends σ (σ ++ news).
Proof.
  split; [rewrite length_app; lia|].
  intros p t Hp. exists t. split; [|done]. by apply lookup_app_l_Some.
Qed.

Lemma extends_insert σ p t t' :
  σ !! p = Some t → tshape t' = tshape t → extends σ (<[p := t']> σ).
Proof.
  intros Hp Hs. split; [by rewrite length_insert|].
  intros q u Hq. destruct (decide (p = q)) as [->|Hne].
  - exists t'. rewrite list_lookup_insert_eq by (by eapply lookup_lt_Some).
    split; [done | congruence].
  - exists u. by rewrite list_lookup_insert_ne.
Qed.

Lemma shape2_row_lengths {X Y} r c (m : list (list X)) (m' : list (list Y)) :
  length <$> m' = length <$> m → shape2 r c m → shape2 r c m'.
Proof.
  intros Hl [Hr Hc].
  assert (Hlen : length m' = length m)
    by (rewrite <- (length_fmap length m'), Hl; apply length_fmap).
  apply shape2_intro; [congruence|].
  intros t row Ht.
  assert (Hrow : (length <$> m') !! t = Some (length row))
    by (by rewrite list_lookup_fmap, Ht).
  rewrite Hl, list_lookup_fmap in Hrow.
  destruct (m !! t) as [row'|] eqn:Hm; [|done]. simpl in Hrow. injection Hrow as <-.
  by eapply (Forall_lookup_1 _ _ _ _ Hc Hm).
Qed.

Lemma has_vec_extends σ σ' p n : extends σ σ' → has_vec σ p n → has_vec σ' p n.
Proof.
  intros [_ He] (v & Hp & Hn). destruct (He p _ Hp) as (t' & Hp' & Hs).
  destruct t' as [v'|m']; [|done]. simpl in Hs. exists v'. split; [done | congruence].
Qed.

Lemma has_mat_extends σ σ' p r c : extends σ σ' → has_mat σ p r c → has_mat σ' p r c.
Proof.
  intros [_ He] (m & Hp & Hm). destruct (He p _ Hp) as (t' & Hp' & Hs).
  destruct t' as [v'|m']; [done|]. simpl in Hs. exists m'. split; [done|].
  eapply shape2_row_lengths; [|exact Hm]. congruence.
Qed.

Lemma ok_linear_extends σ σ' l : extends σ σ' → ok_linear σ l → ok_linear σ' l.
Proof.
  intros He [Hw Hb]. split; [by eapply has_mat_extends|].
  intros b Eb. eapply has_vec_extends; eauto.
Qed.

Lemma ok_emb_extends σ σ' e : extends σ σ' → ok_emb σ e → ok_emb σ' e.
Proof. intros He Hw. by eapply has_mat_extends. Qed.

Lemma ok_ln_extends σ σ' n : extends σ σ' → ok_ln σ n → ok_ln σ' n.
Proof. intros He [Hw Hb]. split; by eapply has_vec_extends. Qed.

End StoreFacts.

Section WellFormedTransfer.
Context {F : Type} `{Scalar F}.
Implicit Types (σ : list (tensor F)).

Lemma wf_mha_gen_impl {W B} (okL okL' : Linear W B → Prop) C ctx
    (a : MultiHeadAttention F W B) :
  (∀ l, okL l → okL' l) → wf_mha_gen okL C ctx a → wf_mha_gen okL' C ctx a.
Proof. intros HL (? & ? & ? & ? & ? & ? & ? & ?). repeat split; auto. Qed.

Lemma wf_ffw_gen_impl {W B} (okL okL' : Linear W B → Prop) C (f : Ffw F W B) :
  (∀ l, okL l → okL' l) → wf_ffw_gen okL C f → wf_ffw_gen okL' C f.
Proof. intros HL (? & ? & ? & ? & ?). repeat split; auto. Qed.

Lemma wf_block_gen_impl {W B} (okL okL' : Linear W B → Prop) (okN okN' : LayerNorm B → Prop)
    C ctx (blk : TransformerBlock F W B) :
  (∀ l, okL l → okL' l) → (∀ n, okN n → okN' n) →
  wf_block_gen okL okN C ctx blk → wf_block_gen okL' okN' C ctx blk.
Proof.
  intros HL HN (Hm & Hf & ? & ? & ? & ?).
  split; [by eapply wf_mha_gen_impl|]. split; [by eapply wf_ffw_gen_impl|].
  repeat split; auto.
Qed.

Lemma wf_gpt_gen_impl {W B} (okL okL' : Linear W B → Prop) (okE okE' : Embedding W → Prop)
    (okN okN' : LayerNorm B → Prop) V C ctx (m : GPT F W B) :
  (∀ l, okL l → okL' l) → (∀ e, okE e → okE' e) → (∀ n, okN n → okN' n) →
  wf_gpt_gen okL okE okN V C ctx m → wf_gpt_gen okL' okE' okN' V C ctx m.
Proof.
  intros HL HE HN (? & ? & ? & ? & ? & ? & ? & ? & ? & Hh & ? & ? & ? & ? & ?).
  repeat split; auto.
  eapply Forall_impl; [exact Hh|]. intros blk. by apply wf_block_gen_impl.
Qed.

Lemma read_mat_has σ p r c : has_mat σ p r c → shape2 r c (read_mat σ p).
Proof. intros (m & Hp & Hm). unfold read_mat. by rewrite Hp. Qed.

Lemma read_vec_has σ p n : has_vec σ p n → length (read_vec σ p) = n.
Proof. intros (v & Hp & Hn). unfold read_vec. by rewrite Hp. Qed.

Lemma wf_load_linear σ l : ok_linear σ l → wf_linear (load_linear σ l).
Proof.
  intros [Hw Hb]. split; simpl; [by apply read_mat_has|].
  intros b Eb. destruct (lin_bias l) as [pb|]; [|done]. simpl in Eb. injection Eb as <-.
  by apply read_vec_has, Hb.
Qed.

Lemma wf_load_emb σ e : ok_emb σ e → wf_emb (load_embedding σ e).
Proof. intros Hw. by apply read_mat_has. Qed.

Lemma wf_load_ln σ n : ok_ln σ n → wf_ln (load_layer_norm σ n).
Proof. intros [Hw Hb]. split; simpl; by apply read_vec_has. Qed.

Lemma wf_load_block σ C ctx blk :
  wf_block_gen (ok_linear σ) (ok_ln σ) C ctx blk → wf_block C ctx (load_block σ blk).
Proof.
  intros ((? & ? & ? & ? & ? & ? & ? & ?) & (? & ? & ? & ? & ?) & ? & ? & ? & ?).
  repeat split; simpl; auto using wf_load_linear, wf_load_ln;
    by (apply wf_load_linear || apply wf_load_ln).
Qed.

Lemma wf_load_gpt σ V C ctx m :
  wf_gpt_gen (ok_linear σ) (ok_emb σ) (ok_ln σ) V C ctx m →
  wf_gpt V C ctx (load_gpt σ m).
Proof.
  intros (? & ? & ? & ? & ? & ? & ? & ? & ? & Hh & ? & ? & ? & ? & ?).
  repeat split; simpl; auto using wf_load_linear, wf_load_ln, wf_load_emb;
    try by (apply wf_load_linear || apply wf_load_ln || apply wf_load_emb).
  apply Forall_fmap. eapply Forall_impl; [exact Hh|]. intros blk. apply wf_load_block.
Qed.

Lemma wf_gpt_gen_extends σ σ' V C ctx m :
  extends σ σ' →
  wf_gpt_gen (ok_linear σ) (ok_emb σ) (ok_ln σ) V C ctx m →
  wf_gpt_gen (ok_linear σ') (ok_emb σ') (ok_ln σ') V C ctx m.
Proof.
  intros He. apply wf_gpt_gen_impl; intros ?;
    [by apply ok_linear_extends | by apply ok_emb_extends | by apply ok_ln_extends].
Qed.

Lemma wf_block_gen_extends σ σ' C ctx blk :
  extends σ σ' →
  wf_block_gen (ok_linear σ) (ok_ln σ) C ctx blk →
  wf_block_gen (ok_linear σ') (ok_ln σ') C ctx blk.
Proof.
  intros He. apply wf_block_gen_impl; intros ?;
    [by apply ok_linear_extends | by apply ok_ln_extends].
Qed.

End WellFormedTransfer.

(** ** What the constructors establish *)

(** A constructor that moved the heap from [hp] to [hp'] and returned a
    module with parameter locations [locs]: nothing already stored changed
    shape, and [locs] are exactly the locations allocated, in order. *)
Definition alloc_post {F G} (hp hp' : heap (F:=F) (G:=G)) (locs : list loc) : Prop :=
  extends (store hp) (store hp') ∧
  locs = seq (length (store hp)) (length (store hp') - length (store hp)).

Section ConstructionFacts.
Context {F G : Type} `{Scalar F} `{Sampler G F}.
Implicit Types (hp : heap (F:=F) (G:=G)).

Lemma ctor_bind_inv {A B} (m : ctor A) (f : A → ctor B) hp b hp2 :
  (m ≫= f) hp = Ok (b, hp2) → ∃ a hp1, m hp = Ok (a, hp1) ∧ f a hp1 = Ok (b, hp2).
Proof.
  unfold mbind, ctor_bind. destruct (m hp) as [[a hp1]|e]; [eauto | done].
Qed.

Lemma ctor_bind_Ok {A B} (m : ctor A) (f : A → ctor B) hp a hp1 :
  m hp = Ok (a, hp1) → (m ≫= f) hp = f a hp1.
Proof. unfold mbind, ctor_bind. by intros ->. Qed.

Lemma ctor_ret_inv {A} (a b : A) hp hp' :
  mret (M:=ctor) a hp = Ok (b, hp') → b = a ∧ hp' = hp.
Proof. by intros [= -> ->]. Qed.

Lemma guard_inv (b : bool) e hp u hp' : guard b e hp = Ok (u, hp') → b = true ∧ hp' = hp.
Proof. destruct b; [by intros [= _ ->] | done]. Qed.

Lemma guard_true e hp : guard true e hp = Ok ((), hp).
Proof. done. Qed.

Lemma guard_false e hp : guard false e hp = Err e.
Proof. done. Qed.

Lemma length_fill (draw : G → F * G) n g : length (fill draw n g).1 = n.
Proof.
  revert g. induction n as [|n IH]; intros g; simpl; [done|].
  destruct (draw g) as [x g1]. specialize (IH g1).
  destruct (fill draw n g1) as [xs g2]. simpl in *. by rewrite IH.
Qed.

Lemma lengths_fill_rows (draw : G → F * G) lens g :
  length <$> (fill_rows draw lens g).1 = lens.
Proof.
  revert g. induction lens as [|n lens IH]; intros g; simpl; [done|].
  pose proof (length_fill draw n g) as Hn.
  destruct (fill draw n g) as [r g1]. specialize (IH g1).
  destruct (fill_rows draw lens g1) as [rs g2]. simpl in *.
  rewrite Hn. f_equal. exact IH.
Qed.

Lemma tshape_refill (draw : G → F * G) t g : tshape (refill draw t g).1 = tshape t.
Proof.
  destruct t as [v|m]; simpl.
  - pose proof (length_fill draw (length v) g) as Hn.
    destruct (fill draw (length v) g) as [v' g']. simpl in *. by rewrite Hn.
  - pose proof (lengths_fill_rows draw (length <$> m) g) as Hn.
    destruct (fill_rows draw (length <$> m) g) as [m' g']. simpl in *. by rewrite Hn.
Qed.

Lemma alloc_post_nil hp : alloc_post hp hp [].
Proof. split; [apply extends_refl|]. by rewrite Nat.sub_diag. Qed.

Lemma alloc_post_app hp hp1 hp2 l1 l2 :
  alloc_post hp hp1 l1 → alloc_post hp1 hp2 l2 → alloc_post hp hp2 (l1 ++ l2).
Proof.
  intros [He1 ->] [He2 ->]. split; [by eapply extends_trans|].
  destruct He1 as [Hl1 _], He2 as [Hl2 _].
  replace (length (store hp2) - length (store hp))%nat
    with ((length (store hp1) - length (store hp)) +
          (length (store hp2) - length (store hp1)))%nat by lia.
  rewrite seq_app. do 2 f_equal. lia.
Qed.

Lemma alloc_post_same hp hp' l : hp' = hp → l = [] → alloc_post hp hp' l.
Proof. intros -> ->. apply alloc_post_nil. Qed.

Lemma new_param_post (draw : G → F * G) shape hp p hp' :
  new_param draw shape hp = Ok (p, hp') →
  p = length (store hp) ∧
  ∃ t, store hp' = store hp ++ [t] ∧ tshape t = tshape shape.
Proof.
  unfold new_param. pose proof (tshape_refill draw shape (gen hp)) as Hs.
  destruct (refill draw shape (gen hp)) as [t g]. intros [= <- <-]. simpl. eauto.
Qed.

Lemma new_param_ok (draw : G → F * G) shape hp :
  ∃ p hp', new_param draw shape hp = Ok (p, hp').
Proof. unfold new_param. destruct (refill draw shape (gen hp)) as [t g]. eauto. Qed.

Lemma new_vec_post (draw : G → F * G) n hp p hp' :
  new_param draw (empty_vec n) hp = Ok (p, hp') →
  alloc_post hp hp' [p] ∧ has_vec (store hp') p n.
Proof.
  intros (-> & t & Hst & Hs)%new_param_post. split.
  - split; [rewrite Hst; apply extends_app|].
    rewrite Hst, length_app. simpl.
    by replace (length (store hp) + 1 - length (store hp))%nat with 1%nat by lia.
  - destruct t as [v|m]; [|done]. simpl in Hs. exists v. split.
    + rewrite Hst. by apply list_lookup_middle.
    + injection Hs as ->. apply length_replicate.
Qed.

Lemma new_mat_post (draw : G → F * G) r c hp p hp' :
  new_param draw (empty_mat r c) hp = Ok (p, hp') →
  alloc_post hp hp' [p] ∧ has_mat (store hp') p r c.
Proof.
  intros (-> & t & Hst & Hs)%new_param_post. split.
  - split; [rewrite Hst; apply extends_app|].
    rewrite Hst, length_app. simpl.
    by replace (length (store hp) + 1 - length (store hp))%nat with 1%nat by lia.
  - destruct t as [v|m]; [done|]. simpl in Hs. exists m. split.
    + rewrite Hst. by apply list_lookup_middle.
    + eapply (shape2_row_lengths r c (replicate r (replicate c Fzero))); [congruence|].
      apply shape2_intro; [apply length_replicate|].
      intros t row [-> _]%lookup_replicate. apply length_replicate.
Qed.

(** *** Leaf modules *)

Lemma Linear_init_post inf outf bias hp l hp' :
  Linear_init inf outf bias hp = Ok (l, hp') →
  0 <= inf ∧ 0 <= outf ∧
  in_features l = Z.to_nat inf ∧ out_features l = Z.to_nat outf ∧
  ok_linear (store hp') l ∧ alloc_post hp hp' (tree_locs (MLinear l)).
Proof.
  unfold Linear_init. intros Hi.
  apply ctor_bind_inv in Hi as ([] & hp0 & [Hg ->]%guard_inv & Hi).
  apply andb_true_iff in Hg as [Ho%Z.leb_le Hin%Z.leb_le].
  apply ctor_bind_inv in Hi as (w & hp1 & Hw & Hi).
  apply new_mat_post in Hw as [Hw1 Hw2].
  destruct bias.
  - apply ctor_bind_inv in Hi as (ob & hp2 & Hb & Hi).
    apply ctor_bind_inv in Hb as (b & hp3 & Hb & Hr).
    apply ctor_ret_inv in Hr as [-> ->]. apply ctor_ret_inv in Hi as [-> ->].
    apply new_vec_post in Hb as [Hb1 Hb2].
    split_and!; simpl; try done.
    + split; simpl.
      * eapply has_mat_extends; [apply Hb1 | done].
      * intros b' [= <-]. done.
    + apply (alloc_post_app _ _ _ [w] [b] Hw1 Hb1).
  - apply ctor_bind_inv in Hi as (ob & hp2 & Hb & Hi).
    apply ctor_ret_inv in Hb as [-> ->]. apply ctor_ret_inv in Hi as [-> ->].
    split_and!; simpl; done.
Qed.

Lemma Linear_init_ok inf outf bias hp :
  0 <= inf → 0 <= outf → ∃ l hp', Linear_init inf outf bias hp = Ok (l, hp').
Proof.
  intros Hin Ho. unfold Linear_init.
  replace ((0 <=? outf) && (0 <=? inf)) with true
    by (symmetry; apply andb_true_iff; split; by apply Z.leb_le).
  rewrite (ctor_bind_Ok _ _ _ _ _ (guard_true _ _)).
  destruct (new_param_ok (default1 (LinearWeight (Z.to_nat inf)))
              (empty_mat (Z.to_nat outf) (Z.to_nat inf)) hp) as (w & hp1 & Hw).
  rewrite (ctor_bind_Ok _ _ _ _ _ Hw).
  destruct bias.
  - destruct (new_param_ok (default1 (LinearBias (Z.to_nat inf)))
                (empty_vec (Z.to_nat outf)) hp1) as (b & hp2 & Hb).
    erewrite ctor_bind_Ok; [|by erewrite ctor_bind_Ok by exact Hb]. eauto.
  - erewrite ctor_bind_Ok by done. eauto.
Qed.

Lemma Embedding_init_post num dim hp e hp' :
  Embedding_init num dim hp = Ok (e, hp') →
  0 <= num ∧ 0 <= dim ∧
  num_embeddings e = Z.to_nat num ∧ embedding_dim e = Z.to_nat dim ∧
  ok_emb (store hp') e ∧ alloc_post hp hp' [emb_weight e].
Proof.
  unfold Embedding_init. intros Hi.
  apply ctor_bind_inv in Hi as ([] & hp0 & [Hg ->]%guard_inv & Hi).
  apply andb_true_iff in Hg as [Hn%Z.leb_le Hd%Z.leb_le].
  apply ctor_bind_inv in Hi as (w & hp1 & Hw & Hi).
  apply new_mat_post in Hw as [Hw1 Hw2].
  apply ctor_ret_inv in Hi as [-> ->]. split_and!; simpl; done.
Qed.

Lemma Embedding_init_ok num dim hp :
  0 <= num → 0 <= dim → ∃ e hp', Embedding_init num dim hp = Ok (e, hp').
Proof.
  intros Hn Hd. unfold Embedding_init.
  replace ((0 <=? num) && (0 <=? dim)) with true
    by (symmetry; apply andb_true_iff; split; by apply Z.leb_le).
  rewrite (ctor_bind_Ok _ _ _ _ _ (guard_true _ _)).
  destruct (new_param_ok (default1 EmbeddingWeight)
              (empty_mat (Z.to_nat num) (Z.to_nat dim)) hp) as (w & hp1 & Hw).
  rewrite (ctor_bind_Ok _ _ _ _ _ Hw). eauto.
Qed.

Lemma LayerNorm_init_post n hp ln hp' :
  LayerNorm_init n hp = Ok (ln, hp') →
  0 <= n ∧ normalized_shape ln = Z.to_nat n ∧
  ok_ln (store hp') ln ∧ alloc_post hp hp' (tree_locs (MLayerNorm ln)).
Proof.
  unfold LayerNorm_init. intros Hi.
  apply ctor_bind_inv in Hi as ([] & hp0 & [Hg%Z.leb_le ->]%guard_inv & Hi).
  apply ctor_bind_inv in Hi as (w & hp1 & Hw & Hi).
  apply ctor_bind_inv in Hi as (b & hp2 & Hb & Hi).
  apply new_vec_post in Hw as [Hw1 Hw2]. apply new_vec_post in Hb as [Hb1 Hb2].
  apply ctor_ret_inv in Hi as [-> ->]. split_and!; simpl; try done.
  - split; simpl; [|done]. eapply has_vec_extends; [apply Hb1 | done].
  - apply (alloc_post_app _ _ _ [w] [b] Hw1 Hb1).
Qed.

Lemma LayerNorm_init_ok n hp :
  0 <= n → ∃ ln hp', LayerNorm_init n hp = Ok (ln, hp').
Proof.
  intros Hn. unfold LayerNorm_init.
  rewrite (proj2 (Z.leb_le _ _) Hn), (ctor_bind_Ok _ _ _ _ _ (guard_true _ _)).
  destruct (new_param_ok (const_draw Fone) (empty_vec (Z.to_nat n)) hp) as (w & hp1 & Hw).
  rewrite (ctor_bind_Ok _ _ _ _ _ Hw).
  destruct (new_param_ok (const_draw Fzero) (empty_vec (Z.to_nat n)) hp1) as (b & hp2 & Hb).
  rewrite (ctor_bind_Ok _ _ _ _ _ Hb). eauto.
Qed.

(** [nn.Dropout] accepts [p] unless [p < 0] or [p > 1]. *)
Definition dropout_ok (p : F) : Prop := Flt p Fzero = false ∧ Flt Fone p = false.

Lemma Dropout_init_post p hp d hp' :
  Dropout_init p hp = Ok (d, hp') → dropout_ok p ∧ d = {| drop_p := p |} ∧ hp' = hp.
Proof.
  unfold Dropout_init. intros Hi.
  apply ctor_bind_inv in Hi as ([] & hp0 & [Hg ->]%guard_inv & Hi).
  apply ctor_ret_inv in Hi as [-> ->].
  apply negb_true_iff, orb_false_iff in Hg. done.
Qed.

Lemma Dropout_init_ok p hp :
  dropout_ok p → Dropout_init p hp = Ok ({| drop_p := p |}, hp).
Proof. intros [H1 H2]. unfold Dropout_init. by rewrite H1, H2. Qed.

(** *** Composite modules *)

Lemma tree_locs_mha (a : MultiHeadAttention F loc loc) :
  tree_locs (mha_tree a) = tree_locs (MLinear (qkv a)) ++ tree_locs (MLinear (mha_proj a)).
Proof. unfold mha_tree. simpl. by rewrite !app_nil_r. Qed.

Lemma tree_locs_ffw (f : Ffw F loc loc) :
  tree_locs (ffw_tree f) = tree_locs (MLinear (c_fc f)) ++ tree_locs (MLinear (ffw_proj f)).
Proof. unfold ffw_tree. simpl. by rewrite !app_nil_r. Qed.

Lemma tree_locs_block (b : TransformerBlock F loc loc) :
  tree_locs (block_tree b) =
  tree_locs (mha_tree (multi_head_sa b)) ++ tree_locs (ffw_tree (ffw b)) ++
  tree_locs (MLayerNorm (ln1 b)) ++ tree_locs (MLayerNorm (ln2 b)).
Proof. unfold block_tree. cbn [tree_locs own_parameters fmap list_fmap concat snd]. by rewrite !app_nil_r. Qed.

Lemma head_split (nh C : Z) :
  0 < nh → 0 <= C → C `mod` nh = 0 →
  (Z.to_nat nh * Z.to_nat (C `div` nh))%nat = Z.to_nat C.
Proof.
  intros Hnh HC Hmod.
  rewrite <- Z2Nat.inj_mul by (try apply Z.div_pos; lia).
  f_equal. symmetry. apply Z.div_exact; [lia | done].
Qed.

Lemma MultiHeadAttention_init_post c hp a hp' :
  0 < n_head c → MultiHeadAttention_init c hp = Ok (a, hp') →
  n_embd c `mod` n_head c = 0 ∧ 0 <= n_embd c ∧ 0 <= context_len c ∧
  dropout_ok (dropout c) ∧
  wf_mha_gen (ok_linear (store hp')) (Z.to_nat (n_embd c)) (Z.to_nat (context_len c)) a ∧
  alloc_post hp hp' (tree_locs (mha_tree a)).
Proof.
  intros Hnh Hi. unfold MultiHeadAttention_init in Hi.
  apply ctor_bind_inv in Hi as ([] & hp0 & [_ ->]%guard_inv & Hi).
  apply ctor_bind_inv in Hi as ([] & hp0 & [Hmod%Z.eqb_eq ->]%guard_inv & Hi).
  apply ctor_bind_inv in Hi as (q & hp1 & Hq & Hi).
  apply ctor_bind_inv in Hi as (p & hp2 & Hp & Hi).
  apply ctor_bind_inv in Hi as (d & hp3 & Hd & Hi).
  apply ctor_bind_inv in Hi as ([] & hp4 & [Hctx%Z.leb_le ->]%guard_inv & Hi).
  apply ctor_ret_inv in Hi as [-> ->].
  apply Linear_init_post in Hq as (HC & _ & Hqi & Hqo & Hqok & Hqa).
  apply Linear_init_post in Hp as (_ & _ & Hpi & Hpo & Hpok & Hpa).
  apply Dropout_init_post in Hd as (Hdok & -> & ->).
  split_and!; try done.
  - unfold wf_mha_gen. simpl. split_and!; try done.
    + eapply ok_linear_extends; [apply Hpa | done].
    + rewrite Hqo. rewrite Z2Nat.inj_mul by lia. done.
    + by apply head_split.
  - rewrite tree_locs_mha. cbn [qkv mha_proj]. by eapply alloc_post_app.
Qed.

Lemma MultiHeadAttention_init_ok c hp :
  0 < n_head c → n_embd c `mod` n_head c = 0 → 0 <= n_embd c →
  0 <= context_len c → dropout_ok (dropout c) →
  ∃ a hp', MultiHeadAttention_init c hp = Ok (a, hp').
Proof.
  intros Hnh Hmod HC Hctx Hd. unfold MultiHeadAttention_init.
  replace (negb (n_head c =? 0)) with true
    by (symmetry; apply negb_true_iff, Z.eqb_neq; lia).
  rewrite (ctor_bind_Ok _ _ _ _ _ (guard_true _ _)).
  rewrite (proj2 (Z.eqb_eq _ _) Hmod), (ctor_bind_Ok _ _ _ _ _ (guard_true _ _)).
  destruct (Linear_init_ok (n_embd c) (3 * n_embd c) (a_bias c) hp) as (q & hp1 & Hq); [lia..|].
  rewrite (ctor_bind_Ok _ _ _ _ _ Hq).
  destruct (Linear_init_ok (n_embd c) (n_embd c) (a_bias c) hp1) as (p & hp2 & Hp); [lia..|].
  rewrite (ctor_bind_Ok _ _ _ _ _ Hp).
  rewrite (ctor_bind_Ok _ _ _ _ _ (Dropout_init_ok _ _ Hd)).
  rewrite (proj2 (Z.leb_le _ _) Hctx), (ctor_bind_Ok _ _ _ _ _ (guard_true _ _)).
  eauto.
Qed.

Lemma Ffw_init_post c hp f hp' :
  Ffw_init c hp = Ok (f, hp') →
  0 <= n_embd c ∧ 0 <= n_embd c * ffw_widen c ∧ dropout_ok (dropout c) ∧
  wf_ffw_gen (ok_linear (store hp')) (Z.to_nat (n_embd c)) f ∧
  alloc_post hp hp' (tree_locs (ffw_tree f)).
Proof.
  intros Hi. unfold Ffw_init in Hi.
  apply ctor_bind_inv in Hi as (fc & hp1 & Hfc & Hi).
  apply ctor_bind_inv in Hi as (p & hp2 & Hp & Hi).
  apply ctor_bind_inv in Hi as (d & hp3 & Hd & Hi).
  apply ctor_ret_inv in Hi as [-> ->].
  apply Linear_init_post in Hfc as (HC & Hw & Hfi & Hfo & Hfok & Hfa).
  apply Linear_init_post in Hp as (_ & _ & Hpi & Hpo & Hpok & Hpa).
  apply Dropout_init_post in Hd as (Hdok & -> & ->).
  split_and!; try done.
  - unfold wf_ffw_gen. simpl. split_and!; try done; [|congruence].
    eapply ok_linear_extends; [apply Hpa | done].
  - rewrite tree_locs_ffw. cbn [c_fc ffw_proj]. by eapply alloc_post_app.
Qed.

Lemma Ffw_init_ok c hp :
  0 <= n_embd c → 0 <= n_embd c * ffw_widen c → dropout_ok (dropout c) →
  ∃ f hp', Ffw_init c hp = Ok (f, hp').
Proof.
  intros HC Hw Hd. unfold Ffw_init.
  destruct (Linear_init_ok (n_embd c) (n_embd c * ffw_widen c) (ffw_bias c) hp)
    as (fc & hp1 & Hfc); [lia..|].
  rewrite (ctor_bind_Ok _ _ _ _ _ Hfc).
  destruct (Linear_init_ok (n_embd c * ffw_widen c) (n_embd c) (ffw_bias c) hp1)
    as (p & hp2 & Hp); [lia..|].
  rewrite (ctor_bind_Ok _ _ _ _ _ Hp).
  rewrite (ctor_bind_Ok _ _ _ _ _ (Dropout_init_ok _ _ Hd)). eauto.
Qed.

(** What [GPT.__init__] needs beyond its own assertions for the layers to
    be constructible. *)
Definition layers_constructible (c : GPTconfig F) : Prop :=
  n_embd c `mod` n_head c = 0 ∧ 0 <= n_embd c ∧ 0 <= context_len c ∧
  0 <= n_embd c * ffw_widen c ∧ dropout_ok (dropout c).

Lemma TransformerBlock_init_post c hp b hp' :
  0 < n_head c → TransformerBlock_init c hp = Ok (b, hp') →
  layers_constructible c ∧
  wf_block_gen (ok_linear (store hp')) (ok_ln (store hp'))
    (Z.to_nat (n_embd c)) (Z.to_nat (context_len c)) b ∧
  alloc_post hp hp' (tree_locs (block_tree b)).
Proof.
  intros Hnh Hi. unfold TransformerBlock_init in Hi.
  apply ctor_bind_inv in Hi as (a & hp1 & Ha & Hi).
  apply ctor_bind_inv in Hi as (f & hp2 & Hf & Hi).
  apply ctor_bind_inv in Hi as (n1 & hp3 & Hn1 & Hi).
  apply ctor_bind_inv in Hi as (n2 & hp4 & Hn2 & Hi).
  apply ctor_ret_inv in Hi as [-> ->].
  apply MultiHeadAttention_init_post in Ha as (Hmod & HC & Hctx & Hd & Haok & Haa); [|done].
  apply Ffw_init_post in Hf as (_ & Hw & _ & Hfok & Hfa).
  apply LayerNorm_init_post in Hn1 as (_ & Hn1s & Hn1ok & Hn1a).
  apply LayerNorm_init_post in Hn2 as (_ & Hn2s & Hn2ok & Hn2a).
  assert (He23 : extends (store hp2) (store hp3)) by apply Hn1a.
  assert (He34 : extends (store hp3) (store hp4)) by apply Hn2a.
  assert (He12 : extends (store hp1) (store hp2)) by apply Hfa.
  split; [done|]. split.
  - unfold wf_block_gen. simpl. split_and!; try done.
    + eapply wf_mha_gen_impl; [|exact Haok]. intros l.
      apply ok_linear_extends. eauto using extends_trans.
    + eapply wf_ffw_gen_impl; [|exact Hfok]. intros l.
      apply ok_linear_extends. eauto using extends_trans.
    + by eapply ok_ln_extends.
  - rewrite tree_locs_block. cbn [multi_head_sa ffw ln1 ln2].
    eapply alloc_post_app; [exact Haa|]. eapply alloc_post_app; [exact Hfa|].
    eapply alloc_post_app; [exact Hn1a | exact Hn2a].
Qed.

Lemma TransformerBlock_init_ok c hp :
  0 < n_head c → layers_constructible c →
  ∃ b hp', TransformerBlock_init c hp = Ok (b, hp').
Proof.
  intros Hnh (Hmod & HC & Hctx & Hw & Hd). unfold TransformerBlock_init.
  destruct (MultiHeadAttention_init_ok c hp) as (a & hp1 & Ha); [done..|].
  rewrite (ctor_bind_Ok _ _ _ _ _ Ha).
  destruct (Ffw_init_ok c hp1) as (f & hp2 & Hf); [done..|].
  rewrite (ctor_bind_Ok _ _ _ _ _ Hf).
  destruct (LayerNorm_init_ok (n_embd c) hp2) as (n1 & hp3 & Hn1); [done|].
  rewrite (ctor_bind_Ok _ _ _ _ _ Hn1).
  destruct (LayerNorm_init_ok (n_embd c) hp3) as (n2 & hp4 & Hn2); [done|].
  rewrite (ctor_bind_Ok _ _ _ _ _ Hn2). eauto.
Qed.

Lemma blocks_init_post c n hp bs hp' :
  0 < n_head c → blocks_init c n hp = Ok (bs, hp') →
  length bs = n ∧ (n ≠ 0%nat → layers_constructible c) ∧
  Forall (wf_block_gen (ok_linear (store hp')) (ok_ln (store hp'))
            (Z.to_nat (n_embd c)) (Z.to_nat (context_len c))) bs ∧
  alloc_post hp hp' (concat ((λ b, tree_locs (block_tree b)) <$> bs)).
Proof.
  intros Hnh. revert hp bs hp'. induction n as [|n IH]; intros hp bs hp' Hi; simpl in Hi.
  - apply ctor_ret_inv in Hi as [-> ->]. split_and!; try done. apply alloc_post_nil.
  - apply ctor_bind_inv in Hi as (b & hp1 & Hb & Hi).
    apply ctor_bind_inv in Hi as (bs' & hp2 & Hbs & Hi).
    apply ctor_ret_inv in Hi as [-> ->].
    apply TransformerBlock_init_post in Hb as (Hlc & Hbok & Hba); [|done].
    apply IH in Hbs as (Hlen & _ & Hbsok & Hbsa).
    split_and!;
      [ simpl; by rewrite Hlen | done |
      | rewrite fmap_cons; cbn [concat]; by eapply alloc_post_app ].
    constructor; [|done].
    eapply wf_block_gen_extends; [apply Hbsa | done].
Qed.

Lemma blocks_init_ok c n hp :
  0 < n_head c → layers_constructible c → ∃ bs hp', blocks_init c n hp = Ok (bs, hp').
Proof.
  intros Hnh Hlc. revert hp. induction n as [|n IH]; intros hp; simpl; [eauto|].
  destruct (TransformerBlock_init_ok c hp) as (b & hp1 & Hb); [done..|].
  rewrite (ctor_bind_Ok _ _ _ _ _ Hb).
  destruct (IH hp1) as (bs & hp2 & Hbs).
  rewrite (ctor_bind_Ok _ _ _ _ _ Hbs). eauto.
Qed.

(** *** In-place initialisation keeps every shape *)

Definition same_shapes hp hp' : Prop :=
  extends (store hp) (store hp') ∧ length (store hp') = length (store hp).

Lemma same_shapes_refl hp : same_shapes hp hp.
Proof. split; [apply extends_refl | done]. Qed.

Lemma same_shapes_trans hp1 hp2 hp3 :
  same_shapes hp1 hp2 → same_shapes hp2 hp3 → same_shapes hp1 hp3.
Proof. intros [He1 Hl1] [He2 Hl2]. split; [by eapply extends_trans | congruence]. Qed.

Lemma fill__post (draw : G → F * G) p hp :
  ∃ hp', fill_ draw p hp = Ok ((), hp') ∧ same_shapes hp hp' ∧
    (∀ t, store hp !! p = Some t → ∃ g, store hp' !! p = Some (refill draw t g).1) ∧
    (∀ q, q ≠ p → store hp' !! q = store hp !! q).
Proof.
  unfold fill_. destruct (store hp !! p) as [t|] eqn:Hp.
  - pose proof (tshape_refill draw t (gen hp)) as Hs.
    destruct (refill draw t (gen hp)) as [t' g'] eqn:Hr. eexists. split; [done|].
    simpl. split_and!.
    + split; simpl; [by eapply extends_insert | apply length_insert].
    + intros t0 [= <-]. exists (gen hp). rewrite Hr. simpl.
      apply list_lookup_insert_eq. by eapply lookup_lt_Some.
    + intros q Hq. by apply list_lookup_insert_ne.
  - eexists. split; [done|]. split_and!; [apply same_shapes_refl | done | done].
Qed.

Lemma for_each_app {A} (f : A → ctor unit) (l k : list A) hp :
  for_each f (l ++ k) hp = (for_each f l;; for_each f k) hp.
Proof.
  revert hp. induction l as [|a l IH]; intros hp; simpl; [done|].
  unfold mbind, ctor_bind in *. destruct (f a hp) as [[[] hp1]|e]; [apply IH | done].
Qed.

Lemma for_each_same_shapes {A} (f : A → ctor unit) (l : list A) hp :
  (∀ a hp, ∃ hp', f a hp = Ok ((), hp') ∧ same_shapes hp hp') →
  ∃ hp', for_each f l hp = Ok ((), hp') ∧ same_shapes hp hp'.
Proof.
  intros Hf. revert hp. induction l as [|a l IH]; intros hp; simpl.
  - eexists. split; [done | apply same_shapes_refl].
  - destruct (Hf a hp) as (hp1 & Ha & Hs1). destruct (IH hp1) as (hp2 & Hl & Hs2).
    exists hp2. rewrite (ctor_bind_Ok _ _ _ _ _ Ha). split; [done|].
    by eapply same_shapes_trans.
Qed.

Lemma rescale_proj_post (c : GPTconfig F) np hp :
  0 < n_layer c →
  ∃ hp', rescale_proj c np hp = Ok ((), hp') ∧ same_shapes hp hp'.
Proof.
  intros Hn. unfold rescale_proj. destruct (endswith np.1 "proj.weight").
  - rewrite (proj2 (Z.leb_le 0 (2 * n_layer c))) by lia.
    rewrite (ctor_bind_Ok _ _ _ _ _ (guard_true _ _)).
    replace (negb (2 * n_layer c =? 0)) with true
      by (symmetry; apply negb_true_iff, Z.eqb_neq; lia).
    rewrite (ctor_bind_Ok _ _ _ _ _ (guard_true _ _)).
    destruct (fill__post (normal1 Fzero (proj_std c)) np.2 hp) as (hp' & Hf & Hs & _).
    eauto.
  - eexists. split; [done | apply same_shapes_refl].
Qed.

Lemma _init_weights_post (m : GPT F loc loc) md hp :
  0 < n_layer (config m) →
  ∃ hp', _init_weights m md hp = Ok ((), hp') ∧ same_shapes hp hp'.
Proof.
  intros Hn. unfold _init_weights.
  assert (Hfirst : ∃ hp1,
    (match md with
     | MLinear l =>
         normal_ (lin_weight l) Fzero init_std;;
         match lin_bias l with Some b => zeros_ b | None => mret () end
     | MEmbedding e => normal_ (emb_weight e) Fzero init_std
     | _ => mret ()
     end) hp = Ok ((), hp1) ∧ same_shapes hp hp1).
  { destruct md as [l|e|n| |cs]; try (eexists; split; [done | apply same_shapes_refl]).
    - destruct (fill__post (normal1 Fzero init_std) (lin_weight l) hp) as (hp1 & Hf & Hs & _).
      unfold normal_. rewrite (ctor_bind_Ok _ _ _ _ _ Hf).
      destruct (lin_bias l) as [b|].
      + destruct (fill__post (const_draw Fzero) b hp1) as (hp2 & Hf2 & Hs2 & _).
        exists hp2. split; [done | by eapply same_shapes_trans].
      + eauto.
    - destruct (fill__post (normal1 Fzero init_std) (emb_weight e) hp) as (hp1 & Hf & Hs & _).
      eauto. }
  destruct Hfirst as (hp1 & H1 & Hs1). rewrite (ctor_bind_Ok _ _ _ _ _ H1).
  destruct (for_each_same_shapes (rescale_proj (config m)) (named_parameters m) hp1)
    as (hp2 & H2 & Hs2); [intros; by apply rescale_proj_post|].
  exists hp2. split; [done | by eapply same_shapes_trans].
Qed.

Lemma apply_init_weights_post (m : GPT F loc loc) hp :
  0 < n_layer (config m) →
  ∃ hp', apply_init_weights m hp = Ok ((), hp') ∧ same_shapes hp hp'.
Proof.
  intros Hn. apply for_each_same_shapes. intros md hp0. by apply _init_weights_post.
Qed.

(** *** GPT.__init__ *)

Lemma tree_locs_node (cs : list (string * module)) :
  tree_locs (MNode cs) = concat ((λ c : string * module, tree_locs c.2) <$> cs).
Proof. done. Qed.

Lemma tree_locs_blocks (bs : list (TransformerBlock F loc loc)) :
  tree_locs (MNode (imap (λ i b, (pretty i, block_tree b)) bs)) =
  concat ((λ b, tree_locs (block_tree b)) <$> bs).
Proof. rewrite tree_locs_node. f_equal. rewrite fmap_imap. apply imap_const. Qed.

Lemma tree_locs_gpt (m : GPT F loc loc) :
  tree_locs (gpt_tree m) =
  emb_weight (wte m) :: emb_weight (wpe m) ::
  concat ((λ b, tree_locs (block_tree b)) <$> h m) ++
  tree_locs (MLayerNorm (ln_f m)) ++ tree_locs (MLinear (lm_head m)).
Proof.
  unfold gpt_tree. rewrite tree_locs_node, !fmap_cons, fmap_nil. cbn [snd concat].
  rewrite tree_locs_node, !fmap_cons, fmap_nil. cbn [snd concat].
  rewrite tree_locs_blocks.
  change (tree_locs (MEmbedding (wte m))) with [emb_weight (wte m)].
  change (tree_locs (MEmbedding (wpe m))) with [emb_weight (wpe m)].
  change (tree_locs MLeaf) with (@nil loc).
  rewrite !app_nil_r, <- !app_assoc. done.
Qed.

(** The heap right after the layers are built (before [_init_weights]),
    and what [GPT.__init__] establishes. *)
Lemma GPT_init_post c init_weights hp m hp' :
  GPT_init (PyConfig c) init_weights hp = Ok (m, hp') →
  0 < n_head c ∧ 0 < n_layer c ∧ 0 < vocab_size c ∧ layers_constructible c ∧
  config m = c ∧ length (h m) = Z.to_nat (n_layer c) ∧
  wf_gpt_gen (ok_linear (store hp')) (ok_emb (store hp')) (ok_ln (store hp'))
    (Z.to_nat (vocab_size c)) (Z.to_nat (n_embd c)) (Z.to_nat (context_len c)) m ∧
  emb_weight (wte m) = lin_weight (lm_head m) ∧
  ∃ hpc,
    (if init_weights then apply_init_weights m hpc = Ok ((), hp') else hp' = hpc) ∧
    same_shapes hpc hp' ∧
    extends (store hp) (store hpc) ∧
    (length (store hp) < length (store hpc))%nat ∧
    tree_locs (gpt_tree m) =
      lin_weight (lm_head m) ::
      seq (S (length (store hp))) (length (store hpc) - S (length (store hp))) ∧
    lin_weight (lm_head m) ∈
      seq (S (length (store hp))) (length (store hpc) - S (length (store hp))).
Proof.
  intros Hi. unfold GPT_init in Hi.
  apply ctor_bind_inv in Hi as ([] & ? & [Hnh%Z.ltb_lt ->]%guard_inv & Hi).
  apply ctor_bind_inv in Hi as ([] & ? & [Hnl%Z.ltb_lt ->]%guard_inv & Hi).
  apply ctor_bind_inv in Hi as ([] & ? & [Hv%Z.ltb_lt ->]%guard_inv & Hi).
  apply ctor_bind_inv in Hi as (e & hp1 & He & Hi).
  apply ctor_bind_inv in Hi as (pe & hp2 & Hpe & Hi).
  apply ctor_bind_inv in Hi as (d & hp3 & Hd & Hi).
  apply ctor_bind_inv in Hi as (bs & hp4 & Hbs & Hi).
  apply ctor_bind_inv in Hi as (lnf & hp5 & Hlnf & Hi).
  apply ctor_bind_inv in Hi as (lm & hpc & Hlm & Hi).
  apply ctor_bind_inv in Hi as ([] & hpf & Hinit & Hi).
  apply ctor_ret_inv in Hi as [-> ->].
  apply Embedding_init_post in He as (_ & HC & Hen & Hed & Heok & Hea).
  apply Embedding_init_post in Hpe as (Hctx & _ & Hpn & Hpd & Hpok & Hpa).
  apply Dropout_init_post in Hd as (Hdok & -> & ->).
  apply blocks_init_post in Hbs as (Hblen & Hlc & Hbsok & Hbsa); [|done].
  apply LayerNorm_init_post in Hlnf as (_ & Hlns & Hlnok & Hlna).
  apply Linear_init_post in Hlm as (_ & _ & Hlmi & Hlmo & Hlmok & Hlma).
  assert (Hlc' : layers_constructible c) by (apply Hlc; lia).
  set (m := {| config := c; wte := _; wpe := pe; drop_ := _; h := bs;
               ln_f := lnf; lm_head := lm |}) in *.
  assert (Hshapes : same_shapes hpc hpf).
  { destruct init_weights.
    - destruct (apply_init_weights_post m hpc Hnl) as (hp' & Hap & Hs). congruence.
    - apply ctor_ret_inv in Hinit as [_ ->]. apply same_shapes_refl. }
  assert (E45 : extends (store hp4) (store hp5)) by apply Hlna.
  assert (E5c : extends (store hp5) (store hpc)) by apply Hlma.
  assert (E24 : extends (store hp2) (store hp4)) by apply Hbsa.
  assert (E12 : extends (store hp1) (store hp2)) by apply Hpa.
  assert (E01 : extends (store hp) (store hp1)) by apply Hea.
  assert (E4c : extends (store hp4) (store hpc)) by (by eapply extends_trans).
  assert (E2c : extends (store hp2) (store hpc)) by (by eapply extends_trans).
  assert (Hrest : alloc_post hp1 hpc
            ([emb_weight pe] ++ concat ((λ b, tree_locs (block_tree b)) <$> bs) ++
             tree_locs (MLayerNorm lnf) ++ tree_locs (MLinear lm))).
  { eapply alloc_post_app; [exact Hpa|]. eapply alloc_post_app; [exact Hbsa|].
    eapply alloc_post_app; [exact Hlna | exact Hlma]. }
  destruct Hea as [_ Hea]. destruct Hrest as [E1c Hrest].
  assert (Hlen1 : length (store hp1) = S (length (store hp))).
  { apply (f_equal length) in Hea. rewrite length_seq in Hea. simpl in Hea.
    destruct E01. lia. }
  split_and!; try done.
  - (* shapes in the final store *)
    eapply wf_gpt_gen_extends; [apply Hshapes|].
    unfold wf_gpt_gen. subst m. simpl. split_and!; try done; try lia.
    + destruct Hlmok as [Hw _]. unfold ok_emb. simpl. rewrite Hen, Hed, <- Hlmo, <- Hlmi. done.
    + exact (ok_emb_extends _ _ _ E2c Hpok).
    + eapply Forall_impl; [exact Hbsok|]. intros blk. by apply wf_block_gen_extends.
    + exact (ok_ln_extends _ _ _ E5c Hlnok).
  - exists hpc. split_and!; try done.
    + destruct init_weights; [done|]. by apply ctor_ret_inv in Hinit as [_ ->].
    + by eapply extends_trans.
    + destruct E1c. lia.
    + rewrite tree_locs_gpt. subst m. simpl. f_equal.
      rewrite <- Hlen1. exact Hrest.
    + rewrite <- Hlen1, <- Hrest.
      apply elem_of_app. right. apply elem_of_app. right.
      apply elem_of_app. right. simpl. left.
Qed.

Lemma ctor_bind_Err {A B} (m : ctor A) (f : A → ctor B) hp e :
  m hp = Err e → (m ≫= f) hp = Err e.
Proof. unfold mbind, ctor_bind. by intros ->. Qed.

(** The conditions under which [GPT.__init__] returns a model. *)
Definition constructible (c : GPTconfig F) : Prop :=
  0 < n_head c ∧ 0 < n_layer c ∧ 0 < vocab_size c ∧ layers_constructible c.

Lemma GPT_init_ok c init_weights hp :
  constructible c → ∃ m hp', GPT_init (PyConfig c) init_weights hp = Ok (m, hp').
Proof.
  intros (Hnh & Hnl & Hv & Hlc). pose proof Hlc as (Hmod & HC & Hctx & Hw & Hd).
  unfold GPT_init.
  rewrite (proj2 (Z.ltb_lt _ _) Hnh), (ctor_bind_Ok _ _ _ _ _ (guard_true _ _)).
  rewrite (proj2 (Z.ltb_lt _ _) Hnl), (ctor_bind_Ok _ _ _ _ _ (guard_true _ _)).
  rewrite (proj2 (Z.ltb_lt _ _) Hv), (ctor_bind_Ok _ _ _ _ _ (guard_true _ _)).
  destruct (Embedding_init_ok (vocab_size c) (n_embd c) hp) as (e & hp1 & He); [lia..|].
  rewrite (ctor_bind_Ok _ _ _ _ _ He).
  destruct (Embedding_init_ok (context_len c) (n_embd c) hp1) as (pe & hp2 & Hpe); [lia..|].
  rewrite (ctor_bind_Ok _ _ _ _ _ Hpe).
  rewrite (ctor_bind_Ok _ _ _ _ _ (Dropout_init_ok _ _ Hd)).
  destruct (blocks_init_ok c (Z.to_nat (n_layer c)) hp2) as (bs & hp3 & Hbs); [done..|].
  rewrite (ctor_bind_Ok _ _ _ _ _ Hbs).
  destruct (LayerNorm_init_ok (n_embd c) hp3) as (lnf & hp4 & Hlnf); [done|].
  rewrite (ctor_bind_Ok _ _ _ _ _ Hlnf).
  destruct (Linear_init_ok (n_embd c) (vocab_size c) (lm_head_bias c) hp4)
    as (lm & hp5 & Hlm); [lia..|].
  rewrite (ctor_bind_Ok _ _ _ _ _ Hlm).
  cbv zeta. destruct init_weights.
  - match goal with |- context [apply_init_weights ?m] =>
      destruct (apply_init_weights_post m hp5 Hnl) as (hp6 & Hap & _) end.
    rewrite (ctor_bind_Ok _ _ _ _ _ Hap). eauto.
  - eauto.
Qed.

(** When the head count does not divide the embedding width, the first
    block's attention layer raises its assertion. *)
Lemma GPT_init_ratio c init_weights hp :
  0 < n_head c → 0 < n_layer c → 0 < vocab_size c →
  0 <= n_embd c → 0 <= context_len c → dropout_ok (dropout c) →
  n_embd c `mod` n_head c ≠ 0 →
  GPT_init (PyConfig c) init_weights hp =
  Err (AssertionError "Ratio n_embd / n_head must have no remainder.").
Proof.
  intros Hnh Hnl Hv HC Hctx Hd Hmod. unfold GPT_init.
  rewrite (proj2 (Z.ltb_lt _ _) Hnh), (ctor_bind_Ok _ _ _ _ _ (guard_true _ _)).
  rewrite (proj2 (Z.ltb_lt _ _) Hnl), (ctor_bind_Ok _ _ _ _ _ (guard_true _ _)).
  rewrite (proj2 (Z.ltb_lt _ _) Hv), (ctor_bind_Ok _ _ _ _ _ (guard_true _ _)).
  destruct (Embedding_init_ok (vocab_size c) (n_embd c) hp) as (e & hp1 & He); [lia..|].
  rewrite (ctor_bind_Ok _ _ _ _ _ He).
  destruct (Embedding_init_ok (context_len c) (n_embd c) hp1) as (pe & hp2 & Hpe); [lia..|].
  rewrite (ctor_bind_Ok _ _ _ _ _ Hpe).
  rewrite (ctor_bind_Ok _ _ _ _ _ (Dropout_init_ok _ _ Hd)).
  apply ctor_bind_Err.
  destruct (Z.to_nat (n_layer c)) as [|n] eqn:Hn; [lia|]. simpl.
  apply ctor_bind_Err. unfold TransformerBlock_init. apply ctor_bind_Err.
  unfold MultiHeadAttention_init.
  replace (negb (n_head c =? 0)) with true
    by (symmetry; apply negb_true_iff, Z.eqb_neq; lia).
  rewrite (ctor_bind_Ok _ _ _ _ _ (guard_true _ _)).
  rewrite (proj2 (Z.eqb_neq _ _) Hmod). done.
Qed.

End ConstructionFacts.

(** ** Construction, weight tying and the shapes of [forward] *)

(** The configuration invariant as the specification lists it. *)
Definition spec_valid_config {F} (c : GPTconfig F) : Prop :=
  0 < n_head c ∧ 0 < n_layer c ∧ 0 < vocab_size c ∧ n_embd c `mod` n_head c = 0.

(** What can happen to a model after construction: the initialiser is
    applied again, [forward] is called, or a parameter is overwritten in
    place (an optimizer step, [tensor.copy_]). *)
Inductive model_op (F : Type) :=
  | OpInitWeights
  | OpForward (training : bool) (keep : drop_site → list nat → bool)
      (idx : LongTensor) (targets : option LongTensor)
  | OpWrite (p : loc) (t : tensor F).
Arguments OpInitWeights {F}.
Arguments OpForward {F} training keep idx targets.
Arguments OpWrite {F} p t.

Section ModelClaims.
Context {F G : Type} `{Scalar F} `{Sampler G F}.
Implicit Types (hp : heap (F:=F) (G:=G)).

(** The heap after one operation on the model [m]; the object graph
    itself is never rebuilt. *)
Definition exec_op (m : GPT F loc loc) (op : model_op F) hp : heap (F:=F) (G:=G) :=
  match op with
  | OpInitWeights =>
      match apply_init_weights m hp with
      | Ok (_, hp') => hp'
      | Err _ => hp
      end
  | OpForward _ _ _ _ => hp
  | OpWrite p t => {| store := <[p := t]> (store hp); gen := gen hp |}
  end.

Definition run_ops (m : GPT F loc loc) (ops : list (model_op F)) hp : heap (F:=F) (G:=G) :=
  foldl (λ hp op, exec_op m op hp) hp ops.

Lemma exec_op_length (m : GPT F loc loc) op hp :
  0 < n_layer (config m) → length (store (exec_op m op hp)) = length (store hp).
Proof.
  intros Hn. destruct op as [| |p t]; simpl; [|done|apply length_insert].
  destruct (apply_init_weights_post m hp Hn) as (hp' & -> & _ & Hl). done.
Qed.

Lemma run_ops_length (m : GPT F loc loc) ops hp :
  0 < n_layer (config m) → length (store (run_ops m ops hp)) = length (store hp).
Proof.
  intros Hn. unfold run_ops. revert hp.
  induction ops as [|op ops IH]; intros hp; simpl; [done|].
  rewrite IH. by apply exec_op_length.
Qed.

(** C7 (amended). [GPT.__init__] returns a model exactly for a
    [GPTconfig] with positive head, layer and vocabulary counts and a width
    divisible by the head count whose tensors can be created: non-negative
    width, context length and feed-forward width, and a dropout
    probability that [nn.Dropout] accepts.  A wrong type and non-positive
    counts raise the assertions of [GPT.__init__], an indivisible width the
    assertion of [MultiHeadAttention.__init__]. *)
Theorem GPT_init_fails_fast (cfg : pyobj F) (init_weights : bool) hp :
  (is_Ok (GPT_init cfg init_weights hp) ↔ ∃ c, cfg = PyConfig c ∧ constructible c) ∧
  (cfg = PyOther →
     GPT_init cfg init_weights hp = Err (AssertionError "Invalid config type.")) ∧
  (∀ c, cfg = PyConfig c →
     (n_head c <= 0 →
        GPT_init cfg init_weights hp = Err (AssertionError "n_head must be positive.")) ∧
     (0 < n_head c → n_layer c <= 0 →
        GPT_init cfg init_weights hp = Err (AssertionError "n_layer must be positive.")) ∧
     (0 < n_head c → 0 < n_layer c → vocab_size c <= 0 →
        GPT_init cfg init_weights hp = Err (AssertionError "vocab_size must be positive.")) ∧
     (0 < n_head c → 0 < n_layer c → 0 < vocab_size c →
      0 <= n_embd c → 0 <= context_len c → dropout_ok (dropout c) →
      n_embd c `mod` n_head c ≠ 0 →
        GPT_init cfg init_weights hp =
        Err (AssertionError "Ratio n_embd / n_head must have no remainder."))).
Proof.
  split_and!.
  - split.
    + intros [[m hp'] Hi]. destruct cfg as [c|]; [|done]. exists c. split; [done|].
      apply GPT_init_post in Hi as (? & ? & ? & ? & _). done.
    + intros (c & -> & Hc). destruct (GPT_init_ok c init_weights hp Hc) as (m & hp' & Hi).
      by exists (m, hp').
  - by intros ->.
  - intros c ->. split_and!.
    + intros Hnh. unfold GPT_init. by rewrite (proj2 (Z.ltb_ge _ _) Hnh).
    + intros Hnh Hnl. unfold GPT_init.
      rewrite (proj2 (Z.ltb_lt _ _) Hnh), (ctor_bind_Ok _ _ _ _ _ (guard_true _ _)).
      by rewrite (proj2 (Z.ltb_ge _ _) Hnl).
    + intros Hnh Hnl Hv. unfold GPT_init.
      rewrite (proj2 (Z.ltb_lt _ _) Hnh), (ctor_bind_Ok _ _ _ _ _ (guard_true _ _)).
      rewrite (proj2 (Z.ltb_lt _ _) Hnl), (ctor_bind_Ok _ _ _ _ _ (guard_true _ _)).
      by rewrite (proj2 (Z.ltb_ge _ _) Hv).
    + apply GPT_init_ratio.
Qed.

(** C3. In every constructed model the token embedding and the output
    projection hold the same parameter location; it stays allocated under
    every later operation (re-initialisation, [forward], in-place writes),
    both modules always read the same tensor, and a tensor written through
    either one is read through the other. *)
Theorem weight_tying (c : GPTconfig F) (init_weights : bool) hp m hp' :
  GPT_init (PyConfig c) init_weights hp = Ok (m, hp') →
  emb_weight (wte m) = lin_weight (lm_head m) ∧
  ∀ ops, let σ := store (run_ops m ops hp') in
    (emb_weight (wte m) < length σ)%nat ∧
    emb_weight (wte (load_gpt σ m)) = lin_weight (lm_head (load_gpt σ m)) ∧
    ∀ w, lin_weight (lm_head (load_gpt (<[emb_weight (wte m) := T2 w]> σ) m)) = w ∧
         emb_weight (wte (load_gpt (<[lin_weight (lm_head m) := T2 w]> σ) m)) = w.
Proof.
  intros Hi.
  apply GPT_init_post in Hi
    as (_ & Hnl & _ & _ & Hcfg & _ & _ & Htie & hpc & _ & [_ Hlen] & _ & Hlt & _ & Hin).
  split; [done|]. intros ops σ.
  assert (Halloc : (lin_weight (lm_head m) < length σ)%nat).
  { subst σ. rewrite run_ops_length by (by rewrite Hcfg). rewrite Hlen.
    apply elem_of_seq in Hin. lia. }
  split_and!.
  - by rewrite Htie.
  - simpl. by rewrite Htie.
  - intros w. simpl. unfold read_mat. rewrite Htie.
    by rewrite list_lookup_insert_eq.
Qed.

Lemma GPT_init_wf (c : GPTconfig F) (init_weights : bool) hp m hp' σ :
  GPT_init (PyConfig c) init_weights hp = Ok (m, hp') → extends (store hp') σ →
  wf_gpt (Z.to_nat (vocab_size c)) (Z.to_nat (n_embd c)) (Z.to_nat (context_len c))
    (load_gpt σ m).
Proof.
  intros Hi He.
  apply GPT_init_post in Hi as (_ & _ & _ & _ & _ & _ & Hwf & _).
  apply wf_load_gpt. by eapply wf_gpt_gen_extends.
Qed.

(** C1 (amended). For a constructed model with positive embedding width,
    whatever values its parameters have taken since, and a batch of shape
    (B, T) with [T <= context_len] and tokens in [0, vocab_size):
    with targets of the same shape (class indices or the ignore index)
    [forward] returns logits of shape (B, T, vocab_size) and a loss; without
    targets, and for [T >= 1], it returns logits of shape (B, 1, vocab_size)
    and no loss. *)
Theorem forward_shapes (c : GPTconfig F) (init_weights : bool) hp m hp'
    (σ : list (tensor F)) (training : bool) (keep : drop_site → list nat → bool)
    (idx : LongTensor) :
  GPT_init (PyConfig c) init_weights hp = Ok (m, hp') → extends (store hp') σ →
  0 < n_embd c → wf_long idx → Z.of_nat (dim1 idx) <= context_len c →
  tokens_in_range (Z.to_nat (vocab_size c)) idx →
  (∀ tg, wf_long tg → dim0 tg = dim0 idx → dim1 tg = dim1 idx →
     targets_valid (Z.to_nat (vocab_size c)) tg →
     ∃ logits loss,
       GPT_forward training keep m σ idx (Some tg) = Ok (logits, Some loss) ∧
       shape3 (dim0 idx) (dim1 idx) (Z.to_nat (vocab_size c)) logits) ∧
  ((0 < dim1 idx)%nat →
     ∃ logits,
       GPT_forward training keep m σ idx None = Ok (logits, None) ∧
       shape3 (dim0 idx) 1 (Z.to_nat (vocab_size c)) logits).
Proof.
  intros Hi He HC Hidx HT Htok.
  pose proof (GPT_init_wf _ _ _ _ _ _ Hi He) as Hwf.
  split.
  - intros tg Htg HB HTt Hval. unfold GPT_forward.
    eapply forward_train_ok; try done; lia.
  - intros HT0. unfold GPT_forward.
    eapply forward_eval_ok; try done; lia.
Qed.



End ModelClaims.

(** ** Named parameters and the parameter count *)

Lemma module_induction (P : module → Prop) :
  (∀ l, P (MLinear l)) → (∀ e, P (MEmbedding e)) → (∀ n, P (MLayerNorm n)) →
  P MLeaf → (∀ cs, Forall (λ c : string * module, P c.2) cs → P (MNode cs)) →
  ∀ m, P m.
Proof.
  intros HL HE HN Hleaf Hnode. fix IH 1.
  intros [l|e|n| |cs]; [apply HL | apply HE | apply HN | apply Hleaf |].
  apply Hnode. induction cs as [|[name c] cs IHcs]; constructor; [apply IH | exact IHcs].
Qed.

Lemma named_parameters_all_locs (prefix : string) (m : module) :
  (named_parameters_all prefix m).*2 = tree_locs m.
Proof.
  revert prefix. induction m as [l|e|n| |cs IH] using module_induction; intros prefix;
    cbn [named_parameters_all tree_locs]; rewrite fmap_app, <- list_fmap_compose;
    try (f_equal; done).
  f_equal. clear -IH. revert prefix.
  induction IH as [|[name c] cs Hc _ IHcs]; intros prefix; [done|].
  rewrite !fmap_cons. cbn [concat]. rewrite fmap_app. f_equal; [apply Hc | apply IHcs].
Qed.

Section RemoveDuplicate.
Implicit Types (seen : list loc) (ps : list (string * loc)).

Lemma elem_of_remove_duplicate seen ps p :
  p ∈ (remove_duplicate seen ps).*2 ↔ p ∈ ps.*2 ∧ p ∉ seen.
Proof.
  revert seen. induction ps as [|[n q] ps IH]; intros seen; simpl.
  - rewrite elem_of_nil. tauto.
  - destruct (decide (q ∈ seen)) as [Hq|Hq]; simpl.
    + rewrite IH, elem_of_cons. split; [tauto|]. intros [[->|?] ?]; [done | tauto].
    + rewrite !elem_of_cons, IH, elem_of_cons. split.
      * intros [->|[? ?]]; [tauto|]. tauto.
      * intros [[->|?] ?]; [tauto|]. destruct (decide (p = q)); [tauto|]. right. tauto.
Qed.

Lemma NoDup_remove_duplicate seen ps : NoDup (remove_duplicate seen ps).*2.
Proof.
  revert seen. induction ps as [|[n q] ps IH]; intros seen; simpl; [constructor|].
  destruct (decide (q ∈ seen)) as [Hq|Hq]; simpl; [apply IH|].
  constructor; [|apply IH].
  rewrite elem_of_remove_duplicate, elem_of_cons. tauto.
Qed.

(** A parameter that occurs under one name only, and was not seen before,
    is yielded under that name. *)
Lemma remove_duplicate_keeps seen ps n p :
  (n, p) ∈ ps → p ∉ seen → (∀ n', (n', p) ∈ ps → n' = n) →
  (n, p) ∈ remove_duplicate seen ps.
Proof.
  revert seen. induction ps as [|[n0 p0] ps IH]; intros seen Hin Hseen Huniq.
  - by apply elem_of_nil in Hin.
  - simpl. destruct (decide (p0 = p)) as [->|Hne].
    + rewrite (Huniq n0) by left. rewrite decide_False by done. left.
    + apply elem_of_cons in Hin as [[= <- <-]|Hin]; [done|].
      assert (Hin' : (n, p) ∈ remove_duplicate (p0 :: seen) ps ∧
                     (n, p) ∈ remove_duplicate seen ps).
      { split; apply IH; try done.
        - rewrite elem_of_cons. intros [?|?]; [congruence | done].
        - intros n' Hn'. apply Huniq. by right.
        - intros n' Hn'. apply Huniq. by right. }
      destruct (decide (p0 ∈ seen)); [apply Hin' | right; apply Hin'].
Qed.

End RemoveDuplicate.

Section ParameterCount.
Context {F : Type} `{Scalar F}.

(** The specification's wording: the distinct parameter tensors of the
    model, and the total parameter count in which each of them is counted
    exactly once. *)
Definition distinct_parameters (m : GPT F loc loc) : gset loc :=
  list_to_set (tree_locs (gpt_tree m)).

Definition total_parameter_count (m : GPT F loc loc) (σ : list (tensor F)) : Z :=
  Z.of_nat (sum_list_with (numel_at σ) (elements (distinct_parameters m))).

Lemma parameters_NoDup (m : GPT F loc loc) : NoDup (parameters m).
Proof. apply NoDup_remove_duplicate. Qed.

Lemma elem_of_parameters (m : GPT F loc loc) p :
  p ∈ parameters m ↔ p ∈ tree_locs (gpt_tree m).
Proof.
  unfold parameters, named_parameters.
  rewrite elem_of_remove_duplicate, named_parameters_all_locs, elem_of_nil. tauto.
Qed.

Lemma parameters_distinct (m : GPT F loc loc) :
  parameters m ≡ₚ elements (distinct_parameters m).
Proof.
  apply NoDup_Permutation; [apply parameters_NoDup | apply NoDup_elements |].
  intros p. rewrite elem_of_parameters, elem_of_elements.
  unfold distinct_parameters. by rewrite elem_of_list_to_set.
Qed.

Lemma sum_list_fmap_with {X} (f : X → nat) (l : list X) :
  sum_list (f <$> l) = sum_list_with f l.
Proof. induction l as [|x l IH]; simpl; [done | by f_equal]. Qed.

(** C5. [get_num_params(non_embedding=True)] is the total parameter count,
    each distinct tensor (so the tied token-embedding / output-projection
    tensor too) counted exactly once, minus exactly the element count of the
    position-embedding weight; both tensors are among the ones counted. *)
Theorem get_num_params_non_embedding (m : GPT F loc loc) (σ : list (tensor F)) :
  get_num_params m σ true =
    total_parameter_count m σ - Z.of_nat (numel_at σ (emb_weight (wpe m))) ∧
  get_num_params m σ false = total_parameter_count m σ ∧
  NoDup (parameters m) ∧
  emb_weight (wte m) ∈ parameters m ∧ lin_weight (lm_head m) ∈ parameters m ∧
  emb_weight (wpe m) ∈ parameters m.
Proof.
  assert (Hsum : Z.of_nat (sum_list (numel_at σ <$> parameters m)) =
                 total_parameter_count m σ).
  { unfold total_parameter_count. rewrite sum_list_fmap_with.
    by rewrite (parameters_distinct m). }
  unfold get_num_params. rewrite Hsum. split_and!; try done.
  - apply parameters_NoDup.
  - rewrite elem_of_parameters, tree_locs_gpt. left.
  - rewrite elem_of_parameters, tree_locs_gpt.
    do 2 right. apply elem_of_app. right. apply elem_of_app. right. left.
  - rewrite elem_of_parameters, tree_locs_gpt. right. left.
Qed.

End ParameterCount.

(** ** The rescaled initialisation of the projection weights *)

Lemma string_app_cons x (a b : string) : String x a +:+ b = String x (a +:+ b).
Proof. done. Qed.

Lemma string_app_assoc (a b c : string) : (a +:+ b) +:+ c = a +:+ (b +:+ c).
Proof. induction a as [|x a IH]; [done|]. rewrite !string_app_cons. by f_equal. Qed.

Lemma endswith_refl (s : string) : endswith s s = true.
Proof. destruct s; simpl; [done|]. by rewrite Ascii.eqb_refl, String.eqb_refl. Qed.

Lemma endswith_app (p s : string) : endswith (p +:+ s) s = true.
Proof.
  induction p as [|x p IH]; [apply endswith_refl|].
  rewrite string_app_cons. cbn [endswith].
  destruct (String.eqb _ _); [done | apply IH].
Qed.

Lemma join_name_nonempty (prefix name : string) : name ≠ "" → join_name prefix name ≠ "".
Proof.
  intros Hn. unfold join_name. destruct (decide (prefix = "")) as [|Hp]; [done|].
  destruct prefix; [done|]. by rewrite string_app_cons.
Qed.

(** The qualified name of the weight of a layer registered as [proj]. *)
Lemma endswith_proj_weight (prefix : string) :
  endswith (join_name (join_name prefix "proj") "weight") "proj.weight" = true.
Proof.
  unfold join_name at 1. rewrite decide_False by (by apply join_name_nonempty).
  unfold join_name. destruct (decide (prefix = "")) as [->|Hp]; [done|].
  replace ((prefix +:+ "." +:+ "proj") +:+ "." +:+ "weight")
    with ((prefix +:+ ".") +:+ "proj.weight") by (by rewrite !string_app_assoc).
  apply endswith_app.
Qed.

Lemma elem_of_concat {X} (x : X) (ls : list (list X)) :
  x ∈ concat ls ↔ ∃ l, l ∈ ls ∧ x ∈ l.
Proof.
  induction ls as [|l ls IH]; simpl.
  - rewrite elem_of_nil. split; [done|]. intros (l & Hl & _). by apply elem_of_nil in Hl.
  - rewrite elem_of_app, IH. split.
    + intros [Hx|(l' & Hl' & Hx)]; [exists l; split; [left | done]|].
      exists l'. split; [by right | done].
    + intros (l' & [->|Hl']%elem_of_cons & Hx); [by left | right; eauto].
Qed.

(** A parameter of a child is a parameter of its container, under the
    child's qualified name. *)
Lemma named_in_node (prefix cname : string) (cs : list (string * module)) child e :
  (cname, child) ∈ cs →
  e ∈ named_parameters_all (join_name prefix cname) child →
  e ∈ named_parameters_all prefix (MNode cs).
Proof.
  intros Hc He. cbn [named_parameters_all own_parameters]. rewrite fmap_nil, app_nil_l.
  apply elem_of_concat. eexists. split; [|exact He].
  by apply (list_elem_of_fmap_2
    (λ c : string * module, named_parameters_all (join_name prefix c.1) c.2) _ (cname, child)).
Qed.

Lemma named_linear_weight (prefix : string) (l : Linear loc loc) :
  (join_name prefix "weight", lin_weight l) ∈ named_parameters_all prefix (MLinear l).
Proof. cbn [named_parameters_all own_parameters]. rewrite app_nil_r, fmap_cons. left. Qed.

Lemma NoDup_snd_unique {X} (l : list (X * loc)) n n' p :
  NoDup l.*2 → (n, p) ∈ l → (n', p) ∈ l → n' = n.
Proof.
  intros Hnd [i Hi]%list_elem_of_lookup [j Hj]%list_elem_of_lookup.
  assert (Hi2 : l.*2 !! i = Some p) by (by rewrite list_lookup_fmap, Hi).
  assert (Hj2 : l.*2 !! j = Some p) by (by rewrite list_lookup_fmap, Hj).
  pose proof (NoDup_lookup _ _ _ _ Hnd Hi2 Hj2) as ->. congruence.
Qed.

(** ** What the constructors fix beyond the shapes *)

(** A linear layer has a bias exactly when it was asked for. *)
Definition bias_is (bias : bool) (l : Linear loc loc) : Prop :=
  if bias then is_Some (lin_bias l) else lin_bias l = None.

(** What the constructor fixes of a block beyond the shapes [wf_block_gen]
    records: which layers have a bias, and the hidden width. *)
Definition block_dims {F} (c : GPTconfig F) (b : TransformerBlock F loc loc) : Prop :=
  bias_is (a_bias c) (qkv (multi_head_sa b)) ∧
  bias_is (a_bias c) (mha_proj (multi_head_sa b)) ∧
  bias_is (ffw_bias c) (c_fc (ffw b)) ∧
  bias_is (ffw_bias c) (ffw_proj (ffw b)) ∧
  out_features (c_fc (ffw b)) = Z.to_nat (n_embd c * ffw_widen c).

Section BlockDims.
Context {F G : Type} `{Scalar F} `{Sampler G F}.
Implicit Types (hp : heap (F:=F) (G:=G)).

Lemma Linear_init_bias inf outf bias hp l hp' :
  Linear_init inf outf bias hp = Ok (l, hp') → bias_is bias l.
Proof.
  unfold Linear_init. intros Hi.
  apply ctor_bind_inv in Hi as ([] & hp0 & _ & Hi).
  apply ctor_bind_inv in Hi as (w & hp1 & Hw & Hi).
  apply ctor_bind_inv in Hi as (ob & hp2 & Hb & Hi).
  apply ctor_ret_inv in Hi as [-> ->]. destruct bias; simpl.
  - apply ctor_bind_inv in Hb as (b & hp3 & Hb & Hr).
    apply ctor_ret_inv in Hr as [-> ->]. eauto.
  - by apply ctor_ret_inv in Hb as [-> ->].
Qed.

Lemma TransformerBlock_init_dims c hp b hp' :
  TransformerBlock_init c hp = Ok (b, hp') → block_dims c b.
Proof.
  unfold TransformerBlock_init. intros Hi.
  apply ctor_bind_inv in Hi as (a & hp1 & Ha & Hi).
  apply ctor_bind_inv in Hi as (f & hp2 & Hf & Hi).
  apply ctor_bind_inv in Hi as (n1 & hp3 & Hn1 & Hi).
  apply ctor_bind_inv in Hi as (n2 & hp4 & Hn2 & Hi).
  apply ctor_ret_inv in Hi as [-> ->].
  unfold MultiHeadAttention_init in Ha.
  apply ctor_bind_inv in Ha as ([] & ? & _ & Ha).
  apply ctor_bind_inv in Ha as ([] & ? & _ & Ha).
  apply ctor_bind_inv in Ha as (q & ? & Hq & Ha).
  apply ctor_bind_inv in Ha as (p & ? & Hp & Ha).
  apply ctor_bind_inv in Ha as (d & ? & _ & Ha).
  apply ctor_bind_inv in Ha as ([] & ? & _ & Ha).
  apply ctor_ret_inv in Ha as [-> _].
  unfold Ffw_init in Hf.
  apply ctor_bind_inv in Hf as (fc & ? & Hfc & Hf).
  apply ctor_bind_inv in Hf as (fp & ? & Hfp & Hf).
  apply ctor_bind_inv in Hf as (fd & ? & _ & Hf).
  apply ctor_ret_inv in Hf as [-> _].
  unfold block_dims. simpl. split_and!; try by eapply Linear_init_bias.
  by apply Linear_init_post in Hfc as (_ & _ & _ & ? & _).
Qed.

Lemma blocks_init_dims c n hp bs hp' :
  blocks_init c n hp = Ok (bs, hp') → Forall (block_dims c) bs.
Proof.
  revert hp bs hp'. induction n as [|n IH]; intros hp bs hp' Hi; simpl in Hi.
  - by apply ctor_ret_inv in Hi as [-> _].
  - apply ctor_bind_inv in Hi as (b & hp1 & Hb & Hi).
    apply ctor_bind_inv in Hi as (bs' & hp2 & Hbs & Hi).
    apply ctor_ret_inv in Hi as [-> _].
    constructor; [by eapply TransformerBlock_init_dims|by eapply IH].
Qed.

Lemma GPT_init_dims c init_weights hp m hp' :
  GPT_init (PyConfig c) init_weights hp = Ok (m, hp') →
  Forall (block_dims c) (h m) ∧ bias_is (lm_head_bias c) (lm_head m).
Proof.
  intros Hi. unfold GPT_init in Hi.
  apply ctor_bind_inv in Hi as ([] & ? & _ & Hi).
  apply ctor_bind_inv in Hi as ([] & ? & _ & Hi).
  apply ctor_bind_inv in Hi as ([] & ? & _ & Hi).
  apply ctor_bind_inv in Hi as (e & hp1 & He & Hi).
  apply ctor_bind_inv in Hi as (pe & hp2 & Hpe & Hi).
  apply ctor_bind_inv in Hi as (d & hp3 & Hd & Hi).
  apply ctor_bind_inv in Hi as (bs & hp4 & Hbs & Hi).
  apply ctor_bind_inv in Hi as (lnf & hp5 & Hlnf & Hi).
  apply ctor_bind_inv in Hi as (lm & hpc & Hlm & Hi).
  apply ctor_bind_inv in Hi as ([] & hpf & Hinit & Hi).
  apply ctor_ret_inv in Hi as [-> _]. simpl.
  split; [by eapply blocks_init_dims|by eapply Linear_init_bias].
Qed.

End BlockDims.

Section ProjInit.
Context {F G : Type} `{Scalar F} `{Sampler G F}.
Implicit Types (hp : heap (F:=F) (G:=G)).

(** The state of the generator after [k] draws, and the [n] values drawn
    one after the other from the state [g]. *)
Fixpoint gen_after (draw : G → F * G) (k : nat) (g : G) : G :=
  match k with
  | O => g
  | S k => gen_after draw k (draw g).2
  end.

Definition draws (draw : G → F * G) (n : nat) (g : G) : list F :=
  (λ k, (draw (gen_after draw k g)).1) <$> seq 0 n.

(** The elements of a tensor in row-major order. *)
Definition flatten (t : tensor F) : list F :=
  match t with
  | T1 v => v
  | T2 m => concat m
  end.

(** The tensor is what [torch.nn.init.normal_(_, mean, std)] leaves: read
    in row-major order, its elements are successive draws from that
    distribution, one for each element, from some state of the
    generator. *)
Definition drawn_normal (mean std : F) (t : tensor F) : Prop :=
  ∃ g : G, flatten t = draws (normal1 mean std) (numel t) g.

Lemma draws_S (draw : G → F * G) n g :
  draws draw (S n) g = (draw g).1 :: draws draw n (draw g).2.
Proof.
  unfold draws. rewrite <- cons_seq, fmap_cons, <- fmap_S_seq, <- list_fmap_compose. done.
Qed.

Lemma length_draws (draw : G → F * G) n g : length (draws draw n g) = n.
Proof. unfold draws. by rewrite length_fmap, length_seq. Qed.

Lemma gen_after_add (draw : G → F * G) n k g :
  gen_after draw (n + k) g = gen_after draw k (gen_after draw n g).
Proof. revert g. induction n as [|n IH]; intros g; [done|]. simpl. apply IH. Qed.

Lemma draws_add (draw : G → F * G) n k g :
  draws draw (n + k) g = draws draw n g ++ draws draw k (gen_after draw n g).
Proof.
  revert g. induction n as [|n IH]; intros g; [done|].
  change (S n + k)%nat with (S (n + k)). rewrite !draws_S, IH. done.
Qed.

(** [fill] makes exactly these draws, and leaves the generator after
    them. *)
Lemma fill_draws (draw : G → F * G) n g :
  fill draw n g = (draws draw n g, gen_after draw n g).
Proof.
  revert g. induction n as [|n IH]; intros g; [done|].
  cbn [fill gen_after]. rewrite draws_S. destruct (draw g) as [x g1] eqn:Hd.
  rewrite IH. done.
Qed.

Lemma fill_rows_draws (draw : G → F * G) lens g :
  concat (fill_rows draw lens g).1 = draws draw (sum_list lens) g ∧
  (fill_rows draw lens g).2 = gen_after draw (sum_list lens) g ∧
  length <$> (fill_rows draw lens g).1 = lens.
Proof.
  revert g. induction lens as [|n lens IH]; intros g; [done|].
  cbn [fill_rows sum_list sum_list_with]. rewrite fill_draws.
  destruct (IH (gen_after draw n g)) as (Hc & Hg & Hl).
  destruct (fill_rows draw lens (gen_after draw n g)) as [rs g2]. cbn [fst snd] in *.
  rewrite fmap_cons. cbn [concat].
  rewrite draws_add, gen_after_add, Hc, Hg, Hl, length_draws. done.
Qed.

Lemma length_concat_sum {X} (m : list (list X)) :
  length (concat m) = sum_list (length <$> m).
Proof. induction m as [|r m IH]; [done|]. simpl. by rewrite length_app, IH. Qed.

(** An in-place fill by [normal_] leaves such a tensor. *)
Lemma refill_drawn_normal (mean std : F) (t : tensor F) (g : G) :
  drawn_normal mean std (refill (normal1 mean std) t g).1.
Proof.
  exists g. destruct t as [v|m]; unfold refill.
  - rewrite fill_draws. simpl. by rewrite length_draws.
  - destruct (fill_rows_draws (normal1 mean std) (length <$> m) g) as (Hc & _ & Hl).
    destruct (fill_rows _ _ g) as [m' g']. simpl in *.
    by rewrite Hc, length_draws.
Qed.

Lemma proj_entries (m : GPT F loc loc) (blk : TransformerBlock F loc loc) :
  blk ∈ h m →
  ∃ n1 n2,
    (n1, lin_weight (mha_proj (multi_head_sa blk))) ∈ named_parameters_all "" (gpt_tree m) ∧
    endswith n1 "proj.weight" = true ∧
    (n2, lin_weight (ffw_proj (ffw blk))) ∈ named_parameters_all "" (gpt_tree m) ∧
    endswith n2 "proj.weight" = true.
Proof.
  intros [i Hi]%list_elem_of_lookup.
  set (P2 := join_name (join_name (join_name "" "transformer") "h") (pretty i)).
  exists (join_name (join_name (join_name P2 "multi_head_sa") "proj") "weight"),
         (join_name (join_name (join_name P2 "ffw") "proj") "weight").
  assert (Hblock : ∀ e, e ∈ named_parameters_all P2 (block_tree blk) →
                        e ∈ named_parameters_all "" (gpt_tree m)).
  { intros e He. unfold gpt_tree.
    eapply (named_in_node "" "transformer"); [left|].
    eapply (named_in_node _ "h"); [do 3 right; left|].
    eapply (named_in_node _ (pretty i) _ (block_tree blk)); [|exact He].
    by apply (elem_of_lookup_imap_2 (λ i b, (pretty i, block_tree b)) (h m) blk i). }
  split_and!; try apply endswith_proj_weight.
  - apply Hblock. unfold block_tree.
    eapply (named_in_node _ "multi_head_sa"); [left|]. unfold mha_tree.
    eapply (named_in_node _ "proj"); [right; left|]. apply named_linear_weight.
  - apply Hblock. unfold block_tree.
    eapply (named_in_node _ "ffw"); [right; left|]. unfold ffw_tree.
    eapply (named_in_node _ "proj"); [do 2 right; left|]. apply named_linear_weight.
Qed.

Lemma named_head (m : GPT F loc loc) :
  ∃ rest, named_parameters_all "" (gpt_tree m) =
          ("transformer.wte.weight", emb_weight (wte m)) :: rest.
Proof. unfold gpt_tree. cbn [named_parameters_all own_parameters fmap list_fmap concat app]. eauto. Qed.

Lemma named_lm_head (m : GPT F loc loc) :
  ("lm_head.weight", lin_weight (lm_head m)) ∈ named_parameters_all "" (gpt_tree m).
Proof.
  unfold gpt_tree. eapply (named_in_node "" "lm_head"); [right; left|].
  apply (named_linear_weight (join_name "" "lm_head")).
Qed.

(** In a constructed model each projection weight is yielded by
    [named_parameters] under a name that ends in [proj.weight]. *)
Lemma proj_named (c : GPTconfig F) (init_weights : bool) hp m hp' blk p :
  GPT_init (PyConfig c) init_weights hp = Ok (m, hp') → blk ∈ h m →
  p = lin_weight (mha_proj (multi_head_sa blk)) ∨ p = lin_weight (ffw_proj (ffw blk)) →
  ∃ n, (n, p) ∈ named_parameters m ∧ endswith n "proj.weight" = true.
Proof.
  intros Hi Hblk Hp.
  apply GPT_init_post in Hi
    as (_ & _ & _ & _ & _ & _ & _ & Htie & hpc & _ & _ & _ & _ & Hlocs & _).
  destruct (proj_entries m blk Hblk) as (n1 & n2 & Hn1 & He1 & Hn2 & He2).
  assert (Hn : ∃ n, (n, p) ∈ named_parameters_all "" (gpt_tree m) ∧
                    endswith n "proj.weight" = true)
    by (destruct Hp as [->| ->]; eauto).
  clear Hn1 He1 Hn2 He2. destruct Hn as (n & Hn & He).
  exists n. split; [|done].
  destruct (named_head m) as (rest & Hraw).
  pose proof (named_parameters_all_locs "" (gpt_tree m)) as Hsnd.
  rewrite Hlocs, Hraw, fmap_cons in Hsnd. injection Hsnd as _ Hrest.
  assert (Hnd : NoDup rest.*2) by (rewrite Hrest; apply NoDup_seq).
  pose proof (named_lm_head m) as Hlm. rewrite Hraw in Hlm, Hn.
  apply elem_of_cons in Hlm as [[=]|Hlm].
  apply elem_of_cons in Hn as [[= -> _]|Hn]; [done|].
  unfold named_parameters. rewrite Hraw.
  apply remove_duplicate_keeps; [by right | apply not_elem_of_nil |].
  intros n' [[= -> Hp']|Hn']%elem_of_cons.
  - (* the tied tensor is the output projection's, not a block's *)
    rewrite Htie in Hp'. subst p.
    by rewrite (NoDup_snd_unique rest _ _ _ Hnd Hlm Hn) in He.
  - by eapply NoDup_snd_unique.
Qed.

(** The loop over [named_parameters]: every allocated parameter whose name
    ends in [proj.weight] is left with draws of the rescaled distribution. *)
Lemma rescale_loop (c : GPTconfig F) (nps : list (string * loc)) hp hp' p :
  for_each (rescale_proj c) nps hp = Ok ((), hp') →
  (p < length (store hp))%nat →
  (∃ t, store hp !! p = Some t ∧ drawn_normal Fzero (proj_std c) t) ∨
  (∃ n, (n, p) ∈ nps ∧ endswith n "proj.weight" = true) →
  ∃ t, store hp' !! p = Some t ∧ drawn_normal Fzero (proj_std c) t.
Proof.
  revert hp. induction nps as [|[n0 q] nps IH]; intros hp Hloop Hlt Hp.
  - injection Hloop as <-. destruct Hp as [?|(n & Hn & _)]; [done|].
    by apply elem_of_nil in Hn.
  - simpl in Hloop. apply ctor_bind_inv in Hloop as ([] & hp1 & Hstep & Hloop).
    unfold rescale_proj in Hstep. simpl in Hstep.
    destruct (endswith n0 "proj.weight") eqn:E0.
    + apply ctor_bind_inv in Hstep as ([] & ? & [_ ->]%guard_inv & Hstep).
      apply ctor_bind_inv in Hstep as ([] & ? & [_ ->]%guard_inv & Hstep).
      destruct (fill__post (normal1 Fzero (proj_std c)) q hp)
        as (hp1' & Hf & [_ Hlen] & Hq & Hother).
      unfold normal_ in Hstep. rewrite Hf in Hstep. injection Hstep as ->.
      apply (IH hp1 Hloop); [lia|].
      destruct (decide (p = q)) as [->|Hne].
      * left. destruct (lookup_lt_is_Some_2 _ _ Hlt) as [t Ht].
        destruct (Hq t Ht) as (g & Hg). eexists. split; [exact Hg|].
        apply refill_drawn_normal.
      * destruct Hp as [(t & Ht & Hd)|(n & Hn & He)].
        -- left. exists t. split; [|done]. rewrite <- Ht. by apply Hother.
        -- right. exists n. split; [|done].
           apply elem_of_cons in Hn as [[= -> ->]|Hn]; done.
    + apply ctor_ret_inv in Hstep as [_ ->].
      apply (IH hp Hloop Hlt). destruct Hp as [Hp|(n & Hn & He)]; [by left|].
      right. exists n. split; [|done].
      apply elem_of_cons in Hn as [[= -> ->]|Hn]; [congruence | done].
Qed.

(** Each projection weight of a constructed model is left with draws of
    the rescaled distribution: the loop over the named parameters runs once
    more when [apply] reaches the model itself. *)
Lemma proj_weight_drawn (c : GPTconfig F) hp m hp' blk p :
  GPT_init (PyConfig c) true hp = Ok (m, hp') → blk ∈ h m →
  p = lin_weight (mha_proj (multi_head_sa blk)) ∨ p = lin_weight (ffw_proj (ffw blk)) →
  ∃ t, store hp' !! p = Some t ∧
       drawn_normal (Fof_Z 0)
         (Fdiv (Fdiv (Fof_Z 2) (Fof_Z 100)) (Fsqrt (Fof_Z (2 * n_layer c)))) t.
Proof.
  intros Hi Hblk Hp.
  destruct (proj_named _ _ _ _ _ _ _ Hi Hblk Hp) as (n & Hn & He).
  apply GPT_init_post in Hi
    as (_ & Hnl & _ & _ & Hcfg & _ & _ & _ & hpc & Hap & _ & _ & Hlt & Hlocs & Hin).
  assert (Hp_alloc : (p < length (store hpc))%nat).
  { assert (Hpl : p ∈ tree_locs (gpt_tree m)).
    { rewrite <- (named_parameters_all_locs "").
      assert (Hpp : p ∈ (named_parameters m).*2)
        by (by apply (list_elem_of_fmap_2 snd _ (n, p))).
      unfold named_parameters in Hpp. by apply elem_of_remove_duplicate in Hpp as [? _]. }
    rewrite Hlocs in Hpl. apply elem_of_seq in Hin.
    apply elem_of_cons in Hpl as [->|Hpl%elem_of_seq]; lia. }
  unfold apply_init_weights in Hap.
  change (apply_order (gpt_tree m))
    with (concat ((λ c : string * module, apply_order c.2) <$>
            [("transformer",
              MNode [("wte", MEmbedding (wte m)); ("wpe", MEmbedding (wpe m));
                     ("drop", MLeaf);
                     ("h", MNode (imap (λ i b, (pretty i, block_tree b)) (h m)));
                     ("ln_f", MLayerNorm (ln_f m))]);
             ("lm_head", MLinear (lm_head m))]) ++ [gpt_tree m]) in Hap.
  rewrite for_each_app in Hap.
  apply ctor_bind_inv in Hap as ([] & hp1 & Hfirst & Hlast).
  match type of Hfirst with for_each _ ?l _ = _ =>
    destruct (for_each_same_shapes (_init_weights m) l hpc) as (hp1' & Hf' & [_ Hlen1])
  end.
  { intros md hp0. apply _init_weights_post. by rewrite Hcfg. }
  rewrite Hfirst in Hf'. injection Hf' as <-.
  simpl in Hlast. apply ctor_bind_inv in Hlast as ([] & hp2 & Hroot & Hret).
  apply ctor_ret_inv in Hret as [_ ->].
  unfold _init_weights, gpt_tree in Hroot.
  apply ctor_bind_inv in Hroot as ([] & hp3 & [_ ->]%ctor_ret_inv & Hloop).
  rewrite Hcfg in Hloop.
  eapply rescale_loop; [exact Hloop | lia |]. right. eauto.
Qed.


(** C6. After construction with weight initialisation [n_layer] is
    positive, and in every block the weight of the projection layer of the
    attention sub-layer, of shape [n_embd x n_embd], and the weight of the
    projection layer of the feed-forward sub-layer, of shape
    [n_embd x (n_embd * ffw_widen)], hold, element by element, successive
    draws of [normal_] with mean [0] and standard deviation
    [0.02 / sqrt(2 * n_layer)]. *)
Theorem proj_weights_rescaled (c : GPTconfig F) hp m hp' blk :
  GPT_init (PyConfig c) true hp = Ok (m, hp') → blk ∈ h m →
  0 < n_layer c ∧
  (∃ w, store hp' !! lin_weight (mha_proj (multi_head_sa blk)) = Some (T2 w) ∧
        shape2 (Z.to_nat (n_embd c)) (Z.to_nat (n_embd c)) w ∧
        drawn_normal (Fof_Z 0)
          (Fdiv (Fdiv (Fof_Z 2) (Fof_Z 100)) (Fsqrt (Fof_Z (2 * n_layer c)))) (T2 w)) ∧
  (∃ w, store hp' !! lin_weight (ffw_proj (ffw blk)) = Some (T2 w) ∧
        shape2 (Z.to_nat (n_embd c)) (Z.to_nat (n_embd c * ffw_widen c)) w ∧
        drawn_normal (Fof_Z 0)
          (Fdiv (Fdiv (Fof_Z 2) (Fof_Z 100)) (Fsqrt (Fof_Z (2 * n_layer c)))) (T2 w)).
Proof.
  intros Hi Hblk.
  destruct (proj_weight_drawn c hp m hp' blk _ Hi Hblk (or_introl eq_refl))
    as (ta & Hta & Hda).
  destruct (proj_weight_drawn c hp m hp' blk _ Hi Hblk (or_intror eq_refl))
    as (tf & Htf & Hdf).
  destruct (GPT_init_dims _ _ _ _ _ Hi) as [Hdims _].
  apply GPT_init_post in Hi as (_ & Hnl & _ & _ & _ & _ & Hwf & _).
  destruct Hwf as (_ & _ & _ & _ & _ & _ & _ & _ & _ & Hh & _).
  pose proof (proj1 (Forall_forall _ _) Hh blk Hblk) as (Hmha & Hffw & _).
  pose proof (proj1 (Forall_forall _ _) Hdims blk Hblk) as (_ & _ & _ & _ & Hwide).
  destruct Hmha as (_ & _ & _ & [(wa & Hwa & Hsa) _] & Hai & Hao & _).
  destruct Hffw as (_ & _ & [(wf & Hwf & Hsf) _] & Hfi & Hfo).
  rewrite Hai, Hao in Hsa. rewrite Hfi, Hfo, Hwide in Hsf.
  split; [done|]. split.
  - exists wa. rewrite Hwa in Hta. injection Hta as <-. done.
  - exists wf. rewrite Hwf in Htf. injection Htf as <-. done.
Qed.

End ProjInit.

(** ** The theorems at work on the executable instance *)

Section Instances.
Import ZInf.

Example tiny_model_built :
  GPT_init (PyConfig tiny_config) true empty_heap = Ok (tiny_model, tiny_heap).
Proof. vm_compute. reflexivity. Qed.

(** The parameter count of the end-to-end configuration: 6800 parameters,
    of which 128 are position embeddings; the 80 tied ones count once. *)
Example small_model_num_params :
  match GPT_init (PyConfig small_config) true empty_heap with
  | Ok (m, hp) => get_num_params m (store hp) true = 6672 ∧
                  get_num_params m (store hp) false = 6800
  | Err _ => False
  end.
Proof. vm_compute. split; reflexivity. Qed.

(** The logits at position 0 agree on all three batches; at position 1
    they differ as soon as the token at position 1 differs. *)
Example logits_differ_after :
  logits_012 !! 0%nat ≫= (.!! 1%nat) ≠ logits_021 !! 0%nat ≫= (.!! 1%nat) ∧
  logits_012 !! 0%nat ≫= (.!! 1%nat) = logits_011 !! 0%nat ≫= (.!! 1%nat) ∧
  logits_012 !! 0%nat ≫= (.!! 2%nat) ≠ logits_011 !! 0%nat ≫= (.!! 2%nat).
Proof. vm_compute. split_and!; [discriminate | reflexivity | discriminate]. Qed.

(** Witness of C1: the tiny model on a batch of shape (1, 3). *)
Lemma forward_shapes_witness :
  GPT_init (PyConfig tiny_config) true empty_heap = Ok (tiny_model, tiny_heap) ∧
  (∃ logits loss,
     GPT_forward true some_keep tiny_model (store tiny_heap) batch_012 (Some targets_mixed)
       = Ok (logits, Some loss) ∧
     shape3 1 3 3 logits) ∧
  (∃ logits,
     GPT_forward true some_keep tiny_model (store tiny_heap) batch_012 None
       = Ok (logits, None) ∧
     shape3 1 1 3 logits).
Proof.
  split; [vm_compute; reflexivity|].
  destruct (forward_shapes tiny_config true empty_heap tiny_model tiny_heap
              (store tiny_heap) true some_keep batch_012) as [Htrain Heval].
  - vm_compute. reflexivity.
  - apply extends_refl.
  - reflexivity.
  - split; [reflexivity | repeat constructor].
  - simpl. lia.
  - repeat constructor; simpl; lia.
  - split.
    + apply Htrain; [split; [reflexivity | repeat constructor] | reflexivity | reflexivity |].
      repeat constructor; unfold ignore_index; simpl; lia.
    + apply Heval. simpl. lia.
Defined.

(** C1 as stated fails on the code: without targets a batch with an empty
    time dimension raises, although [T <= context_len] and every token is in
    range; and a model of width zero, whose configuration meets the listed
    invariant, raises in both modes. *)
Lemma forward_shapes_counterexample :
  (GPT_init (PyConfig tiny_config) true empty_heap = Ok (tiny_model, tiny_heap) ∧
   wf_long batch_empty ∧ Z.of_nat (dim1 batch_empty) <= context_len tiny_config ∧
   tokens_in_range 3 batch_empty ∧
   GPT_forward false no_keep tiny_model (store tiny_heap) batch_empty None =
   Err (IndexError "index -1 is out of bounds for dimension 1 with size 0")) ∧
  (spec_valid_config zero_width_config ∧
   ∃ m hp,
     GPT_init (PyConfig zero_width_config) true empty_heap = Ok (m, hp) ∧
     GPT_forward false no_keep m (store hp) batch_012 (Some targets_mixed) =
     Err (ZeroDivisionError "0.0 cannot be raised to a negative power") ∧
     GPT_forward false no_keep m (store hp) batch_012 None =
     Err (ZeroDivisionError "0.0 cannot be raised to a negative power")).
Proof.
  split.
  - split_and!; [vm_compute; reflexivity | split; [reflexivity | repeat constructor]
                 | simpl; lia | repeat constructor | vm_compute; reflexivity].
  - split; [unfold spec_valid_config; simpl; split_and!; (lia || reflexivity)|].
    destruct (GPT_init (PyConfig zero_width_config) true empty_heap) as [[m hp]|e] eqn:E;
      [|vm_compute in E; discriminate].
    exists m, hp. split; [reflexivity|].
    vm_compute in E. injection E as <- <-. split; vm_compute; reflexivity.
Qed.



(** With the parameters construction drew, where nothing overflows, the
    same two batches give the same logits at position 0 in that
    arithmetic. *)
Example ieee_runs_without_overflow :
  match GPT_forward true no_keep IEEE.model (store IEEE.built_heap) IEEE.batch_00
          (Some IEEE.no_targets),
        GPT_forward true no_keep IEEE.model (store IEEE.built_heap) IEEE.batch_01
          (Some IEEE.no_targets) with
  | Ok (logits, _), Ok (logits', _) => Forall2 (agree_upto 1) logits logits'
  | _, _ => False
  end.
Proof. vm_compute. repeat constructor. Qed.

(** Witness of C9: the block of the tiny model on an input of shape
    (1, 3, 2). *)
Lemma block_forward_pre_norm_witness :
  ∃ n1 a x' n2 f out,
    block_forward true some_keep (load_block (store tiny_heap) tiny_block) 0 block_input
      = Ok out ∧
    shape3 1 3 2 n1 ∧
    is_layer_norm (ln1 (load_block (store tiny_heap) tiny_block)) block_input n1 ∧
    mha_forward true some_keep (multi_head_sa (load_block (store tiny_heap) tiny_block)) 0 n1
      = Ok a ∧
    shape3 1 3 2 x' ∧ is_sum block_input a x' ∧
    shape3 1 3 2 n2 ∧
    is_layer_norm (ln2 (load_block (store tiny_heap) tiny_block)) x' n2 ∧
    ffw_forward true some_keep (ffw (load_block (store tiny_heap) tiny_block)) 0 n2 = Ok f ∧
    shape3 1 3 2 out ∧ is_sum x' f out.
Proof.
  apply (proj1 (proj2 block_forward_pre_norm) t _ true some_keep
           (load_block (store tiny_heap) tiny_block) 0%nat 1%nat 3%nat 2%nat 3%nat block_input).
  - repeat split; try reflexivity; repeat constructor; by intros ? [=].
  - lia.
  - lia.
  - repeat split; repeat constructor.
Defined.

(** Witness of C3: the tiny model, re-initialised and then overwritten at
    location 3. *)
Lemma weight_tying_witness :
  GPT_init (PyConfig tiny_config) true empty_heap = Ok (tiny_model, tiny_heap) ∧
  emb_weight (wte tiny_model) = lin_weight (lm_head tiny_model) ∧
  (emb_weight (wte tiny_model) <
     length (store (run_ops tiny_model [OpInitWeights; OpWrite 3%nat (T1 [])] tiny_heap)))%nat.
Proof.
  assert (Hb : GPT_init (PyConfig tiny_config) true empty_heap = Ok (tiny_model, tiny_heap))
    by (vm_compute; reflexivity).
  destruct (weight_tying tiny_config true empty_heap tiny_model tiny_heap Hb) as [Htie Hops].
  split_and!; [exact Hb | exact Htie |].
  apply (Hops [OpInitWeights; OpWrite 3%nat (T1 [])]).
Defined.

(** Witness of C4: every target of the batch ignored. *)
Lemma forward_loss_all_ignored_witness :
  forward_hidden true some_keep (load_gpt (store tiny_heap) tiny_model) batch_012
    = Ok hidden_012 ∧
  forward true some_keep (load_gpt (store tiny_heap) tiny_model) batch_012
    (Some targets_ignored) = Ok (logits_012, Some (Fdiv Fzero (Fof_Z 0))).
Proof.
  assert (Hx : forward_hidden true some_keep (load_gpt (store tiny_heap) tiny_model)
                 batch_012 = Ok hidden_012) by (vm_compute; reflexivity).
  split; [exact Hx|].
  apply (forward_loss_all_ignored true some_keep (load_gpt (store tiny_heap) tiny_model)
           batch_012 targets_ignored hidden_012 logits_012 Hx).
  - vm_compute. reflexivity.
  - reflexivity.
  - repeat constructor.
Defined.

(** Witness of C6: the two projections of the tiny model's block, at
    locations 3 and 5. *)
Lemma proj_weights_rescaled_witness :
  GPT_init (PyConfig tiny_config) true empty_heap = Ok (tiny_model, tiny_heap) ∧
  (∃ w, store tiny_heap !! 3%nat = Some (T2 w) ∧ shape2 2 2 w ∧
        drawn_normal (Fof_Z 0)
          (Fdiv (Fdiv (Fof_Z 2) (Fof_Z 100)) (Fsqrt (Fof_Z (2 * n_layer tiny_config))))
          (T2 w)) ∧
  (∃ w, store tiny_heap !! 5%nat = Some (T2 w) ∧ shape2 2 2 w ∧
        drawn_normal (Fof_Z 0)
          (Fdiv (Fdiv (Fof_Z 2) (Fof_Z 100)) (Fsqrt (Fof_Z (2 * n_layer tiny_config))))
          (T2 w)).
Proof.
  assert (Hb : GPT_init (PyConfig tiny_config) true empty_heap = Ok (tiny_model, tiny_heap))
    by (vm_compute; reflexivity).
  split; [exact Hb|].
  refine (proj2 (proj_weights_rescaled tiny_config empty_heap tiny_model tiny_heap
                   tiny_block Hb _)).
  left.
Defined.

(** C7 as stated fails on the code: a configuration with positive counts
    and a width divisible by the head count, but negative, is refused by
    [nn.Embedding]. *)
Lemma GPT_init_fails_fast_counterexample :
  spec_valid_config negative_width_config ∧
  GPT_init (PyConfig negative_width_config) true empty_heap =
  Err (RuntimeError "Trying to create tensor with negative dimension").
Proof.
  split; [unfold spec_valid_config; simpl; split_and!; (lia || reflexivity)|].
  vm_compute. reflexivity.
Qed.

End Instances.

(** ** Further properties of [forward] *)

Section ForwardFacts.
Context {F : Type} `{Scalar F}.
Local Abbreviation vec := (list F).
Local Abbreviation mat := (list (list F)).
Local Abbreviation tensor3 := (list (list (list F))).
Variable training : bool.
Variable keep : drop_site → list nat → bool.

Lemma mapM_drop {A B} (f : A → result B) (l : list A) (k : list B) n :
  mapM f l = Ok k → mapM f (drop n l) = Ok (drop n k).
Proof. rewrite !mapM_Ok_Forall2. apply Forall2_drop. Qed.

Lemma mapM_fmap_Ok {A B} (f : A → result B) (g : A → A) (g' : B → B)
    (l : list A) (k : list B) :
  (∀ a b, f a = Ok b → f (g a) = Ok (g' b)) →
  mapM f l = Ok k → mapM f (g <$> l) = Ok (g' <$> k).
Proof.
  intros Hfg. rewrite !mapM_Ok_Forall2. intros Hl.
  apply Forall2_fmap. eapply Forall2_impl; [exact Hl|]. exact Hfg.
Qed.

Lemma mapM_Err_only {A B} (f : A → result B) (e e' : error) (l : list A) :
  (∀ a e', f a = Err e' → e' = e) → mapM f l = Err e' → e' = e.
Proof.
  intros Hone. induction l as [|a l IH]; [done|].
  rewrite mapM_cons_result. destruct (f a) as [y|e1] eqn:Hy; simpl.
  - destruct (mapM f l) as [ys|e2]; simpl; [done|]. intros [= ->]. by apply IH.
  - intros [= ->]. by eapply Hone.
Qed.

(** A failing element makes [mapM] fail with the same error when the
    function has only that one error. *)
Lemma mapM_Err_uniform {A B} (f : A → result B) (e : error) (l : list A) :
  (∀ a e', f a = Err e' → e' = e) →
  Exists (λ a, f a = Err e) l → mapM f l = Err e.
Proof.
  intros Hone. induction 1 as [a l Ha|a l _ IH]; rewrite mapM_cons_result.
  - by rewrite Ha.
  - destruct (f a) as [y|e'] eqn:Hy; simpl.
    + by rewrite IH.
    + by rewrite (Hone _ _ Hy).
Qed.

Lemma embedding_Err (e : Embedding mat) i err :
  embedding e i = Err err → err = IndexError "index out of range in self".
Proof.
  unfold embedding. destruct (_ && _); simpl; [|by intros [= <-]].
  destruct (_ !! _); [done|by intros [= <-]].
Qed.

Lemma embedding_out_of_range (e : Embedding mat) i :
  ¬ (0 ≤ i < Z.of_nat (num_embeddings e)) →
  embedding e i = Err (IndexError "index out of range in self").
Proof.
  intros Hi. unfold embedding.
  destruct (0 <=? i) eqn:H0; destruct (i <? Z.of_nat (num_embeddings e)) eqn:H1;
    simpl; try done. lia.
Qed.

Lemma tadd_rows (x y z : tensor3) :
  tadd x y = Ok z → length <$> z = length <$> x.
Proof.
  unfold tadd. revert y z. induction x as [|xb x IH]; intros [|yb y] z Hz;
    simpl in Hz; try discriminate.
  - by injection Hz as <-.
  - apply bind_Ok_inv in Hz as (zb & Hzb & Hz).
    apply bind_Ok_inv in Hz as (zs & Hzs & Hz). injection Hz as <-.
    rewrite !fmap_cons. f_equal; [|by eapply IH].
    apply zipM_Ok_length in Hzb as [-> _]. done.
Qed.

Lemma block_forward_rows (blk : TransformerBlock F mat vec) l (x y : tensor3) :
  block_forward training keep blk l x = Ok y → length <$> y = length <$> x.
Proof.
  unfold block_forward. intros Hy.
  apply bind_Ok_inv in Hy as (n1 & _ & Hy).
  apply bind_Ok_inv in Hy as (a & _ & Hy).
  apply bind_Ok_inv in Hy as (x1 & Hx1 & Hy).
  apply bind_Ok_inv in Hy as (n2 & _ & Hy).
  apply bind_Ok_inv in Hy as (f & _ & Hy).
  apply tadd_rows in Hx1, Hy. congruence.
Qed.

Lemma run_blocks_rows (bs : list (TransformerBlock F mat vec)) l (x y : tensor3) :
  run_blocks training keep l bs x = Ok y → length <$> y = length <$> x.
Proof.
  revert l x. induction bs as [|blk bs IH]; intros l x; simpl.
  - by intros [= <-].
  - intros Hy. apply bind_Ok_inv in Hy as (x1 & Hx1 & Hy).
    apply block_forward_rows in Hx1. apply IH in Hy. congruence.
Qed.

(** Every batch element of the hidden states has [T] positions. *)
Lemma forward_hidden_rows (m : GPT F mat vec) (idx : LongTensor) (x : tensor3) :
  forward_hidden training keep m idx = Ok x →
  Forall (λ xb, length xb = dim1 idx) x.
Proof.
  unfold forward_hidden. intros Hx.
  apply bind_Ok_inv in Hx as (_ & _ & Hx).
  apply bind_Ok_inv in Hx as (tok & _ & Hx).
  apply bind_Ok_inv in Hx as (pos & Hpos & Hx).
  apply bind_Ok_inv in Hx as (x0 & Hx0 & Hx).
  apply bind_Ok_inv in Hx as (x1 & Hx1 & Hx).
  apply mapM_Ok_length in Hpos. rewrite length_fmap, length_seq in Hpos.
  assert (Forall (λ xb : mat, length xb = dim1 idx) x0) as H0.
  { apply mapM_Ok_Forall2 in Hx0. eapply Forall2_Forall_r; [exact Hx0|].
    apply Forall_true. intros xb yb Hz. apply zipM_Ok_length in Hz as [_ Hz]. lia. }
  assert (Forall (λ xb : mat, length xb = dim1 idx) (dropout3 training keep (drop_ m) SiteEmb x0))
    as H0'.
  { unfold dropout3. apply Forall_lookup. intros b xb Hb.
    rewrite list_lookup_imap in Hb.
    destruct (x0 !! b) as [xb0|] eqn:Hb0; [|done]. injection Hb as <-.
    unfold dropout_mat. rewrite length_imap.
    by eapply (Forall_lookup_1 _ _ _ _ H0). }
  apply run_blocks_rows in Hx1.
  assert (Forall (λ xb : mat, length xb = dim1 idx) x1) as H1.
  { apply (Forall_fmap length (λ n, n = dim1 idx)). rewrite Hx1.
    by apply Forall_fmap. }
  unfold layer_norm in Hx. apply mapM_Ok_Forall2 in Hx.
  eapply Forall2_Forall_r; [exact Hx|]. eapply Forall_impl; [exact H1|].
  intros xb Hxb yb Hyb. cbv beta in *. apply mapM_Ok_length in Hyb. congruence.
Qed.

(** X1. Inference returns the logits of the last position. *)
Theorem forward_inference_last_position (m : GPT F mat vec) (idx tg : LongTensor)
    (logits : tensor3) (loss : option F) :
  forward training keep m idx (Some tg) = Ok (logits, loss) →
  (0 < dim1 idx)%nat →
  Forall (λ lb, length lb = dim1 idx) logits ∧
  forward training keep m idx None =
    Ok ((λ lb : mat, drop (dim1 idx - 1) lb) <$> logits, None).
Proof.
  unfold forward. intros Hf HT.
  apply bind_Ok_inv in Hf as (x & Hx & Hf).
  apply bind_Ok_inv in Hf as (lg & Hlg & Hf).
  apply bind_Ok_inv in Hf as (ls & _ & Hf). injection Hf as <- <-.
  rewrite Hx. simpl. split.
  - pose proof (forward_hidden_rows _ _ _ Hx) as Hrows.
    unfold linear in Hlg. apply mapM_Ok_Forall2 in Hlg.
    eapply Forall2_Forall_r; [exact Hlg|]. eapply Forall_impl; [exact Hrows|].
    intros xb Hxb yb Hyb. cbv beta in *. apply mapM_Ok_length in Hyb. congruence.
  - rewrite bind_check by (apply negb_true_iff, Nat.eqb_neq; lia).
    erewrite bind_Ok; [done|]. unfold linear in *.
    apply (mapM_fmap_Ok _ _ (λ lb : mat, drop (dim1 idx - 1) lb)); [|exact Hlg].
    intros a b. apply mapM_drop.
Qed.

(** X2. A token outside [0, vocab_size) makes [forward] raise the
    [IndexError] of the embedding lookup. *)
Theorem forward_token_out_of_range (m : GPT F mat vec) (idx : LongTensor)
    (targets : option LongTensor) :
  Z.of_nat (dim1 idx) ≤ context_len (config m) →
  Exists (Exists (λ i, ¬ (0 ≤ i < Z.of_nat (num_embeddings (wte m))))) (ldata idx) →
  forward training keep m idx targets = Err (IndexError "index out of range in self").
Proof.
  intros HT Hbad.
  enough (forward_hidden training keep m idx =
            Err (IndexError "index out of range in self")) as Hh
    by (unfold forward; by rewrite Hh).
  unfold forward_hidden. rewrite bind_check by (by apply Z.leb_le).
  rewrite (mapM_Err_uniform (mapM (embedding (wte m)))
             (IndexError "index out of range in self")); [done| |].
  - intros row e' Hrow. eapply mapM_Err_only; [apply embedding_Err|exact Hrow].
  - eapply Exists_impl; [exact Hbad|]. intros row Hrow. simpl.
    apply mapM_Err_uniform; [apply embedding_Err|].
    eapply Exists_impl; [exact Hrow|]. intros i Hi. by apply embedding_out_of_range.
Qed.

Lemma Exists_concat {X} (P : X → Prop) (ls : list (list X)) :
  Exists (Exists P) ls → Exists P (concat ls).
Proof.
  induction 1 as [l ls Hl|l ls _ IH]; simpl; apply Exists_app; [by left|by right].
Qed.

Lemma nll_terms_out_of_bounds V (rows : mat) (targets : list Z) :
  Forall (λ r, length r = V) rows → length rows = length targets →
  Exists (λ t, t ≠ ignore_index ∧ ¬ (0 ≤ t < Z.of_nat V)) targets →
  nll_terms ignore_index rows targets = Err (IndexError "Target is out of bounds").
Proof.
  intros Hrows. revert targets.
  induction Hrows as [|row rows Hrow _ IH]; intros [|t targets] Hlen Hbad;
    simpl in Hlen; try done.
  - by apply Exists_nil in Hbad.
  - injection Hlen as Hlen. simpl.
    destruct (Z.eqb_spec t ignore_index) as [->|Hne].
    + apply IH; [done|]. apply Exists_cons in Hbad as [[? _]|?]; done.
    + destruct (0 <=? t) eqn:H0; destruct (t <? Z.of_nat (length row)) eqn:H1;
        simpl; try done.
      rewrite IH; [done|done|].
      apply Exists_cons in Hbad as [[_ Hr]|?]; [|done]. lia.
Qed.

(** X3. A target that is neither the ignore index nor a class index is not
    skipped: the loss computation raises an [IndexError]. *)
Theorem forward_target_out_of_bounds (m : GPT F mat vec) V C ctx (idx tg : LongTensor) :
  wf_gpt V C ctx m → (0 < C)%nat → wf_long idx → (dim1 idx ≤ ctx)%nat →
  tokens_in_range V idx →
  wf_long tg → dim0 tg = dim0 idx → dim1 tg = dim1 idx →
  Exists (Exists (λ t, t ≠ ignore_index ∧ ¬ (0 ≤ t < Z.of_nat V))) (ldata tg) →
  forward training keep m idx (Some tg) = Err (IndexError "Target is out of bounds").
Proof.
  intros Hm HC Hidx HT Htok Htg HB HTt Hbad.
  destruct (forward_hidden_ok training keep m V C ctx idx) as (x & Hx & Hxs); [done..|].
  destruct Hm as (_ & _ & _ & _ & _ & _ & _ & _ & _ & _ & _ & _ & Hlm & HlmC & HlmV).
  unfold forward. rewrite (bind_Ok _ _ _ Hx).
  destruct (linear_ok (lm_head m) (dim0 idx) (dim1 idx) x) as (logits & Hl & Hls);
    [done | by rewrite HlmC |].
  rewrite HlmV in Hls. rewrite (bind_Ok _ _ _ Hl).
  destruct (shape3_concat _ _ _ _ Hls) as [Hclen Hcrows].
  assert (length (concat logits) = length (concat (ldata tg))) as Hlen.
  { rewrite Hclen, (wf_long_concat tg Htg). congruence. }
  unfold cross_entropy. rewrite bind_check by (by apply Nat.eqb_eq).
  rewrite (nll_terms_out_of_bounds V); [done|done|done|]. by apply Exists_concat.
Qed.

(** X4. Targets with another number of entries than the batch has positions
    are refused with a [ValueError]. *)
Theorem forward_target_size_mismatch (m : GPT F mat vec) V C ctx (idx tg : LongTensor) :
  wf_gpt V C ctx m → (0 < C)%nat → wf_long idx → (dim1 idx ≤ ctx)%nat →
  tokens_in_range V idx →
  length (concat (ldata tg)) ≠ (dim0 idx * dim1 idx)%nat →
  forward training keep m idx (Some tg) =
    Err (ValueError "Expected input batch_size to match target batch_size").
Proof.
  intros Hm HC Hidx HT Htok Hne.
  destruct (forward_hidden_ok training keep m V C ctx idx) as (x & Hx & Hxs); [done..|].
  destruct Hm as (_ & _ & _ & _ & _ & _ & _ & _ & _ & _ & _ & _ & Hlm & HlmC & HlmV).
  unfold forward. rewrite (bind_Ok _ _ _ Hx).
  destruct (linear_ok (lm_head m) (dim0 idx) (dim1 idx) x) as (logits & Hl & Hls);
    [done | by rewrite HlmC |].
  rewrite HlmV in Hls. rewrite (bind_Ok _ _ _ Hl).
  destruct (shape3_concat _ _ _ _ Hls) as [Hclen _].
  unfold cross_entropy.
  destruct (Nat.eqb_spec (length (concat logits)) (length (concat (ldata tg))))
    as [Heq|_]; [|done].
  congruence.
Qed.

(** X7. An empty batch is not an error for a model of positive width and
    vocabulary: with no sequence there are no logits, and the mean over no
    position is the quotient [0 / 0]. *)
Theorem forward_empty_batch (m : GPT F mat vec) V C ctx (T : nat) (tg : LongTensor) :
  wf_gpt V C ctx m → (0 < C)%nat → (0 < V)%nat → (T ≤ ctx)%nat → ldata tg = [] →
  forward training keep m {| dim0 := 0; dim1 := T; ldata := [] |} (Some tg) =
    Ok ([], Some (Fdiv Fzero (Fof_Z 0))) ∧
  ((0 < T)%nat →
   forward training keep m {| dim0 := 0; dim1 := T; ldata := [] |} None = Ok ([], None)).
Proof.
  intros Hm HC HV HT Htg.
  destruct (forward_hidden_ok training keep m V C ctx {| dim0 := 0; dim1 := T; ldata := [] |})
    as (x & Hx & Hxlen & _); [done | done | by split | done | constructor |].
  cbn [dim0] in Hxlen. apply nil_length_inv in Hxlen. subst x.
  unfold forward. rewrite Hx. simpl. rewrite Htg. split; [done|].
  intros H0. by destruct T; [lia|].
Qed.

End ForwardFacts.

(** ** Evaluation mode: the batch elements are independent *)

Section EvalMode.
Context {F : Type} `{Scalar F}.
Local Abbreviation vec := (list F).
Local Abbreviation mat := (list (list F)).
Local Abbreviation tensor3 := (list (list (list F))).
Variable keep : drop_site → list nat → bool.

(** The sub-batch made of element [b] alone. *)
Definition batch_element {X} (b : nat) (l : list X) : list X := take 1 (drop b l).

Lemma batch_element_lookup {X} (b : nat) (l : list X) (a : X) :
  l !! b = Some a → batch_element b l = [a].
Proof.
  intros Ha. unfold batch_element. rewrite (drop_S _ _ _ Ha). simpl. by rewrite take_0.
Qed.

Lemma mapM_batch_element {A B} (f : A → result B) (l : list A) (k : list B) b :
  mapM f l = Ok k → mapM f (batch_element b l) = Ok (batch_element b k).
Proof. intros Hk. by apply mapM_take, mapM_drop. Qed.

Lemma zipM_take {A B C} (f : A → B → result C) l k r n :
  zipM f l k = Ok r → zipM f (take n l) (take n k) = Ok (take n r).
Proof.
  revert k r n. induction l as [|a l IH]; intros [|c k] r n Hr; simpl in Hr;
    try discriminate.
  - injection Hr as <-. by destruct n.
  - apply bind_Ok_inv in Hr as (y & Hy & Hr).
    apply bind_Ok_inv in Hr as (ys & Hys & Hr). injection Hr as <-.
    destruct n as [|n]; simpl; [done|]. by rewrite Hy, (IH _ _ n Hys).
Qed.

Lemma zipM_drop {A B C} (f : A → B → result C) l k r n :
  zipM f l k = Ok r → zipM f (drop n l) (drop n k) = Ok (drop n r).
Proof.
  revert k r n. induction l as [|a l IH]; intros [|c k] r n Hr; simpl in Hr;
    try discriminate.
  - injection Hr as <-. by destruct n.
  - destruct n as [|n]; [done|].
    apply bind_Ok_inv in Hr as (y & Hy & Hr).
    apply bind_Ok_inv in Hr as (ys & Hys & Hr). injection Hr as <-.
    simpl. by apply IH.
Qed.

Lemma imap_id {X} (f : nat → X → X) (l : list X) : (∀ i a, f i a = a) → imap f l = l.
Proof.
  intros Hf. apply list_eq. intros i. rewrite list_lookup_imap.
  destruct (l !! i); simpl; by rewrite ?Hf.
Qed.

(** [nn.Dropout] is the identity when the module is not training. *)
Lemma dropout_mat_eval (d : Dropout F) s ix (x : mat) : dropout_mat false keep d s ix x = x.
Proof.
  unfold dropout_mat. apply imap_id. intros t r.
  unfold dropout_vec. by apply imap_id.
Qed.

Lemma dropout3_eval (d : Dropout F) s (x : tensor3) : dropout3 false keep d s x = x.
Proof. unfold dropout3. apply imap_id. intros b m. apply dropout_mat_eval. Qed.

Lemma mapM_imap_pair {A B} (g : nat → A → result B) (l : list A) :
  (∀ i j a, g i a = g j a) →
  mapM (λ bm, g bm.1 bm.2) (imap pair l) = mapM (g 0%nat) l.
Proof.
  intros Hg. enough (Hgen : ∀ n, mapM (λ bm, g bm.1 bm.2) (imap (λ i, pair (n + i)%nat) l)
                             = mapM (g 0%nat) l) by exact (Hgen 0%nat).
  induction l as [|a l IH]; intros n; [done|].
  rewrite imap_cons, !mapM_cons_result. simpl. rewrite (Hg _ 0%nat).
  destruct (g 0%nat a); simpl; [|done].
  rewrite <- (IH (S n)). do 2 f_equal. apply imap_ext. intros i x _. simpl. f_equal. lia.
Qed.

Lemma attend_eval_index (a : MultiHeadAttention F mat vec) l b b' hd scale T (y : mat) :
  attend false keep a l b hd scale T y = attend false keep a l b' hd scale T y.
Proof.
  unfold attend. destruct (masked_fill _ _) as [att|]; simpl; [|done].
  by rewrite !dropout_mat_eval.
Qed.

Lemma mha_batch_eval_index (a : MultiHeadAttention F mat vec) l b b' scale (x y : mat) :
  mha_batch false keep a l b scale x y = mha_batch false keep a l b' scale x y.
Proof.
  unfold mha_batch.
  rewrite (mapM_ext_in _ (λ hd, attend false keep a l b' hd scale (length x) y));
    [|intros; apply attend_eval_index].
  destruct (mapM _ (seq _ _)) as [heads|]; simpl; [|done].
  destruct (zipM _ _ _) as [out|]; simpl; [|done].
  destruct (mapM _ out) as [o|]; simpl; [|done].
  by rewrite !dropout_mat_eval.
Qed.

Lemma ffw_batch_eval_index (f : Ffw F mat vec) l b b' (x : mat) :
  ffw_batch false keep f l b x = ffw_batch false keep f l b' x.
Proof.
  unfold ffw_batch.
  destruct (mapM _ x) as [x1|]; simpl; [|done].
  destruct (mapM _ _) as [x3|]; simpl; [|done].
  by rewrite !dropout_mat_eval.
Qed.

Lemma mha_forward_batch_element (a : MultiHeadAttention F mat vec) l (x y : tensor3) b :
  mha_forward false keep a l x = Ok y →
  mha_forward false keep a l (batch_element b x) = Ok (batch_element b y).
Proof.
  unfold mha_forward. intros Hy.
  apply bind_Ok_inv in Hy as (ys & Hys & Hy).
  apply bind_Ok_inv in Hy as ([] & Hhs & Hy).
  rewrite (bind_Ok _ _ _ (mapM_batch_element _ _ _ b Hys)), Hhs. simpl.
  set (scale := Fpow _ _) in *.
  rewrite (mapM_imap_pair (λ b xy, mha_batch false keep a l b scale xy.1 xy.2)) in Hy |- *
    by (intros; apply mha_batch_eval_index).
  apply (mapM_batch_element _ _ _ b) in Hy.
  unfold batch_element in *. by rewrite zip_with_drop, zip_with_take in Hy.
Qed.

Lemma ffw_forward_batch_element (f : Ffw F mat vec) l (x y : tensor3) b :
  ffw_forward false keep f l x = Ok y →
  ffw_forward false keep f l (batch_element b x) = Ok (batch_element b y).
Proof.
  unfold ffw_forward.
  rewrite !(mapM_imap_pair (ffw_batch false keep f l)) by apply ffw_batch_eval_index.
  apply mapM_batch_element.
Qed.

Lemma tadd_batch_element (x y z : tensor3) b :
  tadd x y = Ok z → tadd (batch_element b x) (batch_element b y) = Ok (batch_element b z).
Proof. intros Hz. by apply zipM_take, zipM_drop. Qed.

Lemma block_forward_batch_element (blk : TransformerBlock F mat vec) l (x y : tensor3) b :
  block_forward false keep blk l x = Ok y →
  block_forward false keep blk l (batch_element b x) = Ok (batch_element b y).
Proof.
  unfold block_forward. intros Hy.
  apply bind_Ok_inv in Hy as (n1 & Hn1 & Hy).
  apply bind_Ok_inv in Hy as (a & Ha & Hy).
  apply bind_Ok_inv in Hy as (x1 & Hx1 & Hy).
  apply bind_Ok_inv in Hy as (n2 & Hn2 & Hy).
  apply bind_Ok_inv in Hy as (f & Hf & Hy).
  rewrite (bind_Ok _ _ _ (mapM_batch_element _ _ _ b Hn1)).
  rewrite (bind_Ok _ _ _ (mha_forward_batch_element _ _ _ _ b Ha)).
  rewrite (bind_Ok _ _ _ (tadd_batch_element _ _ _ b Hx1)).
  rewrite (bind_Ok _ _ _ (mapM_batch_element _ _ _ b Hn2)).
  rewrite (bind_Ok _ _ _ (ffw_forward_batch_element _ _ _ _ b Hf)).
  by apply tadd_batch_element.
Qed.

Lemma run_blocks_batch_element (bs : list (TransformerBlock F mat vec)) l (x y : tensor3) b :
  run_blocks false keep l bs x = Ok y →
  run_blocks false keep l bs (batch_element b x) = Ok (batch_element b y).
Proof.
  revert l x. induction bs as [|blk bs IH]; intros l x; simpl.
  - by intros [= <-].
  - intros Hy. apply bind_Ok_inv in Hy as (x1 & Hx1 & Hy).
    rewrite (bind_Ok _ _ _ (block_forward_batch_element _ _ _ _ b Hx1)). by apply IH.
Qed.

Lemma forward_hidden_batch_element (m : GPT F mat vec) (idx : LongTensor) (x : tensor3) b n :
  forward_hidden false keep m idx = Ok x →
  forward_hidden false keep m
    {| dim0 := n; dim1 := dim1 idx; ldata := batch_element b (ldata idx) |}
    = Ok (batch_element b x).
Proof.
  unfold forward_hidden. cbn [dim1 ldata]. intros Hx.
  apply bind_Ok_inv in Hx as (u & Hu & Hx). rewrite Hu. simpl.
  apply bind_Ok_inv in Hx as (tok & Htok & Hx).
  apply bind_Ok_inv in Hx as (pos & Hpos & Hx).
  apply bind_Ok_inv in Hx as (x0 & Hx0 & Hx).
  apply bind_Ok_inv in Hx as (x1 & Hx1 & Hx).
  rewrite (bind_Ok _ _ _ (mapM_batch_element _ _ _ b Htok)).
  rewrite (bind_Ok _ _ _ Hpos).
  rewrite (bind_Ok _ _ _ (mapM_batch_element _ _ _ b Hx0)).
  rewrite dropout3_eval in Hx1 |- *.
  rewrite (bind_Ok _ _ _ (run_blocks_batch_element _ _ _ _ b Hx1)).
  by apply mapM_batch_element.
Qed.

(** X5. In evaluation mode the logits of a sequence do not depend on the
    other sequences of the batch: run alone, it gets the same logits. *)
Theorem forward_batch_independent (m : GPT F mat vec) (idx : LongTensor)
    (logits : tensor3) (b : nat) (row : list Z) :
  forward false keep m idx None = Ok (logits, None) →
  ldata idx !! b = Some row →
  ∃ lb, logits !! b = Some lb ∧
    forward false keep m {| dim0 := 1; dim1 := dim1 idx; ldata := [row] |} None
      = Ok ([lb], None).
Proof.
  unfold forward. intros Hf Hrow.
  apply bind_Ok_inv in Hf as (x & Hx & Hf).
  apply bind_Ok_inv in Hf as (u & Hu & Hf).
  apply bind_Ok_inv in Hf as (lg & Hlg & Hf). injection Hf as <-.
  assert (length lg = length (ldata idx)) as Hlen.
  { unfold linear in Hlg. apply mapM_Ok_length in Hlg. rewrite length_fmap in Hlg.
    unfold forward_hidden in Hx.
    apply bind_Ok_inv in Hx as (u0 & _ & Hx).
    apply bind_Ok_inv in Hx as (tok & Htok & Hx).
    apply bind_Ok_inv in Hx as (pos & _ & Hx).
    apply bind_Ok_inv in Hx as (x0 & Hx0 & Hx).
    apply bind_Ok_inv in Hx as (x1 & Hx1 & Hx).
    rewrite dropout3_eval in Hx1.
    apply run_blocks_rows in Hx1. apply (f_equal length) in Hx1.
    rewrite !length_fmap in Hx1.
    apply mapM_Ok_length in Htok, Hx0, Hx. congruence. }
  destruct (lookup_lt_is_Some_2 lg b) as [lb Hlb];
    [rewrite Hlen; by eapply lookup_lt_Some|].
  exists lb. split; [done|].
  pose proof (forward_hidden_batch_element m idx x b 1 Hx) as Hx'.
  rewrite (batch_element_lookup _ _ _ Hrow) in Hx'.
  rewrite (bind_Ok _ _ _ Hx'). cbn [dim1]. rewrite Hu. simpl.
  unfold linear in *. apply (mapM_batch_element _ _ _ b) in Hlg.
  rewrite (batch_element_lookup _ _ _ Hlb) in Hlg.
  unfold batch_element in *. rewrite <- fmap_drop, <- fmap_take in Hlg.
  by rewrite Hlg.
Qed.

End EvalMode.

(** ** The parameter count in closed form *)

(** The count as one computes it from the configuration. *)
Definition bias_count (bias : bool) (n : Z) : Z := if bias then n else 0.

Definition block_num_params {F} (c : GPTconfig F) : Z :=
  (* qkv and the attention projection *)
  (3 * n_embd c) * n_embd c + bias_count (a_bias c) (3 * n_embd c) +
  n_embd c * n_embd c + bias_count (a_bias c) (n_embd c) +
  (* c_fc and the feed-forward projection *)
  (n_embd c * ffw_widen c) * n_embd c + bias_count (ffw_bias c) (n_embd c * ffw_widen c) +
  n_embd c * (n_embd c * ffw_widen c) + bias_count (ffw_bias c) (n_embd c) +
  (* ln1 and ln2 *)
  2 * n_embd c + 2 * n_embd c.

Definition model_num_params {F} (c : GPTconfig F) : Z :=
  context_len c * n_embd c +
  n_layer c * block_num_params c +
  2 * n_embd c +
  vocab_size c * n_embd c + bias_count (lm_head_bias c) (vocab_size c).

Section ParameterFormula.
Context {F G : Type} `{Scalar F} `{Sampler G F}.
Implicit Types (hp : heap (F:=F) (G:=G)) (σ : list (tensor F)).

Lemma numel_has_mat σ p r c : has_mat σ p r c → numel_at σ p = (r * c)%nat.
Proof.
  intros (m & Hp & Hr & Hc). unfold numel_at. rewrite Hp. simpl.
  by rewrite (length_concat_const c), Hr.
Qed.

Lemma numel_has_vec σ p n : has_vec σ p n → numel_at σ p = n.
Proof. intros (v & Hp & Hn). unfold numel_at. by rewrite Hp. Qed.

Definition bias_count_nat (bias : bool) (n : nat) : nat := if bias then n else 0%nat.

Lemma sum_linear σ (l : Linear loc loc) bias :
  ok_linear σ l → bias_is bias l →
  sum_list_with (numel_at σ) (tree_locs (MLinear l)) =
    (out_features l * in_features l + bias_count_nat bias (out_features l))%nat.
Proof.
  intros [Hw Hb] Hbias. unfold tree_locs. cbn [own_parameters].
  rewrite app_nil_r. rewrite fmap_cons. cbn [sum_list_with snd].
  rewrite (numel_has_mat _ _ _ _ Hw). f_equal.
  destruct bias; simpl in Hbias.
  - destruct Hbias as [b Eb]. rewrite Eb. simpl.
    rewrite (numel_has_vec _ _ _ (Hb b Eb)). lia.
  - by rewrite Hbias.
Qed.

Lemma sum_layer_norm σ (n : LayerNorm loc) :
  ok_ln σ n →
  sum_list_with (numel_at σ) (tree_locs (MLayerNorm n)) = (2 * normalized_shape n)%nat.
Proof.
  intros [Hw Hb]. simpl.
  rewrite (numel_has_vec _ _ _ Hw), (numel_has_vec _ _ _ Hb). lia.
Qed.

Definition block_num_params_nat (c : GPTconfig F) : nat :=
  let C := Z.to_nat (n_embd c) in
  let W := Z.to_nat (n_embd c * ffw_widen c) in
  (3 * C * C + bias_count_nat (a_bias c) (3 * C) +
   (C * C + bias_count_nat (a_bias c) C) +
   (W * C + bias_count_nat (ffw_bias c) W) +
   (C * W + bias_count_nat (ffw_bias c) C) +
   2 * C + 2 * C)%nat.

Lemma sum_block σ c ctx (b : TransformerBlock F loc loc) :
  wf_block_gen (ok_linear σ) (ok_ln σ) (Z.to_nat (n_embd c)) ctx b →
  block_dims c b →
  sum_list_with (numel_at σ) (tree_locs (block_tree b)) = block_num_params_nat c.
Proof.
  intros (Ha & Hf & Hn1 & Hn1s & Hn2 & Hn2s) (Bq & Bp & Bfc & Bfp & HW).
  destruct Ha as (Hq & Hqi & Hqo & Hp & Hpi & Hpo & _ & _).
  destruct Hf as (Hfc & Hfci & Hfp & Hfpi & Hfpo).
  rewrite tree_locs_block, tree_locs_mha, tree_locs_ffw, !sum_list_with_app.
  rewrite (sum_linear _ _ _ Hq Bq), (sum_linear _ _ _ Hp Bp).
  rewrite (sum_linear _ _ _ Hfc Bfc), (sum_linear _ _ _ Hfp Bfp).
  rewrite (sum_layer_norm _ _ Hn1), (sum_layer_norm _ _ Hn2).
  rewrite Hqi, Hqo, Hpi, Hpo, Hfci, Hfpi, Hfpo, HW, Hn1s, Hn2s.
  unfold block_num_params_nat. lia.
Qed.

Lemma sum_blocks σ c ctx (bs : list (TransformerBlock F loc loc)) :
  Forall (wf_block_gen (ok_linear σ) (ok_ln σ) (Z.to_nat (n_embd c)) ctx) bs →
  Forall (block_dims c) bs →
  sum_list_with (numel_at σ) (concat ((λ b, tree_locs (block_tree b)) <$> bs)) =
    (length bs * block_num_params_nat c)%nat.
Proof.
  induction 1 as [|b bs Hb _ IH]; intros Hd; [done|].
  apply Forall_cons in Hd as [Hd Hds].
  rewrite fmap_cons. cbn [concat length]. rewrite sum_list_with_app.
  rewrite (sum_block _ _ _ _ Hb Hd), (IH Hds). lia.
Qed.

Lemma bias_count_of_nat (bias : bool) (n : Z) :
  0 ≤ n → Z.of_nat (bias_count_nat bias (Z.to_nat n)) = bias_count bias n.
Proof. intros Hn. destruct bias; simpl; lia. Qed.

Lemma block_num_params_of_nat (c : GPTconfig F) :
  0 ≤ n_embd c → 0 ≤ n_embd c * ffw_widen c →
  Z.of_nat (block_num_params_nat c) = block_num_params c.
Proof.
  intros HC HW. unfold block_num_params_nat, block_num_params. cbv zeta.
  rewrite !Nat2Z.inj_add, !Nat2Z.inj_mul.
  replace (3 * Z.to_nat (n_embd c))%nat with (Z.to_nat (3 * n_embd c)) by lia.
  rewrite !bias_count_of_nat by lia. rewrite !Z2Nat.id by lia.
  change (Z.of_nat 2) with 2. change (Z.of_nat 3) with 3. ring.
Qed.

(** The parameters of a constructed model are the tensors of its tree
    other than the token embedding's, which is the output projection's. *)
Lemma parameters_constructed c init_weights hp m hp' :
  GPT_init (PyConfig c) init_weights hp = Ok (m, hp') →
  parameters m ≡ₚ
    emb_weight (wpe m) :: concat ((λ b, tree_locs (block_tree b)) <$> h m) ++
    tree_locs (MLayerNorm (ln_f m)) ++ tree_locs (MLinear (lm_head m)).
Proof.
  intros Hi. apply GPT_init_post in Hi
    as (_ & _ & _ & _ & _ & _ & _ & Htie & hpc & _ & _ & _ & _ & Hlocs & Hin).
  pose proof (tree_locs_gpt m) as Ht. rewrite Hlocs in Ht.
  assert (Hrest : seq (S (length (store hp))) (length (store hpc) - S (length (store hp))) =
            emb_weight (wpe m) :: concat ((λ b, tree_locs (block_tree b)) <$> h m) ++
            tree_locs (MLayerNorm (ln_f m)) ++ tree_locs (MLinear (lm_head m)))
    by exact (f_equal tail Ht).
  apply NoDup_Permutation.
  - apply parameters_NoDup.
  - rewrite <- Hrest. apply NoDup_seq.
  - intros p. rewrite elem_of_parameters, Hlocs, <- Hrest, elem_of_cons.
    split; [intros [->|?]; done | by right].
Qed.

(** X6. [get_num_params] of a constructed model is the sum, over the layers
    the configuration asks for, of their weight and bias sizes; the tied
    tensor counts once, and the default count leaves out the position
    embedding. *)
Theorem get_num_params_formula c init_weights hp m hp' σ :
  GPT_init (PyConfig c) init_weights hp = Ok (m, hp') → extends (store hp') σ →
  get_num_params m σ false = model_num_params c ∧
  get_num_params m σ true = model_num_params c - context_len c * n_embd c.
Proof.
  intros Hi Hext.
  pose proof (parameters_constructed _ _ _ _ _ Hi) as Hperm.
  pose proof (GPT_init_dims _ _ _ _ _ Hi) as [Hdims Hlmb].
  apply GPT_init_post in Hi
    as (_ & Hnl & Hv & (_ & HC & Hctx & HW & _) & _ & Hlen & Hwf & _).
  apply (wf_gpt_gen_extends _ _ _ _ _ _ Hext) in Hwf.
  destruct Hwf as (_ & _ & _ & _ & _ & _ & Hpe & Hpen & Hped & Hbs & Hlnf & Hlnfs &
                   Hlm & Hlmi & Hlmo).
  assert (numel_at σ (emb_weight (wpe m)) =
            (Z.to_nat (context_len c) * Z.to_nat (n_embd c))%nat) as Hwpe.
  { rewrite (numel_has_mat _ _ _ _ Hpe). by rewrite Hpen, Hped. }
  assert (Z.of_nat (sum_list (numel_at σ <$> parameters m)) = model_num_params c) as Hsum.
  { rewrite sum_list_fmap_with, Hperm. cbn [sum_list_with].
    rewrite !sum_list_with_app, Hwpe.
    rewrite (sum_blocks _ c _ _ Hbs Hdims), (sum_layer_norm _ _ Hlnf).
    rewrite (sum_linear _ _ _ Hlm Hlmb), Hlen, Hlnfs, Hlmi, Hlmo.
    unfold model_num_params.
    rewrite !Nat2Z.inj_add, !Nat2Z.inj_mul, block_num_params_of_nat by done.
    rewrite bias_count_of_nat by lia. rewrite !Z2Nat.id by lia.
    change (Z.of_nat 2) with 2. ring. }
  unfold get_num_params. rewrite Hsum, Hwpe.
  rewrite Nat2Z.inj_mul, !Z2Nat.id by lia. done.
Qed.

End ParameterFormula.

(** ** What [_init_weights] leaves in the other parameters *)

(** The last character of a name tells a weight from a bias. *)
Fixpoint last_char (s : string) : option Ascii.ascii :=
  match s with
  | EmptyString => None
  | String c EmptyString => Some c
  | String _ rest => last_char rest
  end.

(** The parameter a module's own initialisation draws, and the one it
    zeroes. *)
Definition init_weight_of (md : module) : option loc :=
  match md with
  | MLinear l => Some (lin_weight l)
  | MEmbedding e => Some (emb_weight e)
  | _ => None
  end.

Definition init_bias_of (md : module) : option loc :=
  match md with
  | MLinear l => lin_bias l
  | _ => None
  end.

Definition filled_with {F} (x : F) (t : tensor F) : Prop :=
  match t with
  | T1 v => Forall (eq x) v
  | T2 m => Forall (Forall (eq x)) m
  end.

Section NameFacts.

Lemma last_char_cons (c : Ascii.ascii) (s : string) :
  s ≠ "" → last_char (String c s) = last_char s.
Proof. by destruct s. Qed.

Lemma last_char_app (s t : string) : t ≠ "" → last_char (s +:+ t) = last_char t.
Proof.
  intros Ht. induction s as [|c s IH]; [done|].
  rewrite string_app_cons, last_char_cons; [done|].
  destruct s; [done|]. by rewrite string_app_cons.
Qed.

Lemma last_char_join (q x : string) : x ≠ "" → last_char (join_name q x) = last_char x.
Proof.
  intros Hx. unfold join_name. case_decide; [done|].
  rewrite last_char_app by (cbv; discriminate). by apply (last_char_app ".").
Qed.

Lemma endswith_inv (n suf : string) : endswith n suf = true → ∃ pre, n = pre +:+ suf.
Proof.
  induction n as [|c n IH].
  - destruct suf; [by exists ""|done].
  - change (endswith (String c n) suf)
      with (if String.eqb (String c n) suf then true else endswith n suf).
    destruct (String.eqb_spec (String c n) suf) as [<-|_]; [by exists ""|].
    intros [pre ->]%IH. by exists (String c pre).
Qed.

Lemma endswith_last_char (n suf : string) :
  suf ≠ "" → endswith n suf = true → last_char n = last_char suf.
Proof. intros Hs [pre ->]%endswith_inv. by apply last_char_app. Qed.

(** A name that ends in a different text of at least the same length
    does not end in [suf]. *)
Lemma endswith_app_false (q t suf : string) :
  (String.length suf ≤ String.length t)%nat → endswith t suf = false →
  endswith (q +:+ t) suf = false.
Proof.
  intros Hlen Ht. induction q as [|c q IH]; [done|].
  rewrite string_app_cons.
  change (endswith (String c (q +:+ t)) suf)
    with (if String.eqb (String c (q +:+ t)) suf then true else endswith (q +:+ t) suf).
  destruct (String.eqb_spec (String c (q +:+ t)) suf) as [<-|_]; [|exact IH].
  exfalso. simpl in Hlen.
  assert (String.length t ≤ String.length (q +:+ t))%nat; [|lia].
  clear. induction q as [|c q IH]; [done|]. rewrite string_app_cons. simpl. lia.
Qed.

Lemma remove_duplicate_sub seen (ps : list (string * loc)) np :
  np ∈ remove_duplicate seen ps → np ∈ ps.
Proof.
  revert seen. induction ps as [|[n p] ps IH]; intros seen; simpl; [done|].
  case_decide.
  - intros Hin. right. by eapply IH.
  - intros [->|Hin]%elem_of_cons; [left|right; by eapply IH].
Qed.

(** Every module [apply] visits has its own parameters among the named
    parameters, under the module's qualified name. *)
Lemma apply_order_entries (tree : module) :
  ∀ prefix md, md ∈ apply_order tree →
  ∃ q, ∀ np, np ∈ own_parameters md →
    (join_name q np.1, np.2) ∈ named_parameters_all prefix tree.
Proof.
  induction tree as [l|e|n| |cs IH] using module_induction; intros prefix md Hmd.
  1-4: apply list_elem_of_singleton in Hmd as ->; exists prefix; intros np Hnp;
       cbn [named_parameters_all]; rewrite app_nil_r;
       by apply (list_elem_of_fmap_2 (λ np : string * loc, (join_name prefix np.1, np.2))).
  cbn [apply_order] in Hmd. apply elem_of_app in Hmd as [Hmd|Hmd].
  - apply elem_of_concat in Hmd as (lst & Hlst & Hmd).
    apply list_elem_of_fmap in Hlst as ([cname child] & -> & Hc).
    rewrite Forall_forall in IH.
    destruct (IH _ Hc (join_name prefix cname) md Hmd) as [q Hq].
    exists q. intros np Hnp. eapply named_in_node; [exact Hc|]. by apply Hq.
  - apply list_elem_of_singleton in Hmd as ->. exists prefix. intros np Hnp.
    by apply elem_of_nil in Hnp.
Qed.

End NameFacts.

Section InitValues.
Context {F G : Type} `{Scalar F} `{Sampler G F}.
Implicit Types (hp : heap (F:=F) (G:=G)).

(** In a constructed model every name of a parameter ends in the same
    character: the only parameter with two names is the tied weight. *)
Lemma names_last_char (c : GPTconfig F) (init_weights : bool) hp m hp' n1 n2 p :
  GPT_init (PyConfig c) init_weights hp = Ok (m, hp') →
  (n1, p) ∈ named_parameters_all "" (gpt_tree m) →
  (n2, p) ∈ named_parameters_all "" (gpt_tree m) →
  last_char n1 = last_char n2.
Proof.
  intros Hi H1 H2.
  apply GPT_init_post in Hi
    as (_ & _ & _ & _ & _ & _ & _ & Htie & hpc & _ & _ & _ & _ & Hlocs & _).
  destruct (named_head m) as (rest & Hraw).
  pose proof (named_parameters_all_locs "" (gpt_tree m)) as Hsnd.
  rewrite Hlocs, Hraw, fmap_cons in Hsnd. injection Hsnd as _ Hrest.
  assert (Hnd : NoDup rest.*2) by (rewrite Hrest; apply NoDup_seq).
  pose proof (named_lm_head m) as Hlm. rewrite Hraw in Hlm, H1, H2.
  apply elem_of_cons in Hlm as [[=]|Hlm].
  apply elem_of_cons in H1 as [H1|H1]; apply elem_of_cons in H2 as [H2|H2].
  - congruence.
  - injection H1 as -> ->. rewrite Htie in H2.
    by rewrite (NoDup_snd_unique rest _ _ _ Hnd Hlm H2).
  - injection H2 as -> ->. rewrite Htie in H1.
    by rewrite (NoDup_snd_unique rest _ _ _ Hnd Hlm H1).
  - by rewrite (NoDup_snd_unique rest _ _ _ Hnd H1 H2).
Qed.

Lemma weight_entry (m : GPT F loc loc) (md : module) w :
  md ∈ apply_order (gpt_tree m) → init_weight_of md = Some w →
  ∃ n, (n, w) ∈ named_parameters_all "" (gpt_tree m) ∧ last_char n = last_char "weight".
Proof.
  intros Hmd Hw. destruct (apply_order_entries _ "" md Hmd) as [q Hq].
  exists (join_name q "weight"). split; [|by apply last_char_join].
  destruct md as [l|e|n| |cs]; simpl in Hw; try done; injection Hw as <-.
  - apply (Hq ("weight", lin_weight l)). left.
  - apply (Hq ("weight", emb_weight e)). left.
Qed.

Lemma bias_entry (m : GPT F loc loc) (md : module) b :
  md ∈ apply_order (gpt_tree m) → init_bias_of md = Some b →
  ∃ n, (n, b) ∈ named_parameters_all "" (gpt_tree m) ∧ last_char n = last_char "bias".
Proof.
  intros Hmd Hb. destruct (apply_order_entries _ "" md Hmd) as [q Hq].
  exists (join_name q "bias"). split; [|by apply last_char_join].
  destruct md as [l|e|n| |cs]; simpl in Hb; try done.
  apply (Hq ("bias", b)). simpl. rewrite Hb. right. left.
Qed.

(** No weight is some layer's bias. *)
Lemma weight_ne_bias (c : GPTconfig F) (init_weights : bool) hp m hp' md md' p :
  GPT_init (PyConfig c) init_weights hp = Ok (m, hp') →
  md ∈ apply_order (gpt_tree m) → md' ∈ apply_order (gpt_tree m) →
  init_weight_of md = Some p → init_bias_of md' = Some p → False.
Proof.
  intros Hi Hmd Hmd' Hw Hb.
  destruct (weight_entry m md p Hmd Hw) as (n1 & H1 & Hc1).
  destruct (bias_entry m md' p Hmd' Hb) as (n2 & H2 & Hc2).
  pose proof (names_last_char _ _ _ _ _ _ _ _ Hi H1 H2) as Heq.
  rewrite Hc1, Hc2 in Heq. discriminate Heq.
Qed.

(** A bias is not named like a projection weight. *)
Lemma bias_not_proj (c : GPTconfig F) (init_weights : bool) hp m hp' md b n :
  GPT_init (PyConfig c) init_weights hp = Ok (m, hp') →
  md ∈ apply_order (gpt_tree m) → init_bias_of md = Some b →
  (n, b) ∈ named_parameters m → endswith n "proj.weight" = false.
Proof.
  intros Hi Hmd Hb Hn. apply remove_duplicate_sub in Hn.
  destruct (bias_entry m md b Hmd Hb) as (n2 & H2 & Hc2).
  pose proof (names_last_char _ _ _ _ _ _ _ _ Hi Hn H2) as Heq.
  destruct (endswith n "proj.weight") eqn:He; [|done].
  apply endswith_last_char in He; [|done]. rewrite He, Hc2 in Heq. discriminate Heq.
Qed.

(** The loop over the named parameters leaves alone what is not named
    like a projection weight. *)
Lemma rescale_frame (c : GPTconfig F) (nps : list (string * loc)) hp hp' p :
  for_each (rescale_proj c) nps hp = Ok ((), hp') →
  (∀ n, (n, p) ∈ nps → endswith n "proj.weight" = false) →
  store hp' !! p = store hp !! p.
Proof.
  revert hp. induction nps as [|[n0 q] nps IH]; intros hp Hloop Hp.
  - by injection Hloop as <-.
  - simpl in Hloop. apply ctor_bind_inv in Hloop as ([] & hp1 & Hstep & Hloop).
    rewrite (IH hp1 Hloop); [|intros n Hn; apply Hp; by right].
    unfold rescale_proj in Hstep. simpl in Hstep.
    destruct (endswith n0 "proj.weight") eqn:E0.
    + apply ctor_bind_inv in Hstep as ([] & ? & [_ ->]%guard_inv & Hstep).
      apply ctor_bind_inv in Hstep as ([] & ? & [_ ->]%guard_inv & Hstep).
      destruct (fill__post (normal1 Fzero (proj_std c)) q hp)
        as (hp1' & Hf & _ & _ & Hother).
      unfold normal_ in Hstep. rewrite Hf in Hstep. injection Hstep as ->.
      apply Hother. intros ->. specialize (Hp n0 ltac:(left)). congruence.
    + by apply ctor_ret_inv in Hstep as [_ ->].
Qed.

(** One visit of [apply]: when every write the module's own
    initialisation makes to [p] leaves a tensor with property [P], the
    visit establishes [P] at [p] if it writes there, and keeps it
    otherwise. *)
Lemma _init_weights_visit (P : tensor F → Prop) (m : GPT F loc loc) md hp hp' p :
  (∀ n, (n, p) ∈ named_parameters m → endswith n "proj.weight" = false) →
  (init_weight_of md = Some p → init_bias_of md ≠ Some p →
   ∀ t (g : G), P (refill (normal1 Fzero init_std) t g).1) →
  (init_bias_of md = Some p → ∀ t (g : G), P (refill (const_draw Fzero) t g).1) →
  _init_weights m md hp = Ok ((), hp') →
  (p < length (store hp))%nat →
  init_weight_of md = Some p ∨ init_bias_of md = Some p ∨
    (∃ t, store hp !! p = Some t ∧ P t) →
  ∃ t, store hp' !! p = Some t ∧ P t.
Proof.
  intros Hnp Hw Hb Hv Hlt Hpre. unfold _init_weights in Hv.
  apply ctor_bind_inv in Hv as ([] & hp1 & Hown & Hloop).
  rewrite (rescale_frame _ _ _ _ p Hloop Hnp). clear Hloop.
  destruct (lookup_lt_is_Some_2 _ _ Hlt) as [t0 Ht0].
  destruct md as [l|e|n| |cs]; simpl in *.
  - apply ctor_bind_inv in Hown as ([] & hp2 & Hn & Hz).
    destruct (fill__post (normal1 Fzero init_std) (lin_weight l) hp)
      as (hp2' & Hf & [_ Hlen] & Hq & Hother).
    unfold normal_ in Hn. rewrite Hf in Hn. injection Hn as ->.
    destruct (lin_bias l) as [b|] eqn:Eb.
    + destruct (fill__post (const_draw Fzero) b hp2) as (hp1' & Hf2 & _ & Hq2 & Hother2).
      unfold zeros_ in Hz. rewrite Hf2 in Hz. injection Hz as ->.
      destruct (decide (p = b)) as [->|Hpb].
      * assert (is_Some (store hp2 !! b)) as [t2 Ht2]
          by (apply lookup_lt_is_Some_2; lia).
        destruct (Hq2 t2 Ht2) as [g Hg]. eexists. split; [exact Hg|]. by apply Hb.
      * rewrite (Hother2 p Hpb).
        destruct (decide (p = lin_weight l)) as [->|Hpw].
        -- destruct (Hq t0 Ht0) as [g Hg]. eexists. split; [exact Hg|].
           apply Hw; [done|]. intros [= Heq]. by apply Hpb.
        -- rewrite (Hother p Hpw).
           destruct Hpre as [[= Heq]|[[= Heq]|Hpre]]; [by destruct Hpw|by destruct Hpb|done].
    + apply ctor_ret_inv in Hz as [_ ->].
      destruct (decide (p = lin_weight l)) as [->|Hpw].
      * destruct (Hq t0 Ht0) as [g Hg]. eexists. split; [exact Hg|]. by apply Hw.
      * rewrite (Hother p Hpw).
        destruct Hpre as [[= Heq]|[[=]|Hpre]]; [by destruct Hpw|done].
  - destruct (fill__post (normal1 Fzero init_std) (emb_weight e) hp)
      as (hp2' & Hf & _ & Hq & Hother).
    unfold normal_ in Hown. rewrite Hf in Hown. injection Hown as ->.
    destruct (decide (p = emb_weight e)) as [->|Hpw].
    + destruct (Hq t0 Ht0) as [g Hg]. eexists. split; [exact Hg|]. by apply Hw.
    + rewrite (Hother p Hpw).
      destruct Hpre as [[= Heq]|[[=]|Hpre]]; [by destruct Hpw|done].
  - apply ctor_ret_inv in Hown as [_ ->]. by destruct Hpre as [[=]|[[=]|?]].
  - apply ctor_ret_inv in Hown as [_ ->]. by destruct Hpre as [[=]|[[=]|?]].
  - apply ctor_ret_inv in Hown as [_ ->]. by destruct Hpre as [[=]|[[=]|?]].
Qed.

(** All the visits of [apply]. *)
Lemma apply_visits (P : tensor F → Prop) (m : GPT F loc loc) (mods : list module)
    hp hp' p :
  0 < n_layer (config m) →
  (∀ n, (n, p) ∈ named_parameters m → endswith n "proj.weight" = false) →
  (∀ md, md ∈ mods → init_weight_of md = Some p → init_bias_of md ≠ Some p →
     ∀ t (g : G), P (refill (normal1 Fzero init_std) t g).1) →
  (∀ md, md ∈ mods → init_bias_of md = Some p →
     ∀ t (g : G), P (refill (const_draw Fzero) t g).1) →
  for_each (_init_weights m) mods hp = Ok ((), hp') →
  (p < length (store hp))%nat →
  (∃ md, md ∈ mods ∧ (init_weight_of md = Some p ∨ init_bias_of md = Some p)) ∨
    (∃ t, store hp !! p = Some t ∧ P t) →
  ∃ t, store hp' !! p = Some t ∧ P t.
Proof.
  intros Hnl Hnp. revert hp.
  induction mods as [|md mods IH]; intros hp Hw Hb Hall Hlt Hpre.
  - injection Hall as <-. destruct Hpre as [(md & Hmd & _)|?]; [|done].
    by apply elem_of_nil in Hmd.
  - simpl in Hall. apply ctor_bind_inv in Hall as ([] & hp1 & Hv & Hall).
    destruct (_init_weights_post m md hp Hnl) as (hp1' & Hv' & [_ Hlen]).
    rewrite Hv in Hv'. injection Hv' as <-.
    apply (IH hp1); [intros; eapply Hw; by try right|intros; eapply Hb; by try right|
                     done|lia|].
    destruct Hpre as [(md' & [->|Hin]%elem_of_cons & Hmd')|Hpre].
    + right. eapply (_init_weights_visit P m md hp hp1 p); try done.
      * apply Hw. left.
      * apply Hb. left.
      * destruct Hmd'; auto.
    + left. eauto.
    + destruct (decide (init_weight_of md = Some p ∨ init_bias_of md = Some p))
        as [Hmd|Hmd].
      * right. eapply (_init_weights_visit P m md hp hp1 p); try done.
        -- apply Hw. left.
        -- apply Hb. left.
        -- destruct Hmd; auto.
      * right. eapply (_init_weights_visit P m md hp hp1 p); try done.
        -- intros Hc. destruct Hmd. by left.
        -- intros Hc. destruct Hmd. by right.
        -- by do 2 right.
Qed.

Lemma fill_const (x : F) (n : nat) (g : G) : fill (const_draw x) n g = (replicate n x, g).
Proof. induction n as [|n IH]; simpl; [done|]. by rewrite IH. Qed.

Lemma fill_rows_const (x : F) (lens : list nat) (g : G) :
  fill_rows (const_draw x) lens g = ((λ n, replicate n x) <$> lens, g).
Proof. induction lens as [|n lens IH]; simpl; [done|]. by rewrite fill_const, IH. Qed.

Lemma refill_const_filled (x : F) (t : tensor F) (g : G) :
  filled_with x (refill (const_draw x) t g).1.
Proof.
  destruct t as [v|m]; simpl.
  - rewrite fill_const. simpl. apply Forall_replicate. done.
  - rewrite fill_rows_const. simpl. apply Forall_fmap, Forall_true.
    intros n. by apply Forall_replicate.
Qed.

(** The parameters of the modules [apply] visits are allocated. *)
Lemma visited_allocated (c : GPTconfig F) (init_weights : bool) hp m hp' p n :
  GPT_init (PyConfig c) init_weights hp = Ok (m, hp') →
  (n, p) ∈ named_parameters_all "" (gpt_tree m) →
  ∃ hpc, (if init_weights then apply_init_weights m hpc = Ok ((), hp') else hp' = hpc) ∧
         (p < length (store hpc))%nat.
Proof.
  intros Hi Hn. apply GPT_init_post in Hi
    as (_ & _ & _ & _ & _ & _ & _ & _ & hpc & Hap & _ & _ & Hlt & Hlocs & Hin).
  exists hpc. split; [done|].
  assert (Hpl : p ∈ tree_locs (gpt_tree m)).
  { rewrite <- (named_parameters_all_locs ""). by apply (list_elem_of_fmap_2 snd _ (n, p)). }
  rewrite Hlocs in Hpl. apply elem_of_seq in Hin.
  apply elem_of_cons in Hpl as [->|Hpl%elem_of_seq]; lia.
Qed.

(** X8. After construction with weight initialisation the bias of every
    linear layer of the model is zero: [zeros_] is the last write to it,
    no [normal_] reaches it. *)
Theorem linear_biases_zero (c : GPTconfig F) hp m hp' (l : Linear loc loc) (b : loc) :
  GPT_init (PyConfig c) true hp = Ok (m, hp') →
  MLinear l ∈ apply_order (gpt_tree m) → lin_bias l = Some b →
  ∃ t, store hp' !! b = Some t ∧ filled_with (Fof_Z 0) t.
Proof.
  intros Hi Hl Hb.
  destruct (bias_entry m (MLinear l) b Hl Hb) as (n & Hn & _).
  destruct (visited_allocated _ _ _ _ _ _ _ Hi Hn) as (hpc & Hap & Hlt).
  pose proof (GPT_init_post _ _ _ _ _ Hi) as (_ & Hnl & _ & _ & Hcfg & _).
  eapply (apply_visits (filled_with Fzero) m _ hpc hp' b); [by rewrite Hcfg| | | |exact Hap|
    exact Hlt|].
  - intros n' Hn'. by eapply (bias_not_proj _ _ _ _ _ (MLinear l)).
  - intros md Hmd Hw _. exfalso. by eapply (weight_ne_bias _ _ _ _ _ md (MLinear l)).
  - intros md _ _ t g. apply refill_const_filled.
  - left. exists (MLinear l). auto.
Qed.

(** A weight of a linear layer or an embedding that has no name ending in
    [proj.weight] is left with draws of standard deviation [0.02]. *)
Lemma weights_normal_by_name (c : GPTconfig F) hp m hp' (md : module) (w : loc) :
  GPT_init (PyConfig c) true hp = Ok (m, hp') →
  md ∈ apply_order (gpt_tree m) → init_weight_of md = Some w →
  (∀ n, (n, w) ∈ named_parameters m → endswith n "proj.weight" = false) →
  ∃ t, store hp' !! w = Some t ∧
       drawn_normal (Fof_Z 0) (Fdiv (Fof_Z 2) (Fof_Z 100)) t.
Proof.
  intros Hi Hmd Hw Hnp.
  destruct (weight_entry m md w Hmd Hw) as (n & Hn & _).
  destruct (visited_allocated _ _ _ _ _ _ _ Hi Hn) as (hpc & Hap & Hlt).
  pose proof (GPT_init_post _ _ _ _ _ Hi) as (_ & Hnl & _ & _ & Hcfg & _).
  eapply (apply_visits (drawn_normal Fzero init_std) m _ hpc hp' w);
    [by rewrite Hcfg|exact Hnp| | |exact Hap|exact Hlt|].
  - intros md' _ _ _ t g. apply refill_drawn_normal.
  - intros md' Hmd' Hb. exfalso. by eapply (weight_ne_bias _ _ _ _ _ md md').
  - left. exists md. auto.
Qed.

Lemma apply_order_child (cname : string) (child : module) (cs : list (string * module)) md :
  (cname, child) ∈ cs → md ∈ apply_order child → md ∈ apply_order (MNode cs).
Proof.
  intros Hc Hmd. cbn [apply_order]. apply elem_of_app. left.
  apply elem_of_concat. exists (apply_order child). split; [|done].
  by apply (list_elem_of_fmap_2 (λ c : string * module, apply_order c.2) _ (cname, child)).
Qed.

Lemma apply_order_self (md : module) : md ∈ apply_order md.
Proof.
  destruct md; cbn [apply_order]; try apply list_elem_of_singleton; try done.
  apply elem_of_app. right. by apply list_elem_of_singleton.
Qed.

(** In a constructed model a parameter has one name, or it is the tied
    weight under its two names. *)
Lemma names_tied (c : GPTconfig F) (init_weights : bool) hp m hp' n1 n2 p :
  GPT_init (PyConfig c) init_weights hp = Ok (m, hp') →
  (n1, p) ∈ named_parameters_all "" (gpt_tree m) →
  (n2, p) ∈ named_parameters_all "" (gpt_tree m) →
  n1 = n2 ∨ (n1 ∈ ["transformer.wte.weight"; "lm_head.weight"] ∧
             n2 ∈ ["transformer.wte.weight"; "lm_head.weight"]).
Proof.
  intros Hi H1 H2.
  apply GPT_init_post in Hi
    as (_ & _ & _ & _ & _ & _ & _ & Htie & hpc & _ & _ & _ & _ & Hlocs & _).
  destruct (named_head m) as (rest & Hraw).
  pose proof (named_parameters_all_locs "" (gpt_tree m)) as Hsnd.
  rewrite Hlocs, Hraw, fmap_cons in Hsnd. injection Hsnd as _ Hrest.
  assert (Hnd : NoDup rest.*2) by (rewrite Hrest; apply NoDup_seq).
  pose proof (named_lm_head m) as Hlm. rewrite Hraw in Hlm, H1, H2.
  apply elem_of_cons in Hlm as [[=]|Hlm].
  apply elem_of_cons in H1 as [H1|H1]; apply elem_of_cons in H2 as [H2|H2].
  - left. congruence.
  - injection H1 as -> ->. rewrite Htie in H2.
    rewrite (NoDup_snd_unique rest _ _ _ Hnd Hlm H2). right.
    split; [left | right; left].
  - injection H2 as -> ->. rewrite Htie in H1.
    rewrite (NoDup_snd_unique rest _ _ _ Hnd Hlm H1). right.
    split; [right; left | left].
  - left. by rewrite (NoDup_snd_unique rest _ _ _ Hnd H1 H2).
Qed.

Lemma not_proj_by_entry (c : GPTconfig F) (init_weights : bool) hp m hp' n0 p :
  GPT_init (PyConfig c) init_weights hp = Ok (m, hp') →
  (n0, p) ∈ named_parameters_all "" (gpt_tree m) →
  endswith n0 "proj.weight" = false →
  ∀ n, (n, p) ∈ named_parameters m → endswith n "proj.weight" = false.
Proof.
  intros Hi Hn0 He n Hn. apply remove_duplicate_sub in Hn.
  destruct (names_tied _ _ _ _ _ _ _ _ Hi Hn Hn0) as [->|[Hn' _]]; [done|].
  apply elem_of_cons in Hn' as [->|Hn']; [done|].
  apply list_elem_of_singleton in Hn' as ->. done.
Qed.

Lemma join_name_app (q x : string) : q ≠ "" → join_name q x = q +:+ ("." +:+ x).
Proof. intros Hq. unfold join_name. by rewrite decide_False. Qed.

(** The weight of a layer called [qkv] or [c_fc] is not named like a
    projection weight. *)
Lemma layer_weight_not_proj (q a : string) :
  a = "qkv" ∨ a = "c_fc" →
  endswith (join_name (join_name q a) "weight") "proj.weight" = false.
Proof.
  intros Ha. destruct (decide (q = "")) as [->|Hq].
  - by destruct Ha as [-> | ->].
  - rewrite (join_name_app (join_name q a))
      by (apply join_name_nonempty; by destruct Ha as [-> | ->]).
    rewrite (join_name_app q) by done. rewrite string_app_assoc.
    destruct Ha as [-> | ->]; (apply endswith_app_false; [apply Nat.leb_le | ]; by vm_compute).
Qed.

(** Where the weights of a block's [qkv] and [c_fc] layers are visited
    and named. *)
Lemma block_layers (m : GPT F loc loc) (blk : TransformerBlock F loc loc) :
  blk ∈ h m →
  (MLinear (qkv (multi_head_sa blk)) ∈ apply_order (gpt_tree m) ∧
   ∃ n, (n, lin_weight (qkv (multi_head_sa blk))) ∈ named_parameters_all "" (gpt_tree m) ∧
        endswith n "proj.weight" = false) ∧
  (MLinear (c_fc (ffw blk)) ∈ apply_order (gpt_tree m) ∧
   ∃ n, (n, lin_weight (c_fc (ffw blk))) ∈ named_parameters_all "" (gpt_tree m) ∧
        endswith n "proj.weight" = false).
Proof.
  intros [i Hi]%list_elem_of_lookup.
  set (P2 := join_name (join_name (join_name "" "transformer") "h") (pretty i)).
  assert (Hin : (pretty i, block_tree blk) ∈ imap (λ i b, (pretty i, block_tree b)) (h m))
    by (by apply (elem_of_lookup_imap_2 (λ i b, (pretty i, block_tree b)) (h m) blk i)).
  assert (Hvisit : ∀ md, md ∈ apply_order (block_tree blk) →
                         md ∈ apply_order (gpt_tree m)).
  { intros md Hmd. unfold gpt_tree.
    eapply (apply_order_child "transformer"); [left|].
    eapply (apply_order_child "h"); [do 3 right; left|].
    by eapply (apply_order_child (pretty i) (block_tree blk)). }
  assert (Hblock : ∀ e, e ∈ named_parameters_all P2 (block_tree blk) →
                        e ∈ named_parameters_all "" (gpt_tree m)).
  { intros e He. unfold gpt_tree.
    eapply (named_in_node "" "transformer"); [left|].
    eapply (named_in_node _ "h"); [do 3 right; left|].
    by eapply (named_in_node _ (pretty i) _ (block_tree blk)). }
  split; (split; [apply Hvisit; unfold block_tree|]).
  - eapply (apply_order_child "multi_head_sa"); [left|]. unfold mha_tree.
    eapply (apply_order_child "qkv"); [left|]. apply apply_order_self.
  - exists (join_name (join_name (join_name P2 "multi_head_sa") "qkv") "weight").
    split; [|apply layer_weight_not_proj; by left].
    apply Hblock. unfold block_tree.
    eapply (named_in_node _ "multi_head_sa"); [left|]. unfold mha_tree.
    eapply (named_in_node _ "qkv"); [left|]. apply named_linear_weight.
  - eapply (apply_order_child "ffw"); [right; left|]. unfold ffw_tree.
    eapply (apply_order_child "c_fc"); [left|]. apply apply_order_self.
  - exists (join_name (join_name (join_name P2 "ffw") "c_fc") "weight").
    split; [|apply layer_weight_not_proj; by right].
    apply Hblock. unfold block_tree.
    eapply (named_in_node _ "ffw"); [right; left|]. unfold ffw_tree.
    eapply (named_in_node _ "c_fc"); [left|]. apply named_linear_weight.
Qed.

Lemma named_wpe (m : GPT F loc loc) :
  ("transformer.wpe.weight", emb_weight (wpe m)) ∈ named_parameters_all "" (gpt_tree m).
Proof.
  unfold gpt_tree. eapply (named_in_node "" "transformer"); [left|].
  eapply (named_in_node _ "wpe"); [right; left|].
  cbn [named_parameters_all own_parameters]. rewrite app_nil_r, fmap_cons. left.
Qed.

(** X9. After construction with weight initialisation, the token embedding
    (which is the output projection), the position embedding, and in every
    block the [qkv] and [c_fc] weights hold draws of [normal_] with mean
    [0] and standard deviation [0.02]: the rescaled draw is for the
    projections only. *)
Theorem weights_normal (c : GPTconfig F) hp m hp' (p : loc) :
  GPT_init (PyConfig c) true hp = Ok (m, hp') →
  p = emb_weight (wte m) ∨ p = lin_weight (lm_head m) ∨ p = emb_weight (wpe m) ∨
  (∃ blk, blk ∈ h m ∧
     (p = lin_weight (qkv (multi_head_sa blk)) ∨ p = lin_weight (c_fc (ffw blk)))) →
  ∃ t, store hp' !! p = Some t ∧
       drawn_normal (Fof_Z 0) (Fdiv (Fof_Z 2) (Fof_Z 100)) t.
Proof.
  intros Hi Hp.
  assert (∃ md n0, md ∈ apply_order (gpt_tree m) ∧ init_weight_of md = Some p ∧
                   (n0, p) ∈ named_parameters_all "" (gpt_tree m) ∧
                   endswith n0 "proj.weight" = false) as (md & n0 & Hmd & Hw & Hn0 & He).
  { destruct Hp as [->|[->|[->|(blk & Hblk & Hp)]]].
    - exists (MEmbedding (wte m)), "transformer.wte.weight". split_and!; try done.
      + unfold gpt_tree. eapply (apply_order_child "transformer"); [left|].
        eapply (apply_order_child "wte"); [left|]. apply apply_order_self.
      + destruct (named_head m) as [rest ->]. left.
    - exists (MLinear (lm_head m)), "lm_head.weight". split_and!; try done.
      + unfold gpt_tree. eapply (apply_order_child "lm_head"); [right; left|].
        apply apply_order_self.
      + apply named_lm_head.
    - exists (MEmbedding (wpe m)), "transformer.wpe.weight". split_and!; try done.
      + unfold gpt_tree. eapply (apply_order_child "transformer"); [left|].
        eapply (apply_order_child "wpe"); [right; left|]. apply apply_order_self.
      + apply named_wpe.
    - destruct (block_layers m blk Hblk) as [(Hq & nq & Hnq & Heq) (Hf & nf & Hnf & Hef)].
      destruct Hp as [-> | ->]; [exists (MLinear (qkv (multi_head_sa blk))), nq
                                |exists (MLinear (c_fc (ffw blk))), nf]; done. }
  eapply weights_normal_by_name; [exact Hi|exact Hmd|exact Hw|].
  by eapply not_proj_by_entry.
Qed.

End InitValues.

(** ** The further properties on the executable instance *)

(** A batch with a token outside the vocabulary, targets with a class
    outside it, targets of another size, and a batch of two sequences. *)
Definition batch_bad_token : LongTensor := {| dim0 := 1; dim1 := 3; ldata := [[0; 7; 2]] |}.
Definition targets_bad_class : LongTensor := {| dim0 := 1; dim1 := 3; ldata := [[1; -2; 2]] |}.
Definition targets_short : LongTensor := {| dim0 := 1; dim1 := 2; ldata := [[1; 2]] |}.
Definition batch_pair : LongTensor :=
  {| dim0 := 2; dim1 := 3; ldata := [[0; 1; 2]; [2; 1; 0]] |}.

(** The tiny configuration with a bias on the output projection, and the
    model and heap its construction gives. *)
Definition biased_config : GPTconfig ZInf.t := {|
  context_len := 3; vocab_size := 3; n_embd := 2; n_head := 1; n_layer := 1;
  dropout := Some 0; ffw_widen := 1;
  a_bias := false; ffw_bias := false; lm_head_bias := true;
|}.

Definition biased_model : GPT ZInf.t loc loc :=
  Eval vm_compute in
    match GPT_init (PyConfig biased_config) true ZInf.empty_heap with
    | Ok (m, _) => m
    | Err _ => ZInf.tiny_model
    end.

Definition biased_heap : heap (F:=ZInf.t) (G:=Z) :=
  Eval vm_compute in
    match GPT_init (PyConfig biased_config) true ZInf.empty_heap with
    | Ok (_, hp) => hp
    | Err _ => ZInf.empty_heap
    end.

Definition logits_pair : list (list (list ZInf.t)) :=
  Eval vm_compute in
    match forward false ZInf.no_keep (load_gpt (store ZInf.tiny_heap) ZInf.tiny_model)
            batch_pair None with
    | Ok (logits, _) => logits
    | Err _ => []
    end.

Section MoreInstances.
Import ZInf.

Lemma tiny_model_wf : wf_gpt 3 2 3 (load_gpt (store tiny_heap) tiny_model).
Proof.
  apply (GPT_init_wf tiny_config true empty_heap tiny_model tiny_heap (store tiny_heap));
    [vm_compute; reflexivity | apply extends_refl].
Qed.

(** A model of width zero raises on the empty batch too: the scaling
    factor is computed whatever the batch size is. *)
Example zero_width_empty_batch :
  match GPT_init (PyConfig zero_width_config) true empty_heap with
  | Ok (m, hp) =>
      GPT_forward true some_keep m (store hp) {| dim0 := 0; dim1 := 3; ldata := [] |}
        (Some {| dim0 := 0; dim1 := 3; ldata := [] |}) =
      Err (ZeroDivisionError "0.0 cannot be raised to a negative power")
  | Err _ => False
  end.
Proof. vm_compute. reflexivity. Qed.

Lemma forward_inference_last_position_witness :
  forward true some_keep (load_gpt (store tiny_heap) tiny_model) batch_012
    (Some targets_mixed) = Ok (logits_012, loss_of batch_012) ∧
  forward true some_keep (load_gpt (store tiny_heap) tiny_model) batch_012 None =
    Ok ((λ lb : list (list t), drop (dim1 batch_012 - 1) lb) <$> logits_012, None).
Proof.
  assert (Hf : forward true some_keep (load_gpt (store tiny_heap) tiny_model) batch_012
                 (Some targets_mixed) = Ok (logits_012, loss_of batch_012))
    by (vm_compute; reflexivity).
  split; [exact Hf|].
  refine (proj2 (forward_inference_last_position true some_keep _ _ _ _ _ Hf _)).
  simpl. lia.
Defined.

Lemma forward_token_out_of_range_witness :
  forward false no_keep (load_gpt (store tiny_heap) tiny_model) batch_bad_token None =
    Err (IndexError "index out of range in self").
Proof.
  refine (forward_token_out_of_range false no_keep _ batch_bad_token None _ _).
  - simpl. lia.
  - apply Exists_cons_hd, Exists_cons_tl, Exists_cons_hd. simpl. lia.
Defined.

Lemma forward_target_out_of_bounds_witness :
  forward true some_keep (load_gpt (store tiny_heap) tiny_model) batch_012
    (Some targets_bad_class) = Err (IndexError "Target is out of bounds").
Proof.
  refine (forward_target_out_of_bounds true some_keep _ 3 2 3 batch_012 targets_bad_class
            tiny_model_wf _ _ _ _ _ _ _ _).
  - lia.
  - split; [reflexivity | repeat constructor].
  - simpl. lia.
  - repeat constructor; simpl; lia.
  - split; [reflexivity | repeat constructor].
  - reflexivity.
  - reflexivity.
  - apply Exists_cons_hd, Exists_cons_tl, Exists_cons_hd.
    unfold ignore_index. simpl. lia.
Defined.

Lemma forward_target_size_mismatch_witness :
  forward true some_keep (load_gpt (store tiny_heap) tiny_model) batch_012
    (Some targets_short) =
    Err (ValueError "Expected input batch_size to match target batch_size").
Proof.
  refine (forward_target_size_mismatch true some_keep _ 3 2 3 batch_012 targets_short
            tiny_model_wf _ _ _ _ _).
  - lia.
  - split; [reflexivity | repeat constructor].
  - simpl. lia.
  - repeat constructor; simpl; lia.
  - simpl. lia.
Defined.

Lemma forward_batch_independent_witness :
  forward false no_keep (load_gpt (store tiny_heap) tiny_model) batch_pair None =
    Ok (logits_pair, None) ∧
  ∃ lb, logits_pair !! 1%nat = Some lb ∧
    forward false no_keep (load_gpt (store tiny_heap) tiny_model)
      {| dim0 := 1; dim1 := dim1 batch_pair; ldata := [[2; 1; 0]] |} None = Ok ([lb], None).
Proof.
  assert (Hf : forward false no_keep (load_gpt (store tiny_heap) tiny_model) batch_pair None =
                 Ok (logits_pair, None)) by (vm_compute; reflexivity).
  split; [exact Hf|].
  exact (forward_batch_independent no_keep _ batch_pair logits_pair 1 [2; 1; 0] Hf eq_refl).
Defined.

Lemma get_num_params_formula_witness :
  GPT_init (PyConfig tiny_config) true empty_heap = Ok (tiny_model, tiny_heap) ∧
  get_num_params tiny_model (store tiny_heap) false = model_num_params tiny_config ∧
  get_num_params tiny_model (store tiny_heap) true =
    model_num_params tiny_config - context_len tiny_config * n_embd tiny_config.
Proof.
  assert (Hb : GPT_init (PyConfig tiny_config) true empty_heap = Ok (tiny_model, tiny_heap))
    by (vm_compute; reflexivity).
  split; [exact Hb|].
  exact (get_num_params_formula tiny_config true empty_heap tiny_model tiny_heap
           (store tiny_heap) Hb (extends_refl _)).
Defined.

Lemma forward_empty_batch_witness :
  forward true some_keep (load_gpt (store tiny_heap) tiny_model)
    {| dim0 := 0; dim1 := 3; ldata := [] |}
    (Some {| dim0 := 0; dim1 := 3; ldata := [] |}) =
    Ok ([], Some (Fdiv Fzero (Fof_Z 0))).
Proof.
  refine (proj1 (forward_empty_batch true some_keep _ 3 2 3 3
                   {| dim0 := 0; dim1 := 3; ldata := [] |} tiny_model_wf _ _ _ _)).
  - lia.
  - lia.
  - lia.
  - reflexivity.
Defined.

Lemma linear_biases_zero_witness :
  GPT_init (PyConfig biased_config) true empty_heap = Ok (biased_model, biased_heap) ∧
  lin_bias (lm_head biased_model) = Some 13%nat ∧
  ∃ t, store biased_heap !! 13%nat = Some t ∧ filled_with (Fof_Z 0) t.
Proof.
  assert (Hb : GPT_init (PyConfig biased_config) true empty_heap =
                 Ok (biased_model, biased_heap)) by (vm_compute; reflexivity).
  split; [exact Hb|]. split; [reflexivity|].
  refine (linear_biases_zero biased_config empty_heap biased_model biased_heap
            (lm_head biased_model) 13%nat Hb _ _).
  - unfold gpt_tree. eapply (apply_order_child "lm_head"); [right; left|].
    apply apply_order_self.
  - reflexivity.
Defined.

Lemma weights_normal_witness :
  GPT_init (PyConfig tiny_config) true empty_heap = Ok (tiny_model, tiny_heap) ∧
  ∃ t, store tiny_heap !! emb_weight (wpe tiny_model) = Some t ∧
       drawn_normal (Fof_Z 0) (Fdiv (Fof_Z 2) (Fof_Z 100)) t.
Proof.
  assert (Hb : GPT_init (PyConfig tiny_config) true empty_heap = Ok (tiny_model, tiny_heap))
    by (vm_compute; reflexivity).
  split; [exact Hb|].
  refine (weights_normal tiny_config empty_heap tiny_model tiny_heap _ Hb _).
  right. right. left. reflexivity.
Defined.

End MoreInstances.

(** * The data preparation of [prepare_data.py]

    [NameProcessor] reads the raw names, shuffles them, builds the
    character vocabulary, encodes the joined names and cuts the token list
    into the train, dev and test splits.  Printing is not modelled. *)

Module PrepareData.
Import PrimFloat.

(** A Python [str] is a sequence of Unicode code points; [len], [set],
    [sorted] and the dictionary keys all work on code points. *)
Definition char := N.
Definition str := list char.
Definition newline : char := 10%N.

(** The key carried by a [KeyError]: a one-character [str] or an [int]. *)
Inductive pykey :=
  | KeyStr (c : char)
  | KeyInt (i : Z).

Inductive exn :=
  | AssertionError (msg : string)
  | KeyError (key : pykey)
  | IndexError (msg : string)
  | OverflowError (msg : string)
  | ValueError (msg : string)
  | OSError (errno : Z) (filename : string)
  | UnicodeDecodeError.

Inductive res (A : Type) : Type :=
  | Ret (a : A)
  | Raise (e : exn).
Arguments Ret {A} a.
Arguments Raise {A} e.

#[export] Instance res_ret : MRet res := λ A a, Ret a.
#[export] Instance res_bind : MBind res :=
  λ A B f m, match m with Ret a => f a | Raise e => Raise e end.
#[export] Instance res_fmap : FMap res :=
  λ A B f m, match m with Ret a => Ret (f a) | Raise e => Raise e end.

(** ** Python's [dict]: keys in insertion order *)

Definition dict (K V : Type) := list (K * V).

Section Dict.
Context {K V : Type} `{EqDecision K}.

(** [d[k] = v]: an existing key keeps its position. *)
Fixpoint dict_set (k : K) (v : V) (d : dict K V) : dict K V :=
  match d with
  | [] => [(k, v)]
  | (k', v') :: d => if decide (k = k') then (k', v) :: d else (k', v') :: dict_set k v d
  end.

Fixpoint dict_get (d : dict K V) (k : K) : option V :=
  match d with
  | [] => None
  | (k', v) :: d => if decide (k = k') then Some v else dict_get d k
  end.

(** A dict comprehension [{k: v for ...}] over the pairs in iteration order. *)
Definition dict_of (kvs : list (K * V)) : dict K V :=
  foldl (λ d kv, dict_set kv.1 kv.2 d) [] kvs.

(** [d.items()] *)
Definition items (d : dict K V) : list (K * V) := d.

End Dict.

(** ** Python's list slicing [l[lo:hi]] with step 1 *)

Definition slice_index (len dflt : Z) (i : option Z) : Z :=
  match i with
  | None => dflt
  | Some i => if i <? 0 then Z.max 0 (i + len) else Z.min i len
  end.

Definition slice {A} (lo hi : option Z) (l : list A) : list A :=
  let n := Z.of_nat (length l) in
  let a := slice_index n 0 lo in
  let b := slice_index n n hi in
  take (Z.to_nat (b - a)) (drop (Z.to_nat a) l).

(** ** Python's [float]: IEEE 754 binary64 *)

(** [float(n)] for a list length [n]. *)
Definition float_of_len (n : nat) : PrimFloat.float :=
  PrimFloat.of_uint63 (Uint63.of_Z (Z.of_nat n)).

(** [int(x)]: truncation towards zero. *)
Definition int_of_float (x : PrimFloat.float) : res Z :=
  match FloatOps.Prim2SF x with
  | SpecFloat.S754_zero _ => Ret 0
  | SpecFloat.S754_infinity _ =>
      Raise (OverflowError "cannot convert float infinity to integer")
  | SpecFloat.S754_nan => Raise (ValueError "cannot convert float NaN to integer")
  | SpecFloat.S754_finite s m e =>
      let a := if 0 <=? e then Z.pos m * 2 ^ e else Z.pos m `div` 2 ^ (- e) in
      Ret (if s then - a else a)
  end.

(** ** [random.Random]

    The generator is the standard library's; [random.Random(seed)] and
    [_randbelow(n)], a draw from [range(n)], are the two operations used. *)
Class Random (G : Type) := {
  Random_seed : Z → G;
  randbelow : G → nat → nat * G;
}.

Class RandomLaws (G : Type) `{Random G} : Prop := {
  randbelow_lt : ∀ g n, (0 < n)%nat → ((randbelow g n).1 < n)%nat;
}.

(** [x[i], x[j] = x[j], x[i]] *)
Definition swap {A} (i j : nat) (x : list A) : res (list A) :=
  match x !! j, x !! i with
  | Some xj, Some xi => Ret (<[j := xi]> (<[i := xj]> x))
  | _, _ => Raise (IndexError "list index out of range")
  end.

(** ** config.DataConfig *)

Record DataConfig := {
  input_file : string;
  output_dir : string;
  seed : Z;
  min_name_length : Z;
  max_name_length : Z;
  train_size : PrimFloat.float;
  dev_size : PrimFloat.float;
  test_size : PrimFloat.float;
}.

(** The defaults: [0.8], [0.1] and [0.1] are the binary64 values closest
    to the decimal literals. *)
Definition DataConfig_default : DataConfig := {|
  input_file := "data/names.txt";
  output_dir := "data";
  seed := 42;
  min_name_length := 3;
  max_name_length := 50;
  train_size := 0x1.999999999999ap-1%float;
  dev_size := 0x1.999999999999ap-4%float;
  test_size := 0x1.999999999999ap-4%float;
|}.

(** The argument of [NameProcessor.__init__]: a [DataConfig], or any other
    object. *)
Inductive pyarg :=
  | PyDataConfig (c : DataConfig)
  | PyOtherArg.

(** What is under a path that exists, as
    [open(path, mode="r", encoding="utf-8")] and [readlines] find it: a
    file they can read, with its decoded text; a path that [open] refuses
    with an [OSError] (a directory: [IsADirectoryError], errno 21; a file
    the process may not read: [PermissionError], errno 13); or a file
    whose bytes are not UTF-8, on which [readlines] raises
    [UnicodeDecodeError]. *)
Inductive entry :=
  | Text (content : str)
  | OpenFails (errno : Z)
  | NotUTF8.

Definition filesystem := gmap string entry.

(** [file.readlines()]: the lines with their newline kept; a last line
    without newline is a line too. *)
Fixpoint readlines (s : str) : list str :=
  match s with
  | [] => []
  | c :: s' =>
      if decide (c = newline) then [c] :: readlines s'
      else match readlines s' with
           | [] => [[c]]
           | l :: ls => (c :: l) :: ls
           end
  end.

(** [sorted(set(s))] *)
Definition sorted_set (s : str) : list char :=
  merge_sort N.le (elements (list_to_set (C := gset char) s)).

Section NameProcessor.
Context {G : Type} `{Random G}.

Record NameProcessor := {
  config : DataConfig;
  stoi : dict char Z;
  itos : dict Z char;
  vocab_size : Z;
  rng : G;
}.

Definition NameProcessor_init (config : pyarg) : res NameProcessor :=
  match config with
  | PyDataConfig c =>
      Ret {| config := c; stoi := []; itos := []; vocab_size := 0;
             rng := Random_seed (seed c) |}
  | PyOtherArg => Raise (AssertionError "Invalid config type.")
  end.

Definition _is_valid_name (self : NameProcessor) (name : str) : bool :=
  bool_decide (min_name_length (config self) ≤ Z.of_nat (length name)) &&
  bool_decide (Z.of_nat (length name) ≤ max_name_length (config self)).

Definition _load_raw_data (self : NameProcessor) (fs : filesystem) : res (list str) :=
  match fs !! input_file (config self) with
  | None => Raise (AssertionError ("File not found: " +:+ input_file (config self)))
  | Some (OpenFails errno) => Raise (OSError errno (input_file (config self)))
  | Some NotUTF8 => Raise UnicodeDecodeError
  | Some (Text content) =>
      Ret (filter (λ name, Is_true (_is_valid_name self name)) (readlines content))
  end.

(** [random.shuffle]: for [i] from [len(x) - 1] down to [1], exchange
    [x[i]] with [x[randbelow(i + 1)]]. *)
Fixpoint shuffle_from {A} (i : nat) (x : list A) (g : G) : res (list A * G) :=
  match i with
  | O => Ret (x, g)
  | S i' =>
      let '(j, g') := randbelow g (S i) in
      x' ← swap i j x;
      shuffle_from i' x' g'
  end.

Definition shuffle {A} (x : list A) (g : G) : res (list A * G) :=
  shuffle_from (length x - 1) x g.

(** The shuffled copy, and the processor with its generator advanced. *)
Definition _shuffle_names (self : NameProcessor) (names : list str)
    : res (list str * NameProcessor) :=
  '(shuffled_names, g) ← shuffle names (rng self);
  Ret (shuffled_names,
       {| config := config self; stoi := stoi self; itos := itos self;
          vocab_size := vocab_size self; rng := g |}).

(** The entries of [all_chars] are one-character strings; [itos] holds
    them as characters. *)
Definition _build_vocabulary (self : NameProcessor) (names : list str) : NameProcessor :=
  let all_chars := sorted_set (concat names) in
  let itos := dict_of (imap (λ i s, (Z.of_nat i, s)) all_chars) in
  let stoi := dict_of ((λ kv : Z * char, (kv.2, kv.1)) <$> items itos) in
  {| config := config self; stoi := stoi; itos := itos;
     vocab_size := Z.of_nat (length all_chars); rng := rng self |}.

Definition encode (self : NameProcessor) (text : str) : res (list Z) :=
  mapM (λ i, match dict_get (stoi self) i with
             | Some v => Ret v
             | None => Raise (KeyError (KeyStr i))
             end) text.

(** The join of one-character strings is the list of their characters. *)
Definition decode (self : NameProcessor) (indexes : list Z) : res str :=
  mapM (λ i, match dict_get (itos self) i with
             | Some s => Ret s
             | None => Raise (KeyError (KeyInt i))
             end) indexes.

Definition _create_splits {A} (self : NameProcessor) (names : list A)
    : res (list A * list A * list A) :=
  let c := config self in
  let n := float_of_len (length names) in
  boundary_1 ← int_of_float (PrimFloat.mul (train_size c) n);
  boundary_2 ← int_of_float (PrimFloat.mul (PrimFloat.add (train_size c) (dev_size c)) n);
  boundary_3 ← int_of_float (PrimFloat.mul (PrimFloat.sub 1%float (test_size c)) n);
  let train := slice None (Some boundary_1) names in
  let dev := slice (Some boundary_1) (Some boundary_2) names in
  let test := slice (Some boundary_3) None names in
  Ret (train, dev, test).

(** [execute] up to its call of [_export_data]: the three splits handed to
    the export, the token count it prints, and the processor as it is
    then. *)
Definition execute (self : NameProcessor) (fs : filesystem)
    : res (list Z * list Z * list Z * list Z * NameProcessor) :=
  names ← _load_raw_data self fs;
  '(names, self) ← _shuffle_names self names;
  let self := _build_vocabulary self names in
  encoded_data ← encode self (concat names);
  '(train, dev, test) ← _create_splits self encoded_data;
  Ret (train, dev, test, encoded_data, self).

End NameProcessor.

(** ** Facts about dictionaries *)

Section DictFacts.
Context {K V : Type} `{EqDecision K}.
Implicit Types (d : dict K V) (k : K) (v : V).

Lemma dict_set_fresh k v d : k ∉ d.*1 → dict_set k v d = d ++ [(k, v)].
Proof.
  induction d as [|[k' v'] d IH]; simpl; [done|].
  intros Hk. apply not_elem_of_cons in Hk as [Hne Hk].
  rewrite decide_False by done. by rewrite IH.
Qed.

Lemma dict_of_NoDup (kvs : list (K * V)) : NoDup kvs.*1 → dict_of kvs = kvs.
Proof.
  unfold dict_of. intros Hnd.
  enough (Hgen : ∀ acc : dict K V, NoDup (acc ++ kvs).*1 →
            foldl (λ d kv, dict_set kv.1 kv.2 d) acc kvs = acc ++ kvs)
    by exact (Hgen [] Hnd).
  clear Hnd. induction kvs as [|[k v] kvs IH]; intros acc Hnd; simpl.
  - by rewrite app_nil_r.
  - rewrite dict_set_fresh.
    + rewrite IH; rewrite <- app_assoc; [done|]. exact Hnd.
    + rewrite fmap_app in Hnd. apply NoDup_app in Hnd as (_ & Hd & _).
      intros Hin. apply (Hd k Hin). simpl. left.
Qed.

Lemma dict_get_elem_of d k v : dict_get d k = Some v → (k, v) ∈ d.
Proof.
  induction d as [|[k' v'] d IH]; simpl; [done|].
  destruct (decide (k = k')) as [->|Hne].
  - intros [= ->]. left.
  - intros Hg. right. by apply IH.
Qed.

Lemma dict_get_NoDup d k v : NoDup d.*1 → (k, v) ∈ d → dict_get d k = Some v.
Proof.
  induction d as [|[k' v'] d IH]; simpl; intros Hnd Hin.
  - by apply elem_of_nil in Hin.
  - apply NoDup_cons in Hnd as [Hk' Hnd].
    apply elem_of_cons in Hin as [[= <- <-]|Hin].
    + by rewrite decide_True.
    + rewrite decide_False; [by apply IH|].
      intros ->. apply Hk'. apply list_elem_of_fmap. by exists (k', v).
Qed.

End DictFacts.

(** ** Facts about the error monad and [mapM] *)

Section ResFacts.
Context {A B : Type}.
Implicit Types (f : A → res B).

Lemma mapM_res_nil f : mapM f [] = Ret [].
Proof. done. Qed.

Lemma mapM_res_cons f x l :
  mapM f (x :: l) =
    match f x with
    | Ret y => match mapM f l with Ret k => Ret (y :: k) | Raise e => Raise e end
    | Raise e => Raise e
    end.
Proof. simpl. by destruct (f x). Qed.

Lemma mapM_res_Ret f l k :
  mapM f l = Ret k ↔ Forall2 (λ x y, f x = Ret y) l k.
Proof.
  revert k. induction l as [|x l IH]; intros k.
  - rewrite mapM_res_nil. split.
    + intros [= <-]. constructor.
    + intros Hf. by apply Forall2_nil_inv_l in Hf as ->.
  - rewrite mapM_res_cons. split.
    + destruct (f x) as [y|] eqn:Hx; [|done].
      destruct (mapM f l) as [k'|] eqn:Hl; [|done].
      intros [= <-]. constructor; [done|]. by apply IH.
    + intros Hf. apply Forall2_cons_inv_l in Hf as (y & k' & Hx & Hl & ->).
      rewrite Hx. apply IH in Hl. by rewrite Hl.
Qed.

(** [mapM] stops at the first element that raises. *)
Lemma mapM_res_Raise f l e :
  mapM f l = Raise e ↔
    ∃ pre x post, l = pre ++ (x :: post) ∧ Forall (λ a, ∃ b, f a = Ret b) pre ∧ f x = Raise e.
Proof.
  induction l as [|x l IH].
  - rewrite mapM_res_nil. split; [done|].
    intros (pre & y & post & Hl & _). by destruct pre.
  - rewrite mapM_res_cons. split.
    + destruct (f x) as [y|e'] eqn:Hx.
      * destruct (mapM f l) as [k|e'] eqn:Hl; [done|].
        intros [= ->]. destruct IH as [IH _].
        destruct (IH eq_refl) as (pre & z & post & -> & Hpre & Hz).
        exists (x :: pre), z, post. split_and!; [done| |done].
        constructor; eauto.
      * intros [= ->]. exists [], x, l. split_and!; [done|constructor|done].
    + intros (pre & z & post & Heq & Hpre & Hz).
      destruct pre as [|a pre]; simpl in Heq; injection Heq as <- ->.
      * by rewrite Hz.
      * apply Forall_cons in Hpre as [[b Hb] Hpre]. rewrite Hb.
        destruct IH as [_ IH]. rewrite IH; [done|]. eauto 6.
Qed.

End ResFacts.

(** ** The vocabulary *)

Section VocabularyFacts.

Lemma sorted_set_Permutation s :
  sorted_set s ≡ₚ elements (list_to_set (C := gset char) s).
Proof. apply merge_sort_Permutation. Qed.

Lemma elem_of_sorted_set s c : c ∈ sorted_set s ↔ c ∈ s.
Proof. rewrite sorted_set_Permutation, elem_of_elements. apply elem_of_list_to_set. Qed.

Lemma NoDup_sorted_set s : NoDup (sorted_set s).
Proof. rewrite sorted_set_Permutation. apply NoDup_elements. Qed.

Lemma StronglySorted_sorted_set s : StronglySorted N.le (sorted_set s).
Proof. apply (StronglySorted_merge_sort _). Qed.

(** The vocabulary depends on the set of characters only. *)
Lemma sorted_set_ext s s' : (∀ c, c ∈ s ↔ c ∈ s') → sorted_set s = sorted_set s'.
Proof.
  intros Hs. unfold sorted_set. f_equal. f_equal.
  apply set_eq. intros c. by rewrite !elem_of_list_to_set.
Qed.

Lemma sorted_set_lookup_lt s i j a b :
  sorted_set s !! i = Some a → sorted_set s !! j = Some b → (i < j)%nat → (a < b)%N.
Proof.
  intros Hi Hj Hij.
  assert (a ≤ b)%N as Hle.
  { pose proof (StronglySorted_sorted_set s) as Hs.
    rewrite <- (take_drop j (sorted_set s)) in Hs.
    eapply (StronglySorted_app_1_elem_of _ _ _ _ _ Hs).
    - apply list_elem_of_lookup. exists i. by rewrite lookup_take_lt.
    - apply list_elem_of_lookup. exists 0%nat. rewrite lookup_drop.
      by rewrite Nat.add_0_r. }
  assert (a ≠ b); [|lia].
  intros ->. pose proof (NoDup_lookup _ _ _ _ (NoDup_sorted_set s) Hi Hj). lia.
Qed.

End VocabularyFacts.

Section BuildVocabulary.
Context {G : Type} `{Random G}.
Implicit Types (self : @NameProcessor G) (names : list str) (c : char) (i : Z).

Lemma imap_keys {A} (l : list A) :
  (imap (λ (n : nat) s, (Z.of_nat n, s)) l).*1 = Z.of_nat <$> seq 0 (length l).
Proof. rewrite fmap_imap. apply (imap_seq_0 l Z.of_nat). Qed.

Lemma NoDup_imap_keys {A} (l : list A) : NoDup (imap (λ (n : nat) s, (Z.of_nat n, s)) l).*1.
Proof.
  rewrite imap_keys. apply NoDup_fmap; [apply Nat2Z.inj'|apply NoDup_seq].
Qed.

Lemma itos_build self names :
  itos (_build_vocabulary self names) =
    imap (λ (n : nat) s, (Z.of_nat n, s)) (sorted_set (concat names)).
Proof. simpl. apply dict_of_NoDup, NoDup_imap_keys. Qed.

Lemma stoi_build self names :
  stoi (_build_vocabulary self names) =
    imap (λ (n : nat) s, (s, Z.of_nat n)) (sorted_set (concat names)).
Proof.
  simpl. unfold items. rewrite (dict_of_NoDup (imap _ _)) by apply NoDup_imap_keys.
  rewrite fmap_imap. apply dict_of_NoDup.
  rewrite fmap_imap.
  replace (imap _ _) with (sorted_set (concat names)); [apply NoDup_sorted_set|].
  apply list_eq. intros i. rewrite list_lookup_imap. by destruct (_ !! i).
Qed.

Lemma dict_get_itos self names i c :
  dict_get (itos (_build_vocabulary self names)) i = Some c ↔
    0 ≤ i ∧ sorted_set (concat names) !! Z.to_nat i = Some c.
Proof.
  rewrite itos_build. split.
  - intros Hg. apply dict_get_elem_of, elem_of_lookup_imap in Hg
      as (n & y & [= -> ->] & Hn).
    split; [lia|]. by rewrite Nat2Z.id.
  - intros [Hi Hl]. apply dict_get_NoDup; [apply NoDup_imap_keys|].
    apply elem_of_lookup_imap. exists (Z.to_nat i), c. split; [|done].
    f_equal. lia.
Qed.

Lemma dict_get_stoi self names c i :
  dict_get (stoi (_build_vocabulary self names)) c = Some i ↔
    0 ≤ i ∧ sorted_set (concat names) !! Z.to_nat i = Some c.
Proof.
  rewrite stoi_build. split.
  - intros Hg. apply dict_get_elem_of, elem_of_lookup_imap in Hg
      as (n & y & [= -> ->] & Hn).
    split; [lia|]. by rewrite Nat2Z.id.
  - intros [Hi Hl]. apply dict_get_NoDup.
    + rewrite fmap_imap.
      replace (imap _ _) with (sorted_set (concat names)); [apply NoDup_sorted_set|].
      apply list_eq. intros n. rewrite list_lookup_imap. by destruct (_ !! n).
    + apply elem_of_lookup_imap. exists (Z.to_nat i), c. split; [|done].
      f_equal. lia.
Qed.

Lemma vocab_size_build self names :
  vocab_size (_build_vocabulary self names) = Z.of_nat (length (sorted_set (concat names))).
Proof. done. Qed.

Lemma stoi_is_Some self names c :
  is_Some (dict_get (stoi (_build_vocabulary self names)) c) ↔ c ∈ concat names.
Proof.
  rewrite <- elem_of_sorted_set, list_elem_of_lookup. split.
  - intros [i Hi]. apply dict_get_stoi in Hi as [_ Hi]. eauto.
  - intros [n Hn]. exists (Z.of_nat n). apply dict_get_stoi.
    split; [lia|]. by rewrite Nat2Z.id.
Qed.

Lemma itos_is_Some self names i :
  is_Some (dict_get (itos (_build_vocabulary self names)) i) ↔
    0 ≤ i < vocab_size (_build_vocabulary self names).
Proof.
  rewrite vocab_size_build. split.
  - intros [c Hc]. apply dict_get_itos in Hc as [Hi Hc].
    apply lookup_lt_Some in Hc. lia.
  - intros [Hi Hlt].
    destruct (lookup_lt_is_Some_2 (sorted_set (concat names)) (Z.to_nat i)) as [c Hc];
      [lia|].
    exists c. by apply dict_get_itos.
Qed.

Lemma stoi_range self names c i :
  dict_get (stoi (_build_vocabulary self names)) c = Some i →
  0 ≤ i < vocab_size (_build_vocabulary self names).
Proof.
  intros Hc. apply itos_is_Some. exists c.
  apply dict_get_itos. by apply dict_get_stoi in Hc.
Qed.

Lemma encode_Ret self text idx :
  encode self text = Ret idx ↔
    Forall2 (λ c i, dict_get (stoi self) c = Some i) text idx.
Proof.
  unfold encode. rewrite mapM_res_Ret.
  split; intros Hf; eapply Forall2_impl; [exact Hf| |exact Hf|];
    intros c i; simpl; destruct (dict_get (stoi self) c); congruence.
Qed.

Lemma decode_Ret self idx text :
  decode self idx = Ret text ↔
    Forall2 (λ i c, dict_get (itos self) i = Some c) idx text.
Proof.
  unfold decode. etrans; [apply mapM_res_Ret|].
  split; intros Hf; eapply Forall2_impl; [exact Hf| |exact Hf|];
    intros i c; simpl; destruct (dict_get (itos self) i); congruence.
Qed.

Lemma encode_total self names text :
  Forall (λ c, c ∈ concat names) text →
  ∃ idx, encode (_build_vocabulary self names) text = Ret idx.
Proof.
  induction 1 as [|c text Hc _ [idx IH]].
  - by exists [].
  - apply (stoi_is_Some self) in Hc as [i Hi]. exists (i :: idx).
    apply encode_Ret. constructor; [done|]. by apply encode_Ret.
Qed.

End BuildVocabulary.

(** ** Properties of the vocabulary, [encode] and [decode] *)

Section VocabularyTheorems.
Context {G : Type} `{Random G}.
Implicit Types (self : @NameProcessor G) (names : list str) (c : char) (i : Z).

(** X10. After [_build_vocabulary(names)], [stoi] and [itos] are inverse
    bijections between the characters that occur in [names] and the
    integers [0 .. vocab_size - 1], and [vocab_size] is the number of
    distinct characters. *)
Theorem stoi_itos_inverse self names :
  (∀ c i, dict_get (stoi (_build_vocabulary self names)) c = Some i ↔
          dict_get (itos (_build_vocabulary self names)) i = Some c) ∧
  (∀ c, is_Some (dict_get (stoi (_build_vocabulary self names)) c) ↔ c ∈ concat names) ∧
  (∀ i, is_Some (dict_get (itos (_build_vocabulary self names)) i) ↔
        0 ≤ i < vocab_size (_build_vocabulary self names)) ∧
  vocab_size (_build_vocabulary self names) =
    Z.of_nat (size (list_to_set (C := gset char) (concat names))).
Proof.
  split_and!.
  - intros c i. by rewrite dict_get_stoi, dict_get_itos.
  - apply stoi_is_Some.
  - apply itos_is_Some.
  - rewrite vocab_size_build. f_equal. unfold size, set_size. simpl.
    apply Permutation_length, sorted_set_Permutation.
Qed.

(** X11. [decode(encode(text)) == text] for every text over the characters of
    the names the vocabulary was built from. *)
Theorem encode_decode self names text :
  Forall (λ c, c ∈ concat names) text →
  ∃ idx, encode (_build_vocabulary self names) text = Ret idx ∧
         decode (_build_vocabulary self names) idx = Ret text.
Proof.
  intros Htext. destruct (encode_total self names text Htext) as [idx Hidx].
  exists idx. split; [done|].
  apply encode_Ret in Hidx. apply decode_Ret.
  apply Forall2_flip. eapply Forall2_impl; [exact Hidx|].
  intros c i Hc. cbv beta in Hc |- *. apply dict_get_itos. by apply dict_get_stoi in Hc.
Qed.

(** X12. [encode(decode(indexes)) == indexes] for every list of indexes in
    [0 .. vocab_size - 1]. *)
Theorem decode_encode self names (indexes : list Z) :
  Forall (λ i, 0 ≤ i < vocab_size (_build_vocabulary self names)) indexes →
  ∃ text, decode (_build_vocabulary self names) indexes = Ret text ∧
          encode (_build_vocabulary self names) text = Ret indexes.
Proof.
  induction 1 as [|i indexes Hi _ (text & Hd & He)].
  - by exists [].
  - apply itos_is_Some in Hi as [c Hc]. exists (c :: text). split.
    + apply decode_Ret. constructor; [done|]. by apply decode_Ret.
    + apply encode_Ret. constructor; [|by apply encode_Ret].
      apply dict_get_stoi. by apply dict_get_itos in Hc.
Qed.

(** X13. [encode] raises exactly when the text has a character that does not
    occur in the names, and the [KeyError] carries the first such
    character. *)
Theorem encode_KeyError self names text e :
  encode (_build_vocabulary self names) text = Raise e ↔
    ∃ pre c post, text = pre ++ (c :: post) ∧ Forall (λ a, a ∈ concat names) pre ∧
                  (c ∉ concat names) ∧ e = KeyError (KeyStr c).
Proof.
  unfold encode. rewrite mapM_res_Raise. split.
  - intros (pre & c & post & -> & Hpre & Hc). exists pre, c, post.
    destruct (dict_get _ c) as [i|] eqn:Hg; [done|]. injection Hc as <-.
    split_and!; [done| |by rewrite <- (stoi_is_Some self), Hg; intros [??]|done].
    eapply Forall_impl; [exact Hpre|]. intros a [b Hb]. cbv beta in Hb.
    apply (stoi_is_Some self). destruct (dict_get _ a); [eauto|done].
  - intros (pre & c & post & -> & Hpre & Hc & ->). exists pre, c, post.
    split_and!; [done| |].
    + eapply Forall_impl; [exact Hpre|]. intros a Ha. cbv beta.
      apply (stoi_is_Some self) in Ha as [i ->]. eauto.
    + destruct (dict_get _ c) as [i|] eqn:Hg; [|done].
      exfalso. apply Hc, (stoi_is_Some self). eauto.
Qed.

(** X14. Every token [encode] returns is a valid index into a vocabulary of
    [vocab_size] entries, one token per character. *)
Theorem encode_in_range self names text idx :
  encode (_build_vocabulary self names) text = Ret idx →
  length idx = length text ∧
  Forall (λ i, 0 ≤ i < vocab_size (_build_vocabulary self names)) idx.
Proof.
  intros He. apply encode_Ret in He. split.
  - symmetry. by eapply Forall2_length.
  - eapply Forall2_Forall_r; [exact He|]. apply Forall_true.
    intros i c Hc. by eapply stoi_range.
Qed.

(** X15. The codes follow the order of the code points: a smaller character
    has a smaller code. *)
Theorem stoi_order self names c1 c2 i1 i2 :
  dict_get (stoi (_build_vocabulary self names)) c1 = Some i1 →
  dict_get (stoi (_build_vocabulary self names)) c2 = Some i2 →
  (c1 < c2)%N ↔ i1 < i2.
Proof.
  intros [H1 Hl1]%dict_get_stoi [H2 Hl2]%dict_get_stoi.
  destruct (Z.lt_trichotomy i1 i2) as [Hlt|[->|Hgt]].
  - split; [done|]. intros _.
    eapply sorted_set_lookup_lt; [exact Hl1|exact Hl2|lia].
  - rewrite Hl1 in Hl2. injection Hl2 as ->. lia.
  - assert (c2 < c1)%N; [|lia].
    eapply sorted_set_lookup_lt; [exact Hl2|exact Hl1|lia].
Qed.

End VocabularyTheorems.

(** ** The shuffle *)

Section ShuffleFacts.
Context {G : Type} `{Random G}.

Lemma swap_Permutation {A} (i j : nat) (x x' : list A) : swap i j x = Ret x' → x' ≡ₚ x.
Proof.
  unfold swap. destruct (x !! j) as [xj|] eqn:Hj; [|done].
  destruct (x !! i) as [xi|] eqn:Hi; [|done]. intros [= <-].
  pose proof (lookup_lt_Some _ _ _ Hi) as Hil.
  pose proof (lookup_lt_Some _ _ _ Hj) as Hjl.
  apply Permutation_inj. split; [by rewrite !length_insert|].
  exists (λ n, if decide (n = j) then i else if decide (n = i) then j else n).
  split.
  - intros n m. repeat case_decide; congruence.
  - intros n. repeat case_decide; subst.
    + rewrite list_lookup_insert_eq; [done|by rewrite length_insert].
    + rewrite list_lookup_insert_ne by done.
      by rewrite list_lookup_insert_eq.
    + by rewrite !list_lookup_insert_ne.
Qed.

Lemma swap_length {A} (i j : nat) (x x' : list A) :
  swap i j x = Ret x' → length x' = length x.
Proof. intros Hs. by apply Permutation_length, (swap_Permutation i j). Qed.

Lemma swap_Ret {A} (i j : nat) (x : list A) :
  (i < length x)%nat → (j < length x)%nat → ∃ x', swap i j x = Ret x'.
Proof.
  intros [xi Hi]%lookup_lt_is_Some [xj Hj]%lookup_lt_is_Some.
  unfold swap. rewrite Hi, Hj. eauto.
Qed.

Lemma shuffle_from_Permutation {A} (i : nat) (x x' : list A) (g g' : G) :
  shuffle_from i x g = Ret (x', g') → x' ≡ₚ x.
Proof.
  revert x g. induction i as [|i IH]; intros x g; simpl.
  - by intros [= <- <-].
  - destruct (randbelow g (S (S i))) as [j g1].
    destruct (swap (S i) j x) as [x1|] eqn:Hs; [|done]. simpl.
    intros Hr. apply IH in Hr. rewrite Hr. by eapply swap_Permutation.
Qed.

Lemma shuffle_from_total `{!RandomLaws G} {A} (i : nat) (x : list A) (g : G) :
  (i < length x ∨ i = 0)%nat → ∃ x' g', shuffle_from i x g = Ret (x', g').
Proof.
  revert x g. induction i as [|i IH]; intros x g Hi; simpl; [eauto|].
  pose proof (randbelow_lt g (S (S i))) as Hlt.
  destruct (randbelow g (S (S i))) as [j g1]. simpl in Hlt.
  destruct (swap_Ret (S i) j x) as [x1 Hx1]; [lia|lia|].
  rewrite Hx1. simpl. apply IH. apply swap_length in Hx1. lia.
Qed.

Lemma shuffle_Permutation {A} (x x' : list A) (g g' : G) :
  shuffle x g = Ret (x', g') → x' ≡ₚ x.
Proof. apply shuffle_from_Permutation. Qed.

Lemma shuffle_total `{!RandomLaws G} {A} (x : list A) (g : G) :
  ∃ x' g', shuffle x g = Ret (x', g').
Proof. apply shuffle_from_total. destruct x; simpl; lia. Qed.

Lemma _shuffle_names_inv (self self' : @NameProcessor G) names names' :
  _shuffle_names self names = Ret (names', self') →
  names' ≡ₚ names ∧ config self' = config self ∧ stoi self' = stoi self ∧
  itos self' = itos self ∧ vocab_size self' = vocab_size self.
Proof.
  unfold _shuffle_names.
  destruct (shuffle names (rng self)) as [[x g]|] eqn:Hs; [|done].
  simpl. intros [= <- <-]. split; [by eapply shuffle_Permutation|done].
Qed.

Lemma elem_of_concat_Permutation {A} (l k : list (list A)) (a : A) :
  l ≡ₚ k → a ∈ concat l ↔ a ∈ concat k.
Proof. intros Hp. by rewrite Hp. Qed.

Lemma _shuffle_names_total `{!RandomLaws G} (self : @NameProcessor G) names :
  ∃ names' self', _shuffle_names self names = Ret (names', self').
Proof.
  destruct (shuffle_total names (rng self)) as (x & g & Hs).
  unfold _shuffle_names. rewrite Hs. simpl. eauto.
Qed.

(** X16. [_shuffle_names] returns a permutation of the names and changes
    nothing of the processor but its generator. *)
Theorem shuffle_names_permutation `{!RandomLaws G} (self : @NameProcessor G) names :
  ∃ names' self', _shuffle_names self names = Ret (names', self') ∧
    names' ≡ₚ names ∧ config self' = config self ∧ stoi self' = stoi self ∧
    itos self' = itos self ∧ vocab_size self' = vocab_size self.
Proof.
  destruct (_shuffle_names_total self names) as (names' & self' & Hs).
  exists names', self'. split; [done|]. by apply _shuffle_names_inv.
Qed.

(** X17. The vocabulary does not depend on the shuffle: built from the
    shuffled names it is the one built from the names as loaded. *)
Theorem vocabulary_shuffle_independent (self self' : @NameProcessor G) names names' :
  _shuffle_names self names = Ret (names', self') →
  stoi (_build_vocabulary self' names') = stoi (_build_vocabulary self names) ∧
  itos (_build_vocabulary self' names') = itos (_build_vocabulary self names) ∧
  vocab_size (_build_vocabulary self' names') = vocab_size (_build_vocabulary self names).
Proof.
  intros Hs. apply _shuffle_names_inv in Hs as (Hp & _).
  assert (sorted_set (concat names') = sorted_set (concat names)) as Heq.
  { apply sorted_set_ext. intros c. by apply elem_of_concat_Permutation. }
  unfold _build_vocabulary. simpl. by rewrite Heq.
Qed.

End ShuffleFacts.

(** ** The splits *)

Section SplitFacts.
Context {A : Type}.
Implicit Types (l : list A) (lo hi : option Z).

Lemma slice_index_range (len dflt : Z) (i : option Z) :
  0 ≤ dflt ≤ len → 0 ≤ slice_index len dflt i ≤ len.
Proof. intros Hd. unfold slice_index. destruct i as [i|]; [case_match|]; lia. Qed.

Lemma slice_infix lo hi l : ∃ a b, l = a ++ slice lo hi l ++ b.
Proof.
  unfold slice.
  set (m := Z.to_nat (slice_index _ 0 lo)). set (n := Z.to_nat _).
  exists (take m l), (drop n (drop m l)). by rewrite !take_drop.
Qed.

Lemma slice_prefix hi l : slice None hi l `prefix_of` l.
Proof. unfold slice. simpl. apply prefix_take. Qed.

Lemma slice_suffix lo l : slice lo None l `suffix_of` l.
Proof.
  unfold slice. simpl.
  pose proof (slice_index_range (Z.of_nat (length l)) 0 lo) as Hr.
  rewrite take_ge; [apply suffix_drop|]. rewrite length_drop. lia.
Qed.

(** Three slices cut at the same two points cover the list. *)
Lemma slice_partition l (b1 b2 : Z) :
  slice (Some b1) (Some b2) l ≠ [] →
  slice None (Some b1) l ++ slice (Some b1) (Some b2) l ++ slice (Some b2) None l = l.
Proof.
  unfold slice. cbv zeta.
  change (slice_index (Z.of_nat (length l)) 0 None) with 0.
  change (slice_index (Z.of_nat (length l)) (Z.of_nat (length l)) None)
    with (Z.of_nat (length l)).
  change (slice_index (Z.of_nat (length l)) (Z.of_nat (length l)) (Some b1))
    with (slice_index (Z.of_nat (length l)) 0 (Some b1)).
  change (slice_index (Z.of_nat (length l)) (Z.of_nat (length l)) (Some b2))
    with (slice_index (Z.of_nat (length l)) 0 (Some b2)).
  pose proof (slice_index_range (Z.of_nat (length l)) 0 (Some b1)) as H1.
  pose proof (slice_index_range (Z.of_nat (length l)) 0 (Some b2)) as H2.
  set (a := slice_index _ 0 (Some b1)) in *. set (b := slice_index _ 0 (Some b2)) in *.
  intros Hne.
  assert (a < b) as Hab.
  { destruct (decide (a < b)) as [|Hge]; [done|]. exfalso. apply Hne.
    replace (Z.to_nat (b - a)) with 0%nat by lia. done. }
  rewrite Z.sub_0_r, app_assoc, take_take_drop.
  replace (Z.to_nat a + Z.to_nat (b - a))%nat with (Z.to_nat b) by lia.
  rewrite (take_ge (drop _ _)); [apply take_drop|]. rewrite length_drop. lia.
Qed.

End SplitFacts.

Section SplitTheorems.
Context {G : Type} `{Random G} {A : Type}.
Implicit Types (self : @NameProcessor G) (names train dev test : list A).

Lemma _create_splits_inv self names train dev test :
  _create_splits self names = Ret (train, dev, test) →
  ∃ b1 b2 b3 : Z,
    int_of_float (PrimFloat.mul (train_size (config self))
                    (float_of_len (length names))) = Ret b1 ∧
    int_of_float (PrimFloat.mul (PrimFloat.add (train_size (config self))
                                   (dev_size (config self)))
                    (float_of_len (length names))) = Ret b2 ∧
    int_of_float (PrimFloat.mul (PrimFloat.sub 1%float (test_size (config self)))
                    (float_of_len (length names))) = Ret b3 ∧
    train = slice None (Some b1) names ∧
    dev = slice (Some b1) (Some b2) names ∧
    test = slice (Some b3) None names.
Proof.
  unfold _create_splits. cbv zeta.
  destruct (int_of_float (PrimFloat.mul (train_size _) _)) as [b1|]; [|done].
  destruct (int_of_float (PrimFloat.mul (PrimFloat.add _ _) _)) as [b2|]; [|done].
  destruct (int_of_float (PrimFloat.mul (PrimFloat.sub _ _) _)) as [b3|]; [|done].
  intros [= <- <- <-]. by exists b1, b2, b3.
Qed.

(** X18. Whatever the split sizes, the splits are pieces of the token list in
    its order: [train] is a prefix, [test] a suffix and [dev] a contiguous
    segment; nothing is reordered, repeated inside a split or invented. *)
Theorem create_splits_segments self names train dev test :
  _create_splits self names = Ret (train, dev, test) →
  train `prefix_of` names ∧ test `suffix_of` names ∧
  ∃ before after, names = before ++ dev ++ after.
Proof.
  intros Hs. apply _create_splits_inv in Hs
    as (b1 & b2 & b3 & _ & _ & _ & -> & -> & ->).
  split_and!; [apply slice_prefix|apply slice_suffix|apply slice_infix].
Qed.

(** X19. When [train_size + dev_size] and [1 - test_size] are the same float,
    as for the default sizes, and the dev split is not empty, the three
    splits follow one another and cover the token list: no token is lost
    and none is in two splits. *)
Theorem create_splits_partition self names train dev test :
  PrimFloat.add (train_size (config self)) (dev_size (config self)) =
    PrimFloat.sub 1%float (test_size (config self)) →
  _create_splits self names = Ret (train, dev, test) →
  dev ≠ [] →
  train ++ dev ++ test = names.
Proof.
  intros Hf Hs Hdev. apply _create_splits_inv in Hs
    as (b1 & b2 & b3 & _ & H2 & H3 & -> & -> & ->).
  rewrite Hf, H3 in H2. injection H2 as ->. by apply slice_partition.
Qed.

End SplitTheorems.

(** ** Loading and the whole of [execute] *)

Section ExecuteFacts.
Context {G : Type} `{Random G}.
Implicit Types (self : @NameProcessor G) (names : list str).

Lemma concat_readlines (s : str) : concat (readlines s) = s.
Proof.
  induction s as [|c s IH]; simpl; [done|].
  destruct (decide (c = newline)); simpl; [by rewrite IH|].
  destruct (readlines s) as [|l ls]; simpl in *; by rewrite <- IH.
Qed.




(** X20. When every line of the input file passes the length check, the loaded
    names joined together are the content of the file: the newlines are
    kept. *)
Theorem load_raw_data_lossless self (fs : filesystem) (content : str) :
  fs !! input_file (config self) = Some (Text content) →
  Forall (λ line, min_name_length (config self) ≤ Z.of_nat (length line) ∧
                  Z.of_nat (length line) ≤ max_name_length (config self))
         (readlines content) →
  ∃ names, _load_raw_data self fs = Ret names ∧ concat names = content.
Proof.
  intros Hfs Hall. unfold _load_raw_data. rewrite Hfs. eexists. split; [done|].
  rewrite <- (concat_readlines content) at 2. f_equal.
  induction Hall as [|line ls [Hmin Hmax] _ IH]; [done|].
  rewrite filter_cons_True; [by rewrite IH|].
  unfold _is_valid_name. rewrite !bool_decide_eq_true_2 by done. done.
Qed.


Lemma Forall_slice {A} (P : A → Prop) lo hi (l : list A) :
  Forall P l → Forall P (slice lo hi l).
Proof. intros Hl. unfold slice. by apply Forall_take, Forall_drop. Qed.

(** X22. What [execute] hands to the export: the tokens decode to the joined
    names, a permutation of the lines of the input file that pass the
    length check, and every token of the three splits is an index below
    the vocabulary size. *)
Theorem execute_tokens self (fs : filesystem) train dev test encoded_data self' :
  execute self fs = Ret (train, dev, test, encoded_data, self') →
  ∃ content names,
    fs !! input_file (config self) = Some (Text content) ∧
    names ≡ₚ filter (λ name, Is_true (_is_valid_name self name)) (readlines content) ∧
    decode self' encoded_data = Ret (concat names) ∧
    Forall (λ i, 0 ≤ i < vocab_size self') train ∧
    Forall (λ i, 0 ≤ i < vocab_size self') dev ∧
    Forall (λ i, 0 ≤ i < vocab_size self') test.
Proof.
  unfold execute, _load_raw_data.
  destruct (fs !! input_file (config self)) as [[content|errno|]|]; simpl; [|done..].
  destruct (_shuffle_names self _) as [[names self1]|] eqn:Hsh; simpl; [|done].
  destruct (encode _ (concat names)) as [idx|] eqn:He; simpl; [|done].
  destruct (_create_splits _ idx) as [[[tr dv] te]|] eqn:Hs; simpl; [|done].
  intros [= <- <- <- <- <-]. exists content, names.
  apply _shuffle_names_inv in Hsh as (Hp & _).
  assert (Forall (λ i, 0 ≤ i < vocab_size (_build_vocabulary self1 names)) idx) as Hr.
  { pose proof He as He'. apply encode_Ret in He'.
    eapply Forall2_Forall_r; [exact He'|]. apply Forall_true.
    intros c i Hc. by eapply stoi_range. }
  apply _create_splits_inv in Hs as (b1 & b2 & b3 & _ & _ & _ & -> & -> & ->).
  split_and!; [done|done| |by apply Forall_slice..].
  apply encode_Ret in He. apply decode_Ret.
  apply Forall2_flip. eapply Forall2_impl; [exact He|].
  intros c i Hc. cbv beta in Hc |- *. apply dict_get_itos. by apply dict_get_stoi in Hc.
Qed.

End ExecuteFacts.

(** ** A small run

    A linear congruential generator stands for [random.Random], and a file
    of five lines for the list of names. *)

#[export] Instance lcg : Random Z := {|
  Random_seed := λ s, s;
  randbelow := λ g n, (Z.to_nat (g `mod` Z.of_nat n),
                       (g * 1103515245 + 12345) `mod` 2147483648);
|}.

#[export] Instance lcg_laws : RandomLaws Z.
Proof.
  split. intros g n Hn. simpl.
  pose proof (Z.mod_pos_bound g (Z.of_nat n)). lia.
Qed.

(** The lines [ab], [abc], [x], [Hof] and [zed], the last without newline. *)
Definition demo_content : str :=
  [97; 98; 10; 97; 98; 99; 10; 120; 10; 72; 111; 102; 10; 122; 101; 100]%N.

Definition demo_fs : filesystem := {[ "data/names.txt" := Text demo_content ]}.

Definition demo_processor : @NameProcessor Z := {|
  config := DataConfig_default; stoi := []; itos := []; vocab_size := 0; rng := 42;
|}.

Definition demo_names : list str :=
  [[97; 98; 10]; [97; 98; 99; 10]; [72; 111; 102; 10]; [122; 101; 100]]%N.

Definition demo_shuffled : list str :=
  [[97; 98; 99; 10]; [122; 101; 100]; [97; 98; 10]; [72; 111; 102; 10]]%N.

Definition demo_vocabulary : @NameProcessor Z := {|
  config := DataConfig_default;
  stoi := [(10%N, 0); (72%N, 1); (97%N, 2); (98%N, 3); (99%N, 4);
           (100%N, 5); (101%N, 6); (102%N, 7); (111%N, 8); (122%N, 9)];
  itos := [(0, 10%N); (1, 72%N); (2, 97%N); (3, 98%N); (4, 99%N);
           (5, 100%N); (6, 101%N); (7, 102%N); (8, 111%N); (9, 122%N)];
  vocab_size := 10;
  rng := 1000676753;
|}.

Definition demo_encoded : list Z := [2; 3; 4; 0; 9; 6; 5; 2; 3; 0; 1; 8; 7; 0].

Section Demo.

Example demo_init : NameProcessor_init (PyDataConfig DataConfig_default) = Ret demo_processor.
Proof. reflexivity. Qed.

Example demo_load : _load_raw_data demo_processor demo_fs = Ret demo_names.
Proof. vm_compute. reflexivity. Qed.

Example demo_execute :
  execute demo_processor demo_fs =
    Ret ([2; 3; 4; 0; 9; 6; 5; 2; 3; 0; 1], [8], [7; 0], demo_encoded, demo_vocabulary).
Proof. vm_compute. reflexivity. Qed.

(** The default sizes: [0.8 + 0.1] and [1 - 0.1] are the same float. *)
Example default_sizes_meet :
  PrimFloat.add (train_size DataConfig_default) (dev_size DataConfig_default) =
    PrimFloat.sub 1%float (test_size DataConfig_default).
Proof. vm_compute. reflexivity. Qed.

Lemma encode_decode_witness :
  Forall (λ c, c ∈ concat demo_names) [72; 111; 102]%N ∧
  ∃ idx, encode (_build_vocabulary demo_processor demo_names) [72; 111; 102]%N = Ret idx ∧
         decode (_build_vocabulary demo_processor demo_names) idx = Ret [72; 111; 102]%N.
Proof.
  assert (Ht : Forall (λ c, c ∈ concat demo_names) [72; 111; 102]%N)
    by (repeat constructor; set_solver).
  split; [exact Ht|]. exact (encode_decode demo_processor demo_names _ Ht).
Defined.

Lemma decode_encode_witness :
  Forall (λ i, 0 ≤ i < vocab_size (_build_vocabulary demo_processor demo_names)) [9; 0; 3] ∧
  ∃ text, decode (_build_vocabulary demo_processor demo_names) [9; 0; 3] = Ret text ∧
          encode (_build_vocabulary demo_processor demo_names) text = Ret [9; 0; 3].
Proof.
  assert (Hi : Forall (λ i, 0 ≤ i < vocab_size (_build_vocabulary demo_processor demo_names))
                 [9; 0; 3])
    by (repeat constructor; vm_compute; congruence).
  split; [exact Hi|]. exact (decode_encode demo_processor demo_names _ Hi).
Defined.

Lemma encode_in_range_witness :
  encode (_build_vocabulary demo_processor demo_names) [72; 111; 102]%N = Ret [1; 8; 7] ∧
  length [1; 8; 7] = length [72; 111; 102]%N ∧
  Forall (λ i, 0 ≤ i < vocab_size (_build_vocabulary demo_processor demo_names)) [1; 8; 7].
Proof.
  assert (He : encode (_build_vocabulary demo_processor demo_names) [72; 111; 102]%N
               = Ret [1; 8; 7]) by (vm_compute; reflexivity).
  split; [exact He|]. exact (encode_in_range demo_processor demo_names _ _ He).
Defined.

Lemma stoi_order_witness :
  dict_get (stoi (_build_vocabulary demo_processor demo_names)) 72%N = Some 1 ∧
  dict_get (stoi (_build_vocabulary demo_processor demo_names)) 97%N = Some 2 ∧
  ((72 < 97)%N ↔ 1 < 2).
Proof.
  assert (H1 : dict_get (stoi (_build_vocabulary demo_processor demo_names)) 72%N = Some 1)
    by (vm_compute; reflexivity).
  assert (H2 : dict_get (stoi (_build_vocabulary demo_processor demo_names)) 97%N = Some 2)
    by (vm_compute; reflexivity).
  split_and!; [exact H1|exact H2|].
  exact (stoi_order demo_processor demo_names _ _ _ _ H1 H2).
Defined.

Lemma shuffle_names_permutation_witness :
  ∃ names' self', _shuffle_names demo_processor demo_names = Ret (names', self') ∧
    names' ≡ₚ demo_names ∧ config self' = config demo_processor ∧
    stoi self' = stoi demo_processor ∧ itos self' = itos demo_processor ∧
    vocab_size self' = vocab_size demo_processor.
Proof.
  exact (shuffle_names_permutation (RandomLaws0 := lcg_laws) demo_processor demo_names).
Defined.

Lemma vocabulary_shuffle_independent_witness :
  _shuffle_names demo_processor demo_names =
    Ret (demo_shuffled, {| config := DataConfig_default; stoi := []; itos := [];
                           vocab_size := 0; rng := 1000676753 |}) ∧
  stoi (_build_vocabulary {| config := DataConfig_default; stoi := []; itos := [];
                             vocab_size := 0; rng := 1000676753 |} demo_shuffled) =
    stoi (_build_vocabulary demo_processor demo_names).
Proof.
  assert (Hs : _shuffle_names demo_processor demo_names =
                 Ret (demo_shuffled, {| config := DataConfig_default; stoi := []; itos := [];
                                        vocab_size := 0; rng := 1000676753 |}))
    by (vm_compute; reflexivity).
  split; [exact Hs|].
  exact (proj1 (vocabulary_shuffle_independent _ _ _ _ Hs)).
Defined.

Lemma create_splits_segments_witness :
  _create_splits demo_vocabulary demo_encoded =
    Ret ([2; 3; 4; 0; 9; 6; 5; 2; 3; 0; 1], [8], [7; 0]) ∧
  [2; 3; 4; 0; 9; 6; 5; 2; 3; 0; 1] `prefix_of` demo_encoded ∧
  [7; 0] `suffix_of` demo_encoded ∧
  ∃ before after, demo_encoded = before ++ [8] ++ after.
Proof.
  assert (Hs : _create_splits demo_vocabulary demo_encoded =
                 Ret ([2; 3; 4; 0; 9; 6; 5; 2; 3; 0; 1], [8], [7; 0]))
    by (vm_compute; reflexivity).
  split; [exact Hs|]. exact (create_splits_segments _ _ _ _ _ Hs).
Defined.

Lemma create_splits_partition_witness :
  _create_splits demo_vocabulary demo_encoded =
    Ret ([2; 3; 4; 0; 9; 6; 5; 2; 3; 0; 1], [8], [7; 0]) ∧
  [2; 3; 4; 0; 9; 6; 5; 2; 3; 0; 1] ++ [8] ++ [7; 0] = demo_encoded.
Proof.
  assert (Hs : _create_splits demo_vocabulary demo_encoded =
                 Ret ([2; 3; 4; 0; 9; 6; 5; 2; 3; 0; 1], [8], [7; 0]))
    by (vm_compute; reflexivity).
  split; [exact Hs|].
  refine (create_splits_partition demo_vocabulary _ _ _ _ _ Hs _).
  - vm_compute. reflexivity.
  - discriminate.
Defined.

Lemma load_raw_data_lossless_witness :
  ∃ names,
    _load_raw_data demo_processor (<["data/names.txt" := Text (concat demo_names)]> demo_fs)
      = Ret names ∧
    concat names = concat demo_names.
Proof.
  refine (load_raw_data_lossless demo_processor _ (concat demo_names) _ _).
  - vm_compute. reflexivity.
  - vm_compute. repeat constructor; discriminate.
Defined.



Lemma execute_tokens_witness :
  ∃ content names,
    demo_fs !! input_file (config demo_processor) = Some (Text content) ∧
    names ≡ₚ filter (λ name, Is_true (_is_valid_name demo_processor name))
               (readlines content) ∧
    decode demo_vocabulary demo_encoded = Ret (concat names) ∧
    Forall (λ i, 0 ≤ i < vocab_size demo_vocabulary) [2; 3; 4; 0; 9; 6; 5; 2; 3; 0; 1] ∧
    Forall (λ i, 0 ≤ i < vocab_size demo_vocabulary) [8] ∧
    Forall (λ i, 0 ≤ i < vocab_size demo_vocabulary) [7; 0].
Proof.
  refine (execute_tokens demo_processor demo_fs _ _ _ _ _ _).
  vm_compute. reflexivity.
Defined.

End Demo.

End PrepareData.

(** * The training configuration of [config.py] *)

Module Config.
Import PrimFloat Stdlib.Strings.Ascii.

Record TrainConfig := {
  batch_size : Z;
  learning_rate : PrimFloat.float;
  train_iter : Z;
  eval_iter : Z;
  eval_interval : Z;
  device : string;
  data_dir : string;
  saved_models_root : string;
  model_name : string;
  seed : Z;
  num_samples : Z;
}.

(** The defaults; [3e-4] is the binary64 value closest to the literal. *)
Definition TrainConfig_default : TrainConfig := {|
  batch_size := 64;
  learning_rate := 0x1.3a92a30553261p-12%float;
  train_iter := 1;
  eval_iter := 150;
  eval_interval := 500;
  device := "mps";
  data_dir := "data";
  saved_models_root := "saved_models";
  model_name := "bavGPT";
  seed := 42;
  num_samples := 20;
|}.

(** What [datetime.datetime.now()] returns. *)
Record datetime := {
  year : Z;
  month : Z;
  day : Z;
  hour : Z;
  minute : Z;
  second : Z;
  microsecond : Z;
}.

(** The values a [datetime] can hold, for the years every C library
    prints with four digits. *)
Definition datetime_valid (d : datetime) : Prop :=
  1000 ≤ year d ≤ 9999 ∧ 1 ≤ month d ≤ 12 ∧ 1 ≤ day d ≤ 31 ∧
  0 ≤ hour d ≤ 23 ∧ 0 ≤ minute d ≤ 59 ∧ 0 ≤ second d ≤ 59 ∧
  0 ≤ microsecond d ≤ 999999.

(** One decimal digit, and the zero-padded fields of [strftime]. *)
Definition digit (n : Z) : ascii := ascii_of_nat (48 + Z.to_nat (n `mod` 10)).

Definition pad2 (n : Z) (rest : string) : string :=
  String (digit (n `div` 10)) (String (digit n) rest).

Definition pad4 (n : Z) (rest : string) : string :=
  String (digit (n `div` 1000)) (String (digit (n `div` 100)) (pad2 n rest)).

(** [d.strftime("%Y%m%d_%H%M%S")] *)
Definition strftime (d : datetime) : string :=
  pad4 (year d) (pad2 (month d) (pad2 (day d)
    (String "_"%char (pad2 (hour d) (pad2 (minute d) (pad2 (second d) EmptyString)))))).

Definition startswith_sep (s : string) : bool :=
  match s with
  | String "/"%char _ => true
  | _ => false
  end.

Fixpoint endswith_sep (s : string) : bool :=
  match s with
  | EmptyString => false
  | String c EmptyString => bool_decide (c = "/"%char)
  | String _ rest => endswith_sep rest
  end.

(** [os.path.join(a, b)] of [posixpath]. *)
Definition path_join (a b : string) : string :=
  if startswith_sep b then b
  else if bool_decide (a = "") || endswith_sep a then a +:+ b
  else a +:+ "/" +:+ b.

(** The property [save_dir_current], read when the clock shows [now]. *)
Definition save_dir_current (self : TrainConfig) (now : datetime) : string :=
  let ts := strftime now in
  path_join (saved_models_root self) (model_name self +:+ "_" +:+ ts).

Section SaveDir.

Lemma digit_inj (a b : Z) : digit a = digit b → a `mod` 10 = b `mod` 10.
Proof.
  unfold digit. intros Hd.
  pose proof (Z.mod_pos_bound a 10). pose proof (Z.mod_pos_bound b 10).
  apply (f_equal nat_of_ascii) in Hd.
  rewrite !nat_ascii_embedding in Hd by lia. lia.
Qed.

Lemma pad2_inj (a b : Z) (r s : string) :
  0 ≤ a < 100 → 0 ≤ b < 100 → pad2 a r = pad2 b s → a = b ∧ r = s.
Proof.
  intros Ha Hb [= H1%digit_inj H0%digit_inj ->]. split; [|done].
  Z.div_mod_to_equations. lia.
Qed.

Lemma pad4_inj (a b : Z) (r s : string) :
  0 ≤ a < 10000 → 0 ≤ b < 10000 → pad4 a r = pad4 b s → a = b ∧ r = s.
Proof.
  intros Ha Hb [= H3%digit_inj H2%digit_inj H1%digit_inj H0%digit_inj ->]. split; [|done].
  Z.div_mod_to_equations. lia.
Qed.

Lemma String_inj_tail (c : ascii) (r s : string) : String c r = String c s → r = s.
Proof. by intros [= ->]. Qed.

Lemma strftime_inj (d1 d2 : datetime) :
  datetime_valid d1 → datetime_valid d2 → strftime d1 = strftime d2 →
  year d1 = year d2 ∧ month d1 = month d2 ∧ day d1 = day d2 ∧
  hour d1 = hour d2 ∧ minute d1 = minute d2 ∧ second d1 = second d2.
Proof.
  intros (Hy1 & Hm1 & Hd1 & Hh1 & Hi1 & Hs1 & _) (Hy2 & Hm2 & Hd2 & Hh2 & Hi2 & Hs2 & _).
  unfold strftime. intros He.
  apply pad4_inj in He as [? He]; [|lia..].
  apply pad2_inj in He as [? He]; [|lia..].
  apply pad2_inj in He as [? He]; [|lia..].
  apply String_inj_tail in He.
  apply pad2_inj in He as [? He]; [|lia..].
  apply pad2_inj in He as [? He]; [|lia..].
  apply pad2_inj in He as [? He]; [|lia..].
  done.
Qed.

Lemma append_assoc (x y z : string) : (x +:+ y) +:+ z = x +:+ (y +:+ z).
Proof.
  induction x as [|c x IH]; [done|].
  change (String c ((x +:+ y) +:+ z) = String c (x +:+ (y +:+ z))). by rewrite IH.
Qed.

Lemma string_app_inv_head (p s t : string) : p +:+ s = p +:+ t → s = t.
Proof.
  induction p as [|c p IH]; [done|]. intros Hp.
  change (String c (p +:+ s) = String c (p +:+ t)) in Hp. injection Hp as Hp. by apply IH.
Qed.

(** The path is a fixed prefix followed by the time stamp. *)
Lemma save_dir_current_prefix (self : TrainConfig) :
  ∃ prefix, ∀ now, save_dir_current self now = prefix +:+ strftime now.
Proof.
  unfold save_dir_current, path_join. cbv zeta.
  destruct (model_name self) as [|c name] eqn:Hn.
  - (* the second component starts with "_" *)
    change (startswith_sep ("" +:+ "_" +:+ _)) with false. cbv iota.
    destruct (bool_decide _ || endswith_sep _).
    + exists (saved_models_root self +:+ "_"). intros now.
      by rewrite !append_assoc.
    + exists (saved_models_root self +:+ "/" +:+ "_"). intros now.
      by rewrite !append_assoc.
  - destruct (decide (c = "/"%char)) as [->|Hc].
    + exists (String "/"%char name +:+ "_"). intros now.
      change (startswith_sep (String "/"%char name +:+ "_" +:+ strftime now)) with true.
      cbv iota. by rewrite !append_assoc.
    + assert (∀ r, startswith_sep (String c name +:+ r) = false) as Hs.
      { intros r. simpl.
        destruct c as [[] [] [] [] [] [] [] []]; done. }
      destruct (bool_decide _ || endswith_sep _).
      * exists (saved_models_root self +:+ String c name +:+ "_"). intros now.
        rewrite Hs. by rewrite !append_assoc.
      * exists (saved_models_root self +:+ "/" +:+ String c name +:+ "_"). intros now.
        rewrite Hs. by rewrite !append_assoc.
Qed.

(** X24. [save_dir_current] is read off the clock at every access: two reads
    give the same directory exactly when the clock shows the same second. *)
Theorem save_dir_current_same_second (self : TrainConfig) (d1 d2 : datetime) :
  datetime_valid d1 → datetime_valid d2 →
  save_dir_current self d1 = save_dir_current self d2 ↔
    year d1 = year d2 ∧ month d1 = month d2 ∧ day d1 = day d2 ∧
    hour d1 = hour d2 ∧ minute d1 = minute d2 ∧ second d1 = second d2.
Proof.
  intros Hv1 Hv2. destruct (save_dir_current_prefix self) as [prefix Hp].
  rewrite !Hp. split.
  - intros He%string_app_inv_head. by apply strftime_inj.
  - intros (Hy & Hm & Hd & Hh & Hi & Hs). unfold strftime.
    by rewrite Hy, Hm, Hd, Hh, Hi, Hs.
Qed.

End SaveDir.

Definition demo_now : datetime := {|
  year := 2025; month := 7; day := 3; hour := 17; minute := 35; second := 29;
  microsecond := 0;
|}.

Definition demo_later : datetime := {|
  year := 2025; month := 7; day := 3; hour := 17; minute := 35; second := 30;
  microsecond := 0;
|}.

Section ConfigDemo.

(** The example of the docstring. *)
Example save_dir_current_default :
  save_dir_current TrainConfig_default demo_now = "saved_models/bavGPT_20250703_173529".
Proof. vm_compute. reflexivity. Qed.

Lemma save_dir_current_same_second_witness :
  datetime_valid demo_now ∧ datetime_valid demo_later ∧
  save_dir_current TrainConfig_default demo_now ≠
    save_dir_current TrainConfig_default demo_later.
Proof.
  assert (H1 : datetime_valid demo_now) by (unfold datetime_valid; simpl; lia).
  assert (H2 : datetime_valid demo_later) by (unfold datetime_valid; simpl; lia).
  split; [exact H1|]. split; [exact H2|].
  intros He.
  apply (proj1 (save_dir_current_same_second TrainConfig_default _ _ H1 H2)) in He.
  destruct He as (_ & _ & _ & _ & _ & Hs). discriminate Hs.
Defined.

End ConfigDemo.

End Config.
